(** * CairoSVG path interpreter and marker placement (cairosvgmg/path.py)

    A shallow embedding of the two entry points of [path.py]:
    [path], the interpreter of the SVG path mini-language, and
    [draw_markers], the pass that walks the recorded vertex stream.

    Conventions of the embedding.
    - Python [float] values are idealised as real numbers ([R]); rounding,
      signed zeros, infinities and NaN are outside the model.
    - Python strings are [string] (one [ascii] per character).
    - The vertex stream [node.vertices] is a heterogeneous Python list whose
      entries are either a 2-tuple (a point or a pair of angles: the two are
      not distinguished at run time) or [None]; it is modelled as
      [list (option (R * R))].
    - Calls on [surface.context] are recorded, in order, in a trace.
    - A Python exception is an explicit [Raise] result.
    - The helpers imported from [helpers.py], [url.py] and
      [bounding_box.py] are not part of the sources at hand: they are
      parameters of the sections below, and concrete instances are supplied
      afterwards to run the interpreter on concrete path data. *)

From Stdlib Require Import String Ascii List Bool ZArith Reals Lra Lia DecimalString.
Import ListNotations.

Open Scope string_scope.
Open Scope R_scope.

(** ** Python exceptions and results *)

Inductive exn : Type :=
| ValueError
| IndexError
| TypeError
| UnboundLocalError
| AttributeError
| KeyError
| ZeroDivisionError
| HelperError.

Inductive result (A : Type) : Type :=
| Ok (a : A)
| Raise (e : exn).

Arguments Ok {A} a.
Arguments Raise {A} e.

Definition bind {A B : Type} (r : result A) (k : A -> result B) : result B :=
  match r with
  | Ok a => k a
  | Raise e => Raise e
  end.

Notation "x <- r ;; k" := (bind r (fun x => k))
  (at level 61, r at next level, right associativity).
Notation "' p <- r ;; k" := (bind r (fun p => k))
  (at level 61, p pattern, r at next level, right associativity).

(** ** Python string primitives *)

Module PyStr.

(** [str.isspace] on the code points below 128. *)
Definition is_space (c : ascii) : bool :=
  let n := nat_of_ascii c in
  ((9 <=? n) && (n <=? 13) || (28 <=? n) && (n <=? 32))%nat.

Fixpoint lstrip (s : string) : string :=
  match s with
  | EmptyString => EmptyString
  | String c r => if is_space c then lstrip r else s
  end.

Fixpoint rstrip (s : string) : string :=
  match s with
  | EmptyString => EmptyString
  | String c r =>
      match rstrip r with
      | EmptyString => if is_space c then EmptyString else String c EmptyString
      | r' => String c r'
      end
  end.

(** [s.strip()] *)
Definition strip (s : string) : string := rstrip (lstrip s).

(** [s.split(' ', 1)]: the part before the first space and, when there is
    a space, the part after it. *)
Fixpoint split1 (s : string) : string * option string :=
  match s with
  | EmptyString => (EmptyString, None)
  | String c r =>
      if Ascii.eqb c " "%char then (EmptyString, Some r)
      else let (a, b) := split1 r in (String c a, b)
  end.

(** [a, b = s.split(' ', 1)]: unpacking fails with [ValueError] when
    there is no space. *)
Definition split1_unpack (s : string) : result (string * string) :=
  match split1 s with
  | (a, Some b) => Ok (a, b)
  | (_, None) => Raise ValueError
  end.

(** [a in b] for two strings: substring test. *)
Fixpoint str_in (a b : string) : bool :=
  String.prefix a b
  || match b with
     | EmptyString => false
     | String _ b' => str_in a b'
     end.

(** [s.replace(c, ' c ')] for a one-character [c]. *)
Fixpoint isolate (c : ascii) (s : string) : string :=
  match s with
  | EmptyString => EmptyString
  | String d r =>
      if Ascii.eqb d c
      then String " " (String c (String " " (isolate c r)))
      else String d (isolate c r)
  end.

(** [int(c)] for a one-character string. *)
Definition int_of_char (c : ascii) : result Z :=
  let n := nat_of_ascii c in
  if ((48 <=? n) && (n <=? 57))%nat then Ok (Z.of_nat (n - 48)) else Raise ValueError.

Definition chr (c : ascii) : string := String c EmptyString.

(** The value a loop variable keeps after [for c in s: ...]: the last
    character of [s]; the variable stays unbound when [s] is empty. *)
Fixpoint last_char (s : string) : option string :=
  match s with
  | EmptyString => None
  | String c EmptyString => Some (chr c)
  | String _ r => last_char r
  end.

End PyStr.
Import PyStr.

(** [x in (a, b, ...)] on values that may be [None]. *)
Definition opt_string_eqb (a b : option string) : bool :=
  match a, b with
  | None, None => true
  | Some x, Some y => String.eqb x y
  | _, _ => false
  end.

Definition in_tuple (x : option string) (t : list (option string)) : bool :=
  existsb (opt_string_eqb x) t.

(** ** Numbers *)

Definition Reqb (a b : R) : bool := if Req_dec_T a b then true else false.
Definition Rgtb (a b : R) : bool := if Rgt_dec a b then true else false.

(** [math.radians], [math.hypot], [math.copysign] *)
Definition radians (d : R) : R := d * PI / 180.
Definition hypot (x y : R) : R := sqrt (x * x + y * y).
Definition copysign (x y : R) : R := if Rlt_dec y 0 then - Rabs x else Rabs x.

Definition pt : Type := (R * R)%type.

(** An entry of [node.vertices]: a 2-tuple or [None]. *)
Definition vertex : Type := option (R * R).

(** ** The drawing surface: a trace of the calls it receives *)

Inductive call : Type :=
| set_tolerance (t : R)
| move_to (x y : R)
| rel_move_to (x y : R)
| line_to (x y : R)
| rel_line_to (x y : R)
| curve_to (x1 y1 x2 y2 x3 y3 : R)
| rel_curve_to (x1 y1 x2 y2 x3 y3 : R)
| arc (xc yc r a1 a2 : R)
| arc_negative (xc yc r a1 a2 : R)
| close_path
| save
| restore
| translate (x y : R)
| rotate_ (a : R)
| scale (sx sy : R)
| rectangle (x y w h : R)
| clip
| copy_path
| new_path
| append_path
| draw (child : nat).

(** The calls that add a segment to (or close) the current path. *)
Definition is_draw_call (c : call) : bool :=
  match c with
  | line_to _ _ | rel_line_to _ _
  | curve_to _ _ _ _ _ _ | rel_curve_to _ _ _ _ _ _
  | arc _ _ _ _ _ | arc_negative _ _ _ _ _
  | close_path | move_to _ _ | rel_move_to _ _ => true
  | _ => false
  end.

Definition draw_calls (t : list call) : list call := filter is_draw_call t.

(** ** The path interpreter: [path(surface, node)] *)

Module Path.

(** Modelled from the spec: [PATH_LETTERS] of [helpers.py] (absent from the
    sources at hand), the twenty command letters the interpreter
    dispatches on: [a c h l m q s t v z] and their upper-case forms. *)
Definition PATH_LETTERS : string := "achlmqstvzACHLMQSTVZ".

(** The local variables of [path] that live across iterations of its
    [while] loop, together with [node.vertices] and the surface trace.
    [letter] is [None] when the Python variable is unbound (which
    happens only if [PATH_LETTERS] is empty);
    [last_letter] and [first_path_point] are [None] when they hold
    Python's [None].  The coordinates [x1 .. y3] are only ever read after
    an earlier iteration has assigned them (the reads are guarded by
    [last_letter]), so the unbound state is not represented. *)
Record state : Type := mkState {
  string_ : string;
  letter : option string;
  last_letter : option string;
  current_point : pt;
  first_path_point : option pt;
  x1 : R; y1 : R;
  x2 : R; y2 : R;
  x3 : R; y3 : R;
  vertices : list vertex;
  calls : list call
}.

Definition with_string (v : string) (s : state) : state :=
  mkState v (letter s) (last_letter s) (current_point s) (first_path_point s)
          (x1 s) (y1 s) (x2 s) (y2 s) (x3 s) (y3 s) (vertices s) (calls s).
Definition with_letter (v : option string) (s : state) : state :=
  mkState (string_ s) v (last_letter s) (current_point s) (first_path_point s)
          (x1 s) (y1 s) (x2 s) (y2 s) (x3 s) (y3 s) (vertices s) (calls s).
Definition with_last_letter (v : option string) (s : state) : state :=
  mkState (string_ s) (letter s) v (current_point s) (first_path_point s)
          (x1 s) (y1 s) (x2 s) (y2 s) (x3 s) (y3 s) (vertices s) (calls s).
Definition with_current_point (v : pt) (s : state) : state :=
  mkState (string_ s) (letter s) (last_letter s) v (first_path_point s)
          (x1 s) (y1 s) (x2 s) (y2 s) (x3 s) (y3 s) (vertices s) (calls s).
Definition with_first_path_point (v : option pt) (s : state) : state :=
  mkState (string_ s) (letter s) (last_letter s) (current_point s) v
          (x1 s) (y1 s) (x2 s) (y2 s) (x3 s) (y3 s) (vertices s) (calls s).
Definition with_p1 (v : pt) (s : state) : state :=
  mkState (string_ s) (letter s) (last_letter s) (current_point s) (first_path_point s)
          (fst v) (snd v) (x2 s) (y2 s) (x3 s) (y3 s) (vertices s) (calls s).
Definition with_p2 (v : pt) (s : state) : state :=
  mkState (string_ s) (letter s) (last_letter s) (current_point s) (first_path_point s)
          (x1 s) (y1 s) (fst v) (snd v) (x3 s) (y3 s) (vertices s) (calls s).
Definition with_p3 (v : pt) (s : state) : state :=
  mkState (string_ s) (letter s) (last_letter s) (current_point s) (first_path_point s)
          (x1 s) (y1 s) (x2 s) (y2 s) (fst v) (snd v) (vertices s) (calls s).

(** [node.vertices.append(v)] *)
Definition append (v : vertex) (s : state) : state :=
  mkState (string_ s) (letter s) (last_letter s) (current_point s) (first_path_point s)
          (x1 s) (y1 s) (x2 s) (y2 s) (x3 s) (y3 s) (vertices s ++ [v]) (calls s).

(** A call [surface.context.c(...)] *)
Definition emit (c : call) (s : state) : state :=
  mkState (string_ s) (letter s) (last_letter s) (current_point s) (first_path_point s)
          (x1 s) (y1 s) (x2 s) (y2 s) (x3 s) (y3 s) (vertices s) (calls s ++ [c]).

(** How the body of the loop ends: by reaching its last line, or by
    [continue]. *)
Inductive flow : Type :=
| Fallthrough (s : state)
| Continue (s : state).

(** [a, string = (string + ' ').split(' ', 1)] *)
Definition split_sp (s : string) : string * string :=
  match split1 (s ++ " ") with
  | (a, Some b) => (a, b)
  | (a, None) => (a, EmptyString)
  end.

(** [c, string = string[0], string[1:].strip()] *)
Definition pop_char (s : string) : result (ascii * string) :=
  match s with
  | EmptyString => Raise IndexError
  | String c r => Ok (c, strip r)
  end.

(** [last_letter in 'xyz']: a [TypeError] when [last_letter] is [None]. *)
Definition py_in (l : option string) (b : string) : result bool :=
  match l with
  | None => Raise TypeError
  | Some a => Ok (str_in a b)
  end.

(** Truth value of a string-or-[None]. *)
Definition truthy (l : option string) : bool :=
  match l with
  | None | Some EmptyString => false
  | Some _ => true
  end.

Definition padd (p q : pt) : pt := (fst p + fst q, snd p + snd q).

(** The values computed by the arc branch once the flags are checked and
    both radii are non-zero (lines 202-236 of [path.py]); [x3], [y3] are
    relative to the start point. *)
Record arc_geometry : Type := mkArc {
  radii_ratio : R;
  angle : R;
  dist : R;      (* [xe] after the end point is put onto the x axis *)
  rx_upd : R;    (* [rx] after [rx = max(rx, xe / 2)] *)
  xc0 : R;       (* [xc = xe / 2] *)
  yc0 : R;       (* [yc = (rx ** 2 - xc ** 2) ** .5] *)
  yc_signed : R; (* [yc] after the flags are taken into account *)
  end_back : pt; (* [xe, ye] rotated back *)
  centre : pt;   (* [xc, yc] rotated back *)
  angle1 : R;
  angle2 : R
}.

Section Interpreter.

(** Helpers of [helpers.py] and conversions of the Python runtime. *)
Variable normalize : string -> string.
Variable size : string -> string -> result R.
Variable point : string -> result (R * R * string).
Variable point_angle : R -> R -> R -> R -> R.
Variable rotate : R -> R -> R -> R * R.
Variable quadratic_points : R -> R -> R -> R -> R -> R -> (R * R * R * R * R * R).
Variable float_of_string : string -> result R.
Variable str_of_float : R -> string.

Definition arc_convert (rx ry rotation : R) (large sweep : bool) (x3 y3 : R)
  : arc_geometry :=
  let radii_ratio := ry / rx in
  let '(xe, ye) := rotate x3 y3 (- rotation) in
  let ye := ye / radii_ratio in
  let angle := point_angle 0 0 xe ye in
  let xe := hypot xe ye in
  let rx := Rmax rx (xe / 2) in
  let xc := xe / 2 in
  let yc := sqrt (rx ^ 2 - xc ^ 2) in
  let yc' := if negb (xorb large sweep) then - yc else yc in
  let '(xe', ye') := rotate xe 0 angle in
  let '(xc', yc'') := rotate xc yc' angle in
  let angle1 := point_angle xc' yc'' 0 0 in
  let angle2 := point_angle xc' yc'' xe' ye' in
  mkArc radii_ratio angle xe rx xc yc yc' (xe', ye') (xc', yc'') angle1 angle2.

(** Lines 166-177: the arguments of an arc command, read off the data:
    the radii, the rotation (in radians), the two flag characters, the
    end point, and the data that follows. *)
Definition arc_arguments (string : string)
  : result (R * R * R * ascii * ascii * R * R * String.string) :=
  '(rx, ry, string) <- point string ;;
  '(rotation, string) <- split1_unpack string ;;
  rotation <- float_of_string rotation ;;
  let rotation := radians rotation in
  '(large, string) <- pop_char string ;;
  '(sweep, string) <- pop_char string ;;
  '(x3, y3, string) <- point string ;;
  Ok (rx, ry, rotation, large, sweep, x3, y3, string).

(** Lines 162-248: [if letter in 'aA':] *)
Definition arc_branch (letter : string) (string : string) (s : state) : result flow :=
  let s := emit (set_tolerance (1 / 100000)) s in
  let '(x1, y1) := current_point s in
  let s := with_p1 (x1, y1) s in
  '(rx, ry, rotation, large, sweep, x3, y3, string) <- arc_arguments string ;;
  let s := with_string string (with_p3 (x3, y3) s) in
  large <- int_of_char large ;;
  sweep <- int_of_char sweep ;;
  if negb ((large =? 0) || (large =? 1))%Z || negb ((sweep =? 0) || (sweep =? 1))%Z
  then Ok (Continue s)
  else
    let large := negb (large =? 0)%Z in
    let sweep := negb (sweep =? 0)%Z in
    let '(x3, y3) :=
      if String.eqb letter "A" then (x3 - x1, y3 - y1) else (x3, y3) in
    let s := with_p3 (x3, y3) s in
    if Reqb rx 0 || Reqb ry 0 then
      let next_letter :=
        match string with
        | String c _ =>
            if negb (str_in (chr c) PATH_LETTERS) then letter ++ " " else ""
        | EmptyString => ""
        end in
      Ok (Continue (with_string
            ("l " ++ str_of_float x3 ++ " " ++ str_of_float y3 ++ " "
                  ++ next_letter ++ string) s))
    else
      let g := arc_convert rx ry rotation large sweep x3 y3 in
      let s := append (Some (- angle1 g, - angle2 g)) s in
      let s := emit save s in
      let s := emit (translate x1 y1) s in
      let s := emit (rotate_ rotation) s in
      let s := emit (scale 1 (radii_ratio g)) s in
      let s := emit ((if sweep then arc else arc_negative)
                       (fst (centre g)) (snd (centre g)) (rx_upd g)
                       (angle1 g) (angle2 g)) s in
      let s := emit restore s in
      Ok (Fallthrough
            (with_current_point (padd (current_point s) (x3, y3)) s)).

(** Lines 250-267: [elif letter == 'c':] *)
Definition c_branch (string : string) (s : state) : result flow :=
  let '(x, y) := current_point s in
  '(x1, y1, string) <- point string ;;
  '(x2, y2, string) <- point string ;;
  '(x3, y3, string) <- point string ;;
  let s := with_string string s in
  let s := append (Some (point_angle x2 y2 x1 y1, point_angle x2 y2 x3 y3)) s in
  let s := emit (rel_curve_to x1 y1 x2 y2 x3 y3) s in
  let s := with_current_point (padd (current_point s) (x3, y3)) s in
  Ok (Fallthrough
        (with_p1 (x1 + x, y1 + y)
           (with_p2 (x2 + x, y2 + y) (with_p3 (x3 + x, y3 + y) s)))).

(** Lines 269-277: [elif letter == 'C':] *)
Definition C_branch (string : string) (s : state) : result flow :=
  '(x1, y1, string) <- point string ;;
  '(x2, y2, string) <- point string ;;
  '(x3, y3, string) <- point string ;;
  let s := with_string string s in
  let s := with_p1 (x1, y1) (with_p2 (x2, y2) (with_p3 (x3, y3) s)) in
  let s := append (Some (point_angle x2 y2 x1 y1, point_angle x2 y2 x3 y3)) s in
  let s := emit (curve_to x1 y1 x2 y2 x3 y3) s in
  Ok (Fallthrough (with_current_point (x3, y3) s)).

(** Lines 279-287: [elif letter == 'h':] *)
Definition h_branch (string : string) (s : state) : result flow :=
  let '(x, string) := split_sp string in
  let s := with_string string s in
  v <- size x "x" ;;
  let angle := if Rgtb v 0 then 0 else PI in
  let s := append (Some (PI - angle, angle)) s in
  x <- size x "x" ;;
  let s := emit (rel_line_to x 0) s in
  Ok (Fallthrough
        (with_current_point (fst (current_point s) + x, snd (current_point s)) s)).

(** Lines 289-297: [elif letter == 'H':] *)
Definition H_branch (string : string) (s : state) : result flow :=
  let '(x, string) := split_sp string in
  let s := with_string string s in
  let '(old_x, old_y) := current_point s in
  v <- size x "x" ;;
  let angle := if Rgtb v old_x then 0 else PI in
  let s := append (Some (PI - angle, angle)) s in
  x <- size x "x" ;;
  let s := emit (line_to x old_y) s in
  Ok (Fallthrough (with_current_point (x, snd (current_point s)) s)).

(** Lines 299-305: [elif letter == 'l':] *)
Definition l_branch (string : string) (s : state) : result flow :=
  '(x, y, string) <- point string ;;
  let s := with_string string s in
  let angle := point_angle 0 0 x y in
  let s := append (Some (PI - angle, angle)) s in
  let s := emit (rel_line_to x y) s in
  Ok (Fallthrough (with_current_point (padd (current_point s) (x, y)) s)).

(** Lines 307-314: [elif letter == 'L':] *)
Definition L_branch (string : string) (s : state) : result flow :=
  '(x, y, string) <- point string ;;
  let s := with_string string s in
  let '(old_x, old_y) := current_point s in
  let angle := point_angle old_x old_y x y in
  let s := append (Some (PI - angle, angle)) s in
  let s := emit (line_to x y) s in
  Ok (Fallthrough (with_current_point (x, y) s)).

(** [last_letter and last_letter not in 'zZ'] *)
Definition needs_break (last_letter : option string) : bool :=
  truthy last_letter
  && negb (match last_letter with Some l => str_in l "zZ" | None => false end).

(** [if last_letter and last_letter not in 'zZ': node.vertices.append(None)] *)
Definition subpath_break (s : state) : state :=
  if needs_break (last_letter s) then append None s else s.

(** Lines 316-322: [elif letter == 'm':] *)
Definition m_branch (string : string) (s : state) : result flow :=
  '(x, y, string) <- point string ;;
  let s := with_string string s in
  let s := subpath_break s in
  let s := emit (rel_move_to x y) s in
  Ok (Fallthrough (with_current_point (padd (current_point s) (x, y)) s)).

(** Lines 324-330: [elif letter == 'M':] *)
Definition M_branch (string : string) (s : state) : result flow :=
  '(x, y, string) <- point string ;;
  let s := with_string string s in
  let s := subpath_break s in
  let s := emit (move_to x y) s in
  Ok (Fallthrough (with_current_point (x, y) s)).

Definition emit_curve (rel : bool) (q : R * R * R * R * R * R) (s : state) : state :=
  let '(xq1, yq1, xq2, yq2, xq3, yq3) := q in
  emit ((if rel then rel_curve_to else curve_to) xq1 yq1 xq2 yq2 xq3 yq3) s.

(** Lines 332-341: [elif letter == 'q':] *)
Definition q_branch (string : string) (s : state) : result flow :=
  let '(x1, y1) := (0, 0) in
  '(x2, y2, string) <- point string ;;
  '(x3, y3, string) <- point string ;;
  let s := with_string string s in
  let s := with_p1 (x1, y1) (with_p2 (x2, y2) (with_p3 (x3, y3) s)) in
  let s := emit_curve true (quadratic_points x1 y1 x2 y2 x3 y3) s in
  let s := append (Some (0, 0)) s in
  Ok (Fallthrough (with_current_point (padd (current_point s) (x3, y3)) s)).

(** Lines 343-352: [elif letter == 'Q':] *)
Definition Q_branch (string : string) (s : state) : result flow :=
  let '(x1, y1) := current_point s in
  '(x2, y2, string) <- point string ;;
  '(x3, y3, string) <- point string ;;
  let s := with_string string s in
  let s := with_p1 (x1, y1) (with_p2 (x2, y2) (with_p3 (x3, y3) s)) in
  let s := emit_curve false (quadratic_points x1 y1 x2 y2 x3 y3) s in
  let s := append (Some (0, 0)) s in
  Ok (Fallthrough (with_current_point (x3, y3) s)).

(** Lines 354-372: [elif letter == 's':] *)
Definition s_branch (string : string) (s : state) : result flow :=
  let '(x, y) := current_point s in
  b <- py_in (last_letter s) "csCS" ;;
  let x1 := if b then x3 s - x2 s else 0 in
  b <- py_in (last_letter s) "csCS" ;;
  let y1 := if b then y3 s - y2 s else 0 in
  '(x2, y2, string) <- point string ;;
  '(x3, y3, string) <- point string ;;
  let s := with_string string s in
  let s := append (Some (point_angle x2 y2 x1 y1, point_angle x2 y2 x3 y3)) s in
  let s := emit (rel_curve_to x1 y1 x2 y2 x3 y3) s in
  let s := with_current_point (padd (current_point s) (x3, y3)) s in
  Ok (Fallthrough
        (with_p1 (x1 + x, y1 + y)
           (with_p2 (x2 + x, y2 + y) (with_p3 (x3 + x, y3 + y) s)))).

(** Lines 374-384: [elif letter == 'S':] *)
Definition S_branch (string : string) (s : state) : result flow :=
  let '(x, y) := current_point s in
  b <- py_in (last_letter s) "csCS" ;;
  let x1 := if b then x3 s + (x3 s - x2 s) else x in
  b <- py_in (last_letter s) "csCS" ;;
  let y1 := if b then y3 s + (y3 s - y2 s) else y in
  '(x2, y2, string) <- point string ;;
  '(x3, y3, string) <- point string ;;
  let s := with_string string s in
  let s := with_p1 (x1, y1) (with_p2 (x2, y2) (with_p3 (x3, y3) s)) in
  let s := append (Some (point_angle x2 y2 x1 y1, point_angle x2 y2 x3 y3)) s in
  let s := emit (curve_to x1 y1 x2 y2 x3 y3) s in
  Ok (Fallthrough (with_current_point (x3, y3) s)).

(** Lines 386-403: [elif letter == 't':] *)
Definition t_branch (string : string) (s : state) : result flow :=
  b <- py_in (last_letter s) "QqTt" ;;
  r <- (if negb b then Ok (0, 0, 0, 0)
        else
          b' <- py_in (last_letter s) "QT" ;;
          if b' then Ok (x2 s - x1 s, y2 s - y1 s, x3 s - x1 s, y3 s - y1 s)
          else Ok (x2 s, y2 s, x3 s, y3 s)) ;;
  let '(x2, y2, x3, y3) := r in
  let x2 := x3 - x2 in
  let y2 := y3 - y2 in
  let '(x1, y1) := (0, 0) in
  '(x3, y3, string) <- point string ;;
  let s := with_string string s in
  let s := with_p1 (x1, y1) (with_p2 (x2, y2) (with_p3 (x3, y3) s)) in
  let s := append (Some (0, 0)) s in
  let s := emit_curve true (quadratic_points x1 y1 x2 y2 x3 y3) s in
  Ok (Fallthrough (with_current_point (padd (current_point s) (x3, y3)) s)).

(** Lines 405-423: [elif letter == 'T':] *)
Definition T_branch (string : string) (s : state) : result flow :=
  let '(abs_x, abs_y) := current_point s in
  b <- py_in (last_letter s) "QqTt" ;;
  r <- (if negb b then Ok (abs_x, abs_y, abs_x, abs_y)
        else
          b' <- py_in (last_letter s) "qt" ;;
          if b' then Ok (x2 s + abs_x, y2 s + abs_y, x3 s + abs_x, y3 s + abs_y)
          else Ok (x2 s, y2 s, x3 s, y3 s)) ;;
  let '(x2, y2, x3, y3) := r in
  let x2 := abs_x + (x3 - x2) in
  let y2 := abs_y + (y3 - y2) in
  let '(x1, y1) := (abs_x, abs_y) in
  '(x3, y3, string) <- point string ;;
  let s := with_string string s in
  let s := with_p1 (x1, y1) (with_p2 (x2, y2) (with_p3 (x3, y3) s)) in
  let s := append (Some (0, 0)) s in
  let s := emit_curve false (quadratic_points x1 y1 x2 y2 x3 y3) s in
  Ok (Fallthrough (with_current_point (x3, y3) s)).

(** Lines 425-433: [elif letter == 'v':] *)
Definition v_branch (string : string) (s : state) : result flow :=
  let '(y, string) := split_sp string in
  let s := with_string string s in
  v <- size y "y" ;;
  let angle := copysign (PI / 2) v in
  let s := append (Some (- angle, angle)) s in
  y <- size y "y" ;;
  let s := emit (rel_line_to 0 y) s in
  Ok (Fallthrough
        (with_current_point (fst (current_point s), snd (current_point s) + y) s)).

(** Lines 435-443: [elif letter == 'V':] *)
Definition V_branch (string : string) (s : state) : result flow :=
  let '(y, string) := split_sp string in
  let s := with_string string s in
  let '(old_x, old_y) := current_point s in
  v <- size y "y" ;;
  let angle := copysign (PI / 2) (v - old_y) in
  let s := append (Some (- angle, angle)) s in
  y <- size y "y" ;;
  let s := emit (line_to old_x y) s in
  Ok (Fallthrough (with_current_point (fst (current_point s), y) s)).

(** Lines 445-449: [elif letter in 'zZ' and first_path_point:] *)
Definition z_branch (first : pt) (s : state) : result flow :=
  let s := append None s in
  let s := emit close_path s in
  Ok (Fallthrough (with_current_point first s)).


Definition NONE_Z : list (option string) := [None; Some "z"; Some "Z"].
Definition NONE_MZ : list (option string) :=
  [None; Some "m"; Some "M"; Some "z"; Some "Z"].

(** Lines 145-154: strip the data, then either read an explicit command
    letter or reuse the previous one (a repeated moveto becomes a
    lineto).  An explicit letter other than a moveto that opens the data
    or follows a closepath seeds the vertex stream with the current
    point. *)
Definition read_letter (s : state) : result (string * state) :=
  let string := strip (string_ s) in
  let s := with_string string s in
  if str_in (fst (split1 string)) PATH_LETTERS then
    let '(letter, string) := split_sp string in
    let s := with_letter (Some letter) (with_string string s) in
    if in_tuple (last_letter s) NONE_Z && negb (str_in letter "mM")
    then
      let s := append (Some (current_point s)) s in
      Ok (letter, with_first_path_point (Some (current_point s)) s)
    else Ok (letter, s)
  else
    match letter s with
    | None => Raise UnboundLocalError
    | Some l =>
        let l' := if String.eqb l "M" then "L"
                  else if String.eqb l "m" then "l" else l in
        Ok (l', with_letter (Some l') s)
    end.

(** Lines 156-160 *)
Definition update_first_path_point (letter : string) (s : state) : state :=
  let s := if in_tuple (last_letter s) NONE_MZ
           then with_first_path_point None s else s in
  if negb (in_tuple (Some letter) NONE_MZ)
     && match first_path_point s with None => true | Some _ => false end
  then with_first_path_point (Some (current_point s)) s
  else s.

(** Lines 162-449: the [if]/[elif] chain on [letter]. *)
Definition dispatch (letter : string) (s : state) : result flow :=
  let string := string_ s in
  if str_in letter "aA" then arc_branch letter string s
  else if String.eqb letter "c" then c_branch string s
  else if String.eqb letter "C" then C_branch string s
  else if String.eqb letter "h" then h_branch string s
  else if String.eqb letter "H" then H_branch string s
  else if String.eqb letter "l" then l_branch string s
  else if String.eqb letter "L" then L_branch string s
  else if String.eqb letter "m" then m_branch string s
  else if String.eqb letter "M" then M_branch string s
  else if String.eqb letter "q" then q_branch string s
  else if String.eqb letter "Q" then Q_branch string s
  else if String.eqb letter "s" then s_branch string s
  else if String.eqb letter "S" then S_branch string s
  else if String.eqb letter "t" then t_branch string s
  else if String.eqb letter "T" then T_branch string s
  else if String.eqb letter "v" then v_branch string s
  else if String.eqb letter "V" then V_branch string s
  else if str_in letter "zZ" then
    match first_path_point s with
    | Some first => z_branch first s
    | None => Ok (Fallthrough s)
    end
  else Ok (Fallthrough s).

(** Lines 451-455 *)
Definition finish (letter : string) (s : state) : state :=
  let s := if negb (str_in letter "zZ")
           then append (Some (current_point s)) s else s in
  with_last_letter (Some letter) (with_string (strip (string_ s)) s).

(** One iteration of [while string:]. *)
Definition step (s : state) : result state :=
  '(letter, s) <- read_letter s ;;
  let s := update_first_path_point letter s in
  f <- dispatch letter s ;;
  match f with
  | Continue s => Ok s
  | Fallthrough s => Ok (finish letter s)
  end.

(** [while string: ...]; [None] when [fuel] iterations do not exhaust
    the data. *)
Fixpoint while_string (fuel : nat) (s : state) : option (result state) :=
  match string_ s with
  | EmptyString => Some (Ok s)
  | String _ _ =>
      match fuel with
      | O => None
      | S fuel' =>
          match step s with
          | Ok s' => while_string fuel' s'
          | Raise e => Some (Raise e)
          end
      end
  end.

(** Lines 126-142: the state on entry of the loop.  [d] is
    [node.get('d', '')]; [cp] is the current point of the surface, if it
    has one.  [letter] is the loop variable of
    [for letter in PATH_LETTERS], which is still bound, to the last of
    the letters, when the [while] loop starts. *)
Definition init (cp : option pt) (d : string) : state :=
  let string :=
    fold_left (fun s c => isolate c s) (list_ascii_of_string PATH_LETTERS) d in
  let string := normalize string in
  let letter := last_char PATH_LETTERS in
  match cp with
  | Some p => mkState string letter None p None 0 0 0 0 0 0 [] []
  | None => mkState string letter None (0, 0) None 0 0 0 0 0 0 [] [move_to 0 0]
  end.

Definition path (fuel : nat) (cp : option pt) (d : string) : option (result state) :=
  while_string fuel (init cp d).

End Interpreter.
End Path.

(** ** Instances of the helpers

    Used to run the interpreter on concrete path data.  None of the general
    theorems depends on them. *)

Module Helpers.

Definition is_digit (c : ascii) : bool :=
  let n := nat_of_ascii c in ((48 <=? n) && (n <=? 57))%nat.

Definition digit_val (c : ascii) : Z := Z.of_nat (nat_of_ascii c - 48).

(** [digits acc s]: the value of a non-empty all-digit string. *)
Fixpoint digits (acc : Z) (s : string) : option Z :=
  match s with
  | EmptyString => Some acc
  | String c r => if is_digit c then digits (10 * acc + digit_val c)%Z r else None
  end.

Definition unsigned_int (s : string) : option Z :=
  match s with
  | EmptyString => None
  | _ => digits 0 s
  end.

(** Splits a string at its first full stop. *)
Fixpoint split_dot (s : string) : string * option string :=
  match s with
  | EmptyString => (EmptyString, None)
  | String c r =>
      if Ascii.eqb c "."%char then (EmptyString, Some r)
      else let (a, b) := split_dot r in (String c a, b)
  end.

(** An unsigned decimal numeral [ddd] or [ddd.ddd]. *)
Definition unsigned_decimal (s : string) : option R :=
  match split_dot s with
  | (i, None) => option_map IZR (unsigned_int i)
  | (i, Some f) =>
      match unsigned_int i, unsigned_int f with
      | Some a, Some b =>
          let k := Z.of_nat (String.length f) in
          Some (IZR (a * 10 ^ k + b) / IZR (10 ^ k))
      | _, _ => None
      end
  end.

(** A decimal numeral with an optional sign. *)
Definition decimal (s : string) : option R :=
  match s with
  | String "-" r => option_map Ropp (unsigned_decimal r)
  | String "+" r => unsigned_decimal r
  | _ => unsigned_decimal s
  end.

(** Modelled from the spec: [float] of the Python runtime, restricted to
    plain decimal numerals; anything else is a [ValueError]. *)
Definition float_of_string (s : string) : result R :=
  match decimal s with
  | Some x => Ok x
  | None => Raise ValueError
  end.

(** Modelled from the spec: [size] of [helpers.py] (absent from the sources
    at hand), the length parser, restricted to unit-less numbers, which is
    what path data holds; the empty string and anything that is not a
    number give [0]. *)
Definition size (s : string) (reference : string) : result R :=
  match decimal s with
  | Some x => Ok x
  | None => Ok 0
  end.

(** Modelled from the spec: [point] of [helpers.py] (absent from the sources
    at hand): the first two space-separated tokens of the data, as
    lengths, and the text after them; an error when the data does not
    hold two tokens. *)
Definition point (s : string) : result (R * R * string) :=
  match split1 s with
  | (x, Some r) =>
      let '(y, r') := split1 r in
      x <- size x "x" ;;
      y <- size y "y" ;;
      Ok (x, y, match r' with Some t => t | None => EmptyString end)
  | (_, None) => Raise HelperError
  end.

(** [math.atan2] *)
Definition atan2 (y x : R) : R :=
  if Rlt_dec 0 x then atan (y / x)
  else if Rlt_dec x 0 then
    (if Rlt_dec y 0 then atan (y / x) - PI else atan (y / x) + PI)
  else if Rlt_dec 0 y then PI / 2
  else if Rlt_dec y 0 then - (PI / 2)
  else 0.

(** Modelled from the spec: [point_angle] of [helpers.py] (absent from the
    sources at hand): the angle of the vector from the centre [(cx, cy)]
    to the point [(px, py)]. *)
Definition point_angle (cx cy px py : R) : R := atan2 (py - cy) (px - cx).

(** Modelled from the spec: [rotate] of [helpers.py] (absent from the sources
    at hand): rotate a point by an angle around the origin. *)
Definition rotate (x y a : R) : R * R :=
  (x * cos a - y * sin a, y * cos a + x * sin a).

(** Modelled from the spec: [quadratic_points] of [helpers.py] (absent from
    the sources at hand): the cubic control points of a quadratic curve
    by the 2/3 rule. *)
Definition quadratic_points (x1 y1 x2 y2 x3 y3 : R) : R * R * R * R * R * R :=
  (x2 * 2 / 3 + x1 / 3, y2 * 2 / 3 + y1 / 3,
   x2 * 2 / 3 + x3 / 3, y2 * 2 / 3 + y3 / 3, x3, y3).

Definition is_sep (c : ascii) : bool :=
  is_space c || Ascii.eqb c ","%char.

(** Puts a space before every minus sign that does not follow an [e]. *)
Fixpoint sign_spaces (prev_e : bool) (s : string) : string :=
  match s with
  | EmptyString => EmptyString
  | String c r =>
      let rest := sign_spaces (Ascii.eqb c "e"%char) r in
      if Ascii.eqb c "-"%char && negb prev_e
      then String " " (String c rest) else String c rest
  end.

(** Turns every run of white space and commas into one space. *)
Fixpoint squeeze (in_run : bool) (s : string) : string :=
  match s with
  | EmptyString => EmptyString
  | String c r =>
      if is_sep c
      then (if in_run then squeeze true r else String " " (squeeze true r))
      else String c (squeeze false r)
  end.

(** Modelled from the spec: [normalize] of [helpers.py] (absent from the
    sources at hand): the tokens of the data separated by single spaces,
    a minus sign starting a new number. *)
Definition normalize (s : string) : string :=
  strip (squeeze false (sign_spaces false s)).

End Helpers.

(** ** Marker placement: [draw_markers(surface, node)] *)

Module Markers.

Inductive position : Type := start | mid | end_.

Definition position_eqb (p q : position) : bool :=
  match p, q with
  | start, start | mid, mid | end_, end_ => true
  | _, _ => false
  end.

(** A marker definition: its attributes and its children (named by
    number; drawing one is delegated to [surface.draw]). *)
Record marker_node : Type := mkMarker {
  attrs : string -> option string;
  children : list nat
}.

(** [marker_node.get(name, default)] *)
Definition get (m : marker_node) (name default : string) : string :=
  match attrs m name with
  | Some v => v
  | None => default
  end.

Definition box : Type := (R * R * R * R)%type.

(** The local variables of [draw_markers] that live across iterations of
    its [while] loop, [node.vertices] and the surface trace.  [angle],
    [angle1], [angle2] and [point] are [None] when they hold Python's
    [None] (or, for [angle] and [point], are still unbound). *)
Record state : Type := mkState {
  vertices : list vertex;
  pos : position;
  angle1 : option R;
  angle2 : option R;
  angle : option R;
  point : vertex;
  calls : list call
}.

Definition emit (c : call) (t : list call) : list call := t ++ [c].

(** [a + b] where [a] may be [None] *)
Definition add_opt (a : option R) (b : R) : result R :=
  match a with
  | Some x => Ok (x + b)
  | None => Raise TypeError
  end.

(** Lines 37-45: the orientation at the vertex just read and the
    updated [position], [angle1] and [angle2]. *)
Definition orientation (p : position) (a1 a2 : option R) (angles : vertex)
  : result (option R * position * option R * option R) :=
  match angles with
  | Some (g0, g1) =>
      angle <- (if position_eqb p start then Ok (PI - g0)
                else
                  t <- add_opt a2 PI ;;
                  Ok ((t - g0) / 2)) ;;
      Ok (Some angle, p, Some g0, Some g1)
  | None => Ok (a1, end_, a1, a2)
  end.

Section Engine.

(** Collaborators: the URL parser, the length parser, the marker
    geometry helpers, and the surface's table of marker definitions.
    [stroke_width] is [surface.parent_node.get('stroke-width', '1')]. *)
Variable fragment : string -> string.
Variable size : string -> string -> result R.
Variable viewbox : marker_node -> result (option box).
Variable preserve_ratio : marker_node -> result (R * R * R * R).
Variable clip_marker_box : marker_node -> R -> R -> result (option box).
Variable calculate_bounding_box : marker_node -> result box.
Variable float_of_string : string -> result R.
Variable surface_markers : string -> option marker_node.
Variable stroke_width : string.

(** The attributes of the path node: [name in node] and [node[name]]. *)
Variable node : string -> option string.

(** Lines 20-27: the [markers] dictionary. *)
Definition markers (p : position) : string :=
  let common_marker :=
    fragment (match node "marker" with Some v => v | None => "" end) in
  let attribute :=
    match p with
    | start => "marker-start"
    | mid => "marker-mid"
    | end_ => "marker-end"
    end in
  match node attribute with
  | Some v => fragment v
  | None => common_marker
  end.

(** [a / b]: a [ZeroDivisionError] when [b] is zero. *)
Definition div (a b : R) : result R :=
  if Reqb b 0 then Raise ZeroDivisionError else Ok (a / b).

(** Lines 61-83: scale, translation and clip box of the marker. *)
Definition fit (m : marker_node) : result (R * R * R * R * option box) :=
  vb <- viewbox m ;;
  match vb with
  | Some _ =>
      '(scale_x, scale_y, translate_x, translate_y) <- preserve_ratio m ;;
      clip_box <- clip_marker_box m scale_x scale_y ;;
      Ok (scale_x, scale_y, translate_x, translate_y, clip_box)
  | None =>
      marker_width <- size (get m "markerWidth" "3") "x" ;;
      marker_height <- size (get m "markerHeight" "3") "y" ;;
      '(_, _, bw, bh) <- calculate_bounding_box m ;;
      rx <- size (get m "refX" "0") "x" ;;
      ry <- size (get m "refY" "0") "y" ;;
      sw <- div marker_width bw ;;
      sh <- div marker_height bh ;;
      Ok (Rmin sw sh, Rmin sw sh, - rx, - ry, None)
  end.

(** Lines 100-117: the body of [for child in marker_node.children]. *)
Definition draw_child (m : marker_node) (point : vertex) (angle sc : R)
    (f : R * R * R * R * option box) (child : nat) (t : list call)
  : result (list call) :=
  let '(scale_x, scale_y, translate_x, translate_y, clip_box) := f in
  let t := emit save t in
  match point with
  | None => Raise TypeError
  | Some (px, py) =>
      let t := emit (translate px py) t in
      let t := emit (rotate_ angle) t in
      let t := emit (scale sc sc) t in
      let t := emit (scale scale_x scale_y) t in
      let t := emit (translate translate_x translate_y) t in
      let overflow := get m "overflow" "hidden" in
      let t :=
        match clip_box with
        | Some (bx, by_, bw, bh) =>
            if String.eqb overflow "hidden" || String.eqb overflow "scroll"
            then emit clip (emit restore (emit (rectangle bx by_ bw bh) (emit save t)))
            else t
        | None => t
        end in
      let t := emit (draw child) t in
      Ok (emit restore t)
  end.

Fixpoint draw_children (m : marker_node) (point : vertex) (angle sc : R)
    (f : R * R * R * R * option box) (cs : list nat) (t : list call)
  : result (list call) :=
  match cs with
  | [] => Ok t
  | child :: cs' =>
      t <- draw_child m point angle sc f child t ;;
      draw_children m point angle sc f cs' t
  end.

(** Lines 50-119: the body of [if marker:]; returns the updated
    [angle] and trace. *)
Definition draw_marker (marker : string) (p : position) (point : vertex)
    (angle : option R) (t : list call) : result (option R * list call) :=
  match surface_markers marker with
  | None => Raise AttributeError
  | Some m =>
      sc <- (match attrs m "markerUnits" with
             | Some "userSpaceOnUse" => Ok 1
             | _ => size stroke_width "xy"
             end) ;;
      f <- fit m ;;
      let t := emit new_path (emit copy_path t) in
      let node_angle := get m "orient" "0" in
      angle <-
        (if negb (String.eqb node_angle "auto"
                  || String.eqb node_angle "auto-start-reverse")
         then
           a <- float_of_string node_angle ;;
           Ok (radians a)
         else if String.eqb node_angle "auto-start-reverse" && position_eqb p start
         then add_opt angle (radians 180)
         else match angle with Some a => Ok a | None => Raise TypeError end) ;;
      let angle := angle + radians 180 in
      t <- draw_children m point angle sc f (children m) t ;;
      Ok (Some angle, emit append_path t)
  end.

(** Lines 33-121: one iteration of [while node.vertices:]. *)
Definition iteration (s : state) : result state :=
  match vertices s with
  | [] => Ok s
  | point :: vs =>
      let '(angles, vs) :=
        match vs with
        | [] => (None, [])
        | a :: vs' => (a, vs')
        end in
      '(angle, p, a1, a2) <- orientation (pos s) (angle1 s) (angle2 s) angles ;;
      let marker := markers p in
      '(angle, t) <-
        (match marker with
         | EmptyString => Ok (angle, calls s)
         | _ => draw_marker marker p point angle (calls s)
         end) ;;
      let p := match angles with Some _ => mid | None => start end in
      Ok (mkState vs p a1 a2 angle point t)
  end.

(** [while node.vertices: ...]; [None] when [fuel] iterations do not
    exhaust the stream. *)
Fixpoint while_vertices (fuel : nat) (s : state) : option (result state) :=
  match vertices s with
  | [] => Some (Ok s)
  | _ :: _ =>
      match fuel with
      | O => None
      | S fuel' =>
          match iteration s with
          | Ok s' => while_vertices fuel' s'
          | Raise e => Some (Raise e)
          end
      end
  end.

(** [draw_markers(surface, node)].  [vs] is [getattr(node, 'vertices',
    None)] and [t] the trace of the surface on entry; the result is
    [node.vertices] and the trace on return. *)
Definition draw_markers (fuel : nat) (vs : option (list vertex)) (t : list call)
  : option (result (option (list vertex) * list call)) :=
  match vs with
  | None | Some [] => Some (Ok (vs, t))
  | Some l =>
      match while_vertices fuel (mkState l start None None None None t) with
      | Some (Ok s) => Some (Ok (Some (vertices s), calls s))
      | Some (Raise e) => Some (Raise e)
      | None => None
      end
  end.

End Engine.
End Markers.

(** ** The interpreter on the helper instances *)

Module Run.

(** Modelled from the spec: [str] of a Python float, on integral values
    only (the integer part followed by [.0]).  On other values it is not
    Python's formatting ([2.5] is formatted [2.5] by Python, [2.0] here):
    the examples below format integral values only, and the general
    statements take the formatting function as a parameter. *)
Definition str_of_float (x : R) : string :=
  let z := Int_part x in
  ((if (z <? 0)%Z then "-" else "")
     ++ NilZero.string_of_uint (N.to_uint (Z.abs_N z)) ++ ".0")%string.

Definition step : Path.state -> result Path.state :=
  Path.step Helpers.size Helpers.point Helpers.point_angle Helpers.rotate
            Helpers.quadratic_points Helpers.float_of_string str_of_float.

Definition init : option pt -> string -> Path.state :=
  Path.init Helpers.normalize.

Definition path : nat -> option pt -> string -> option (result Path.state) :=
  Path.path Helpers.normalize Helpers.size Helpers.point Helpers.point_angle
            Helpers.rotate Helpers.quadratic_points Helpers.float_of_string
            str_of_float.

Definition arc_convert :=
  Path.arc_convert Helpers.point_angle Helpers.rotate.

End Run.

(** ** Concrete inputs used by the examples *)

Module Inputs.

(** The state of the interpreter after [M0 0], with an arc whose
    large-arc flag is [2] as the next command. *)
Definition after_moveto_bad_arc : Path.state :=
  Path.mkState "A 5 5 0 2 1 9 9 L 3 3" (Some "M") (Some "M") (0, 0) None
               0 0 0 0 0 0 [Some (0, 0)] [move_to 0 0; move_to 0 0].

(** The state after [M0 0 L10 0], with a moveto as the next command. *)
Definition after_lineto_moveto : Path.state :=
  Path.mkState "M 5 5" (Some "L") (Some "L") (10, 0) (Some (0, 0))
               0 0 0 0 0 0
               [Some (0, 0); Some (PI - 0, 0); Some (10, 0)]
               [move_to 0 0; move_to 0 0; line_to 10 0].

(** The state after [M0 0 C10 0 10 10 20 10], with a smooth curve as the
    next command. *)
Definition after_cubic : Path.state :=
  Path.mkState "S 30 20 40 10" (Some "C") (Some "C") (20, 10) (Some (0, 0))
               10 0 10 10 20 10
               [Some (0, 0);
                Some (Helpers.point_angle 10 10 10 0, Helpers.point_angle 10 10 20 10);
                Some (20, 10)]
               [move_to 0 0; move_to 0 0; curve_to 10 0 10 10 20 10].

(** The state after [M1 1 L5 1], with an arc whose x radius is zero as
    the next command. *)
Definition after_lineto_zero_arc : Path.state :=
  Path.mkState "a 0 5 0 0 1 3 4" (Some "L") (Some "L") (5, 1) (Some (1, 1))
               0 0 0 0 0 0
               [Some (1, 1); Some (PI - 0, 0); Some (5, 1)]
               [move_to 0 0; move_to 1 1; line_to 5 1].

(** A path node without marker attributes, and one whose start marker
    refers to a definition named [arrow]. *)
Definition plain_node : string -> option string := fun _ => None.

Definition arrow_node : string -> option string :=
  fun name => if String.eqb name "marker-start" then Some "url(#arrow)" else None.

(** A surface without marker definitions. *)
Definition no_markers : string -> option Markers.marker_node := fun _ => None.

(** Modelled from the spec: [parse_url(...).fragment] of [url.py] (absent
    from the sources at hand), for references of the form [url(#name)]:
    the text between the hash sign and the closing parenthesis. *)
Fixpoint upto_paren (s : string) : string :=
  match s with
  | EmptyString => EmptyString
  | String c r => if Ascii.eqb c ")"%char then EmptyString else String c (upto_paren r)
  end.

Fixpoint fragment (s : string) : string :=
  match s with
  | EmptyString => EmptyString
  | String c r => if Ascii.eqb c "#"%char then upto_paren r else fragment r
  end.

(** Marker geometry helpers for markers without a [viewBox] whose content
    is a unit square. *)
Definition viewbox : Markers.marker_node -> result (option Markers.box) :=
  fun _ => Ok None.
Definition preserve_ratio : Markers.marker_node -> result (R * R * R * R) :=
  fun _ => Ok (1, 1, 0, 0).
Definition clip_marker_box : Markers.marker_node -> R -> R -> result (option Markers.box) :=
  fun _ _ _ => Ok None.
Definition calculate_bounding_box : Markers.marker_node -> result Markers.box :=
  fun _ => Ok (0, 0, 1, 1).

Definition draw_markers (node : string -> option string)
    (surface_markers : string -> option Markers.marker_node) :=
  Markers.draw_markers fragment Helpers.size viewbox preserve_ratio clip_marker_box
                       calculate_bounding_box Helpers.float_of_string
                       surface_markers "1" node.

Definition iteration (node : string -> option string)
    (surface_markers : string -> option Markers.marker_node) :=
  Markers.iteration fragment Helpers.size viewbox preserve_ratio clip_marker_box
                    calculate_bounding_box Helpers.float_of_string
                    surface_markers "1" node.

End Inputs.

(** ** A surface with one marker *)

Module Samples.

(** A marker that follows the direction of the path and has one child. *)
Definition arrow : Markers.marker_node :=
  Markers.mkMarker
    (fun name => if String.eqb name "orient" then Some "auto" else None) [7%nat].

(** The table [surface.markers] that defines [arrow] under its name. *)
Definition arrow_markers : string -> option Markers.marker_node :=
  fun name => if String.eqb name "arrow" then Some arrow else None.

(** A path node whose end marker refers to [arrow]. *)
Definition arrow_at_end : string -> option string :=
  fun name => if String.eqb name "marker-end" then Some "url(#arrow)" else None.

(** The states of the interpreter after [M0 0], after [M0 0 L10 0] and
    after [M0 0 L10 0 z], with [d] as the data that is left. *)
Definition after_moveto (d : string) : Path.state :=
  Path.mkState d (Some "M") (Some "M") (0, 0) None 0 0 0 0 0 0
               [Some (0, 0)] [move_to 0 0; move_to 0 0].

Definition after_lineto (d : string) : Path.state :=
  Path.mkState d (Some "L") (Some "L") (10, 0) (Some (0, 0)) 0 0 0 0 0 0
               [Some (0, 0); Some (PI - 0, 0); Some (10, 0)]
               [move_to 0 0; move_to 0 0; line_to 10 0].

Definition after_closepath (d : string) : Path.state :=
  Path.mkState d (Some "z") (Some "z") (0, 0) (Some (0, 0)) 0 0 0 0 0 0
               [Some (0, 0); Some (PI - 0, 0); Some (10, 0); None]
               [move_to 0 0; move_to 0 0; line_to 10 0; close_path].

End Samples.

(** ** The save/restore stack of the surface *)

Module Trace.

(** The depth of the stack of saved states after the calls [t], from the
    depth [d]: [save] pushes, [restore] pops; [None] when a [restore]
    finds the stack empty. *)
Fixpoint stack_depth (d : nat) (t : list call) : option nat :=
  match t with
  | [] => Some d
  | save :: r => stack_depth (S d) r
  | restore :: r =>
      match d with
      | O => None
      | S d' => stack_depth d' r
      end
  | _ :: r => stack_depth d r
  end.

(** The calls [t] pair every [save] with a later [restore] and pop
    nothing they have not pushed. *)
Definition balanced (t : list call) : Prop :=
  forall d : nat, stack_depth d t = Some d.

(** [angle2] holds a number whenever the next vertex is not a start
    vertex. *)
Definition tracks_angle (s : Markers.state) : Prop :=
  Markers.pos s = Markers.start \/ exists a, Markers.angle2 s = Some a.

(** The point a closepath returns to: [first_path_point] as lines 156-157
    leave it, [None] right after a moveto or a closepath and when no
    command has been executed. *)
Definition subpath_start (s : Path.state) : option pt :=
  if in_tuple (Path.last_letter s) Path.NONE_MZ then None
  else Path.first_path_point s.

(** Where the current subpath began: the point above, or the current
    point when no drawing command has been executed since the last moveto
    or closepath. *)
Definition subpath_origin (s : Path.state) : pt :=
  match subpath_start s with
  | Some p => p
  | None => Path.current_point s
  end.

(** The stream ends with the current point, unless the last command
    executed is a closepath (or none has been executed). *)
Definition ends_at_current_point (s : Path.state) : Prop :=
  forall l : string,
    Path.last_letter s = Some l -> str_in l "zZ" = false ->
    exists vs, Path.vertices s = (vs ++ [Some (Path.current_point s)])%list.

(** The call that draws a quadratic curve: [curve_to] or [rel_curve_to]
    on the six numbers [quadratic_points] returns. *)
Definition curve_of (rel : bool) (q : R * R * R * R * R * R) : call :=
  let '(xq1, yq1, xq2, yq2, xq3, yq3) := q in
  (if rel then rel_curve_to else curve_to) xq1 yq1 xq2 yq2 xq3 yq3.

(** The children a trace has drawn, in order. *)
Definition drawn (t : list call) : list nat :=
  flat_map (fun c => match c with draw child => [child] | _ => [] end) t.

(** The positions [draw_markers] gives to the points of a stream: a
    point followed by a tangent pair keeps the position reached so far
    ([start] for the first point of a subpath, [mid] afterwards); a point
    followed by a break, or by nothing, is an end vertex, and the next
    point starts again. *)
Fixpoint walk (p : Markers.position) (l : list vertex) : list Markers.position :=
  match l with
  | [] => []
  | [_] => [Markers.end_]
  | _ :: Some _ :: r => p :: walk Markers.mid r
  | _ :: None :: r => Markers.end_ :: walk Markers.start r
  end.

(** Converting a relative drawing call to absolute coordinates, from the
    current point [p]. *)
Definition absolute (p : pt) (c : call) : call :=
  match c with
  | rel_move_to x y => move_to (fst p + x) (snd p + y)
  | rel_line_to x y => line_to (fst p + x) (snd p + y)
  | rel_curve_to x1 y1 x2 y2 x3 y3 =>
      curve_to (fst p + x1) (snd p + y1) (fst p + x2) (snd p + y2)
               (fst p + x3) (snd p + y3)
  | _ => c
  end.

(** The children of the marker a node refers to at a position; none
    when the reference is empty or names no marker. *)
Definition marker_children (fragment : string -> string)
    (surface_markers : string -> option Markers.marker_node)
    (node : string -> option string) (p : Markers.position) : list nat :=
  match Markers.markers fragment node p with
  | "" => []
  | name =>
      match surface_markers name with
      | Some m => Markers.children m
      | None => []
      end
  end.

(** The state an iteration's body ends in. *)
Definition flow_state (f : Path.flow) : Path.state :=
  match f with
  | Path.Fallthrough s => s
  | Path.Continue s => s
  end.

(** [s'] holds the stream and the trace of [s] with at most [n] entries
    added to the stream and balanced calls added to the trace. *)
Definition extends (n : nat) (s s' : Path.state) : Prop :=
  exists (vs : list vertex) (cs : list call),
    Path.vertices s' = (Path.vertices s ++ vs)%list
    /\ Path.calls s' = (Path.calls s ++ cs)%list
    /\ balanced cs
    /\ (List.length vs <= n)%nat.

End Trace.

(** * Properties *)

(** ** Evaluation of the tests on numbers *)

Lemma Reqb_IZR (a b : Z) : Reqb (IZR a) (IZR b) = Z.eqb a b.
Proof.
  unfold Reqb. destruct (Req_dec_T (IZR a) (IZR b)) as [H|H].
  - apply eq_IZR in H. subst. symmetry. apply Z.eqb_refl.
  - symmetry. apply Z.eqb_neq. intros ->. now apply H.
Qed.

Lemma Rgtb_IZR (a b : Z) : Rgtb (IZR a) (IZR b) = Z.ltb b a.
Proof.
  unfold Rgtb. destruct (Rgt_dec (IZR a) (IZR b)) as [H|H].
  - symmetry. apply Z.ltb_lt. apply lt_IZR. exact H.
  - symmetry. apply Z.ltb_ge. apply le_IZR. lra.
Qed.

Lemma copysign_pos (x y : R) : 0 <= x -> 0 <= y -> copysign x y = x.
Proof.
  intros Hx Hy. unfold copysign. destruct (Rlt_dec y 0); [lra|].
  now apply Rabs_pos_eq.
Qed.

Lemma copysign_neg (x y : R) : 0 <= x -> y < 0 -> copysign x y = - x.
Proof.
  intros Hx Hy. unfold copysign. destruct (Rlt_dec y 0); [|lra].
  now rewrite Rabs_pos_eq.
Qed.

Lemma half_PI_pos : 0 <= PI / 2.
Proof. pose proof PI_RGT_0. lra. Qed.

Lemma Int_part_IZR (z : Z) : Int_part (IZR z) = z.
Proof. symmetry. apply Int_part_spec. lra. Qed.

Lemma atan2_right (x : R) : 0 < x -> Helpers.atan2 0 x = 0.
Proof.
  intros H. unfold Helpers.atan2. destruct (Rlt_dec 0 x); [|lra].
  replace (0 / x) with 0 by (field; lra). apply atan_0.
Qed.

Lemma atan2_up (y : R) : 0 < y -> Helpers.atan2 y 0 = PI / 2.
Proof.
  intros H. unfold Helpers.atan2.
  destruct (Rlt_dec 0 0); [lra|]. destruct (Rlt_dec 0 y); [reflexivity|lra].
Qed.

(** ** Unfolding the loops *)

Section Loops.

Variable size : string -> string -> result R.
Variable point : string -> result (R * R * string).
Variable point_angle : R -> R -> R -> R -> R.
Variable rotate : R -> R -> R -> R * R.
Variable quadratic_points : R -> R -> R -> R -> R -> R -> (R * R * R * R * R * R).
Variable float_of_string : string -> result R.
Variable str_of_float : R -> string.

Local Abbreviation step :=
    (Path.step size point point_angle rotate quadratic_points float_of_string
               str_of_float).
Local Abbreviation while_string :=
    (Path.while_string size point point_angle rotate quadratic_points
                       float_of_string str_of_float).

Lemma while_string_step (fuel : nat) (s s' : Path.state) :
    Path.string_ s <> "" -> step s = Ok s' ->
    while_string (S fuel) s = while_string fuel s'.
  Proof.
    intros Hne Hs. simpl. destruct (Path.string_ s); [congruence|].
    now rewrite Hs.
  Qed.

Lemma while_string_raise (fuel : nat) (s : Path.state) (e : exn) :
    Path.string_ s <> "" -> step s = Raise e ->
    while_string (S fuel) s = Some (Raise e).
  Proof.
    intros Hne Hs. simpl. destruct (Path.string_ s); [congruence|].
    now rewrite Hs.
  Qed.

Lemma while_string_done (fuel : nat) (s : Path.state) :
    Path.string_ s = "" -> while_string fuel s = Some (Ok s).
  Proof. intros H. destruct fuel; simpl; now rewrite H. Qed.

End Loops.

(** Evaluation of the interpreter on concrete data: the string
    computations are carried out, the arithmetic on real numbers is left
    as it is. *)
Ltac run :=
  lazy -[IZR Rplus Rminus Rmult Rdiv Ropp Rinv PI atan cos sin sqrt Rabs Rmax Rmin
         Reqb Rgtb copysign Helpers.atan2 Helpers.point_angle Helpers.rotate hypot
         radians Int_part Run.str_of_float].

Ltac number_tests := rewrite ?Reqb_IZR, ?Rgtb_IZR.

Ltac eval_step := repeat (progress (run; number_tests)); try reflexivity.

Ltac one_step :=
  erewrite while_string_step; [ | run; discriminate | eval_step ].

Ltac start_path := unfold Run.path, Path.path; fold Run.init.

Ltac end_path := apply while_string_done; reflexivity.

(** ** Closepath before any moveto *)

(** C2 (defect of the code): on the data [Z M10 10 L20 20] the leading
    closepath issues no call on the surface and leaves the current point at
    [(0, 0)], but the iteration that reads it appends the current point to
    the vertex stream, which was empty: the closepath is not a no-op on the
    stream.  The stray point stays first in the stream of the whole path. *)
Theorem leading_closepath_appends_vertex :
  exists s1 s,
    Run.step (Run.init None "Z M10 10 L20 20") = Ok s1
    /\ Path.vertices (Run.init None "Z M10 10 L20 20") = []
    /\ Path.vertices s1 = [Some (0, 0)]
    /\ Path.calls s1 = Path.calls (Run.init None "Z M10 10 L20 20")
    /\ Path.current_point s1 = (0, 0)
    /\ Run.path 3 None "Z M10 10 L20 20" = Some (Ok s)
    /\ Path.vertices s
       = [Some (0, 0); Some (10, 10);
          Some (PI - Helpers.point_angle 10 10 20 20, Helpers.point_angle 10 10 20 20);
          Some (20, 20)].
Proof.
  eexists. eexists.
  split; [eval_step|].
  do 4 (split; [reflexivity|]).
  split; [start_path; do 3 one_step; end_path | reflexivity].
Qed.

(** ** Tangent pairs of the straight-line commands *)

Section Lines.

Variable size : string -> string -> result R.
Variable point : string -> result (R * R * string).
Variable point_angle : R -> R -> R -> R -> R.

(** The pair recorded by [v] and [V] is [(- angle, angle)] with [angle]
    either [pi / 2] or [- pi / 2]: its components add up to [0]. *)
Lemma vertical_pair_sums_to_zero (string : string) (s s' : Path.state) :
  Path.v_branch size string s = Ok (Path.Fallthrough s')
  \/ Path.V_branch size string s = Ok (Path.Fallthrough s') ->
  exists a : R,
    Path.vertices s' = (Path.vertices s ++ [Some (- a, a)])%list
    /\ (a = PI / 2 \/ a = - (PI / 2))
    /\ - a + a = 0.
Proof.
  assert (Hc : forall y, copysign (PI / 2) y = PI / 2 \/ copysign (PI / 2) y = - (PI / 2)).
  { intros y. destruct (Rlt_dec y 0).
    - right. apply copysign_neg; [apply half_PI_pos | assumption].
    - left. apply copysign_pos; [apply half_PI_pos | lra]. }
  intros [H | H].
  - unfold Path.v_branch in H.
    destruct (Path.split_sp string) as [y r].
    destruct (size y "y") as [v|]; simpl in H; [|discriminate].
    injection H as <-. eexists. split; [reflexivity | split; [apply Hc | lra]].
  - unfold Path.V_branch in H.
    destruct (Path.split_sp string) as [y r].
    destruct (Path.current_point s) as [ox oy] eqn:E.
    simpl in H. rewrite E in H.
    destruct (size y "y") as [v|]; simpl in H; [|discriminate].
    injection H as <-. eexists. split; [reflexivity | split; [apply Hc | lra]].
Qed.

End Lines.

(** C4 (defect of the code): for the vertical-line commands the recorded
    pair is not [(pi - angle, angle)].  On the data [M0 0 V10] the line
    goes from [(0, 0)] to [(0, 10)], its direction angle is [pi / 2], and
    the interpreter records [(- pi / 2, pi / 2)], whose components add up
    to [0] and not to [pi]; the same segment written [L0 10] records
    [(pi - pi / 2, pi / 2)]. *)
Theorem vertical_lineto_tangent_pair :
  exists sv sl,
    Run.path 2 None "M0 0 V10" = Some (Ok sv)
    /\ Path.vertices sv = [Some (0, 0); Some (- (PI / 2), PI / 2); Some (0, 10)]
    /\ - (PI / 2) + PI / 2 <> PI
    /\ Run.path 2 None "M0 0 L0 10" = Some (Ok sl)
    /\ Path.vertices sl = [Some (0, 0); Some (PI - PI / 2, PI / 2); Some (0, 10)].
Proof.
  eexists. eexists.
  split; [start_path; do 2 one_step; end_path|].
  split.
  { cbn [Path.vertices].
    rewrite (copysign_pos (PI / 2) (10 - 0)); [reflexivity | apply half_PI_pos | lra]. }
  split; [pose proof PI_RGT_0; lra|].
  split; [start_path; do 2 one_step; end_path|].
  cbn [Path.vertices]. unfold Helpers.point_angle.
  replace (0 - 0) with 0 by lra. replace (10 - 0) with 10 by lra.
  rewrite atan2_up by lra. reflexivity.
Qed.

(** ** Smooth cubic commands *)

Section Smooth.

Variable point : string -> result (R * R * string).
Variable point_angle : R -> R -> R -> R -> R.

(** The first control point drawn by [S] is computed from the variables
    [x2], [y2], [x3], [y3] left by earlier iterations when [last_letter] is
    one of [c s C S], and is the current point otherwise (a [TypeError]
    when [last_letter] is [None]). *)
Lemma S_branch_control_point (string : string) (s s' : Path.state) :
  Path.S_branch point point_angle string s = Ok (Path.Fallthrough s') ->
  exists (b : bool) (cx cy ex ey : R),
    Path.py_in (Path.last_letter s) "csCS" = Ok b
    /\ (Path.x1 s', Path.y1 s')
       = (if b
          then (Path.x3 s + (Path.x3 s - Path.x2 s), Path.y3 s + (Path.y3 s - Path.y2 s))
          else Path.current_point s)
    /\ Path.calls s'
       = (Path.calls s ++ [curve_to (Path.x1 s') (Path.y1 s') cx cy ex ey])%list
    /\ Path.current_point s' = (ex, ey)
    /\ (Path.x2 s', Path.y2 s') = (cx, cy)
    /\ (Path.x3 s', Path.y3 s') = (ex, ey).
Proof.
  unfold Path.S_branch. intros H.
  destruct (Path.current_point s) as [x y] eqn:E.
  destruct (Path.py_in (Path.last_letter s) "csCS") as [b|]; simpl in H; [|discriminate].
  destruct (point string) as [[[cx cy] r]|]; simpl in H; [|discriminate].
  destruct (point r) as [[[ex ey] r']|]; simpl in H; [|discriminate].
  injection H as <-. exists b, cx, cy, ex, ey.
  destruct b; repeat split; reflexivity.
Qed.

(** When the variables hold what a cubic command leaves (the end point of
    the previous curve, which is the current point, in [x3], [y3]), the
    control point is the reflection of [(x2, y2)] through the current
    point. *)
Lemma S_branch_reflection (string : string) (s s' : Path.state) :
  Path.S_branch point point_angle string s = Ok (Path.Fallthrough s') ->
  Path.py_in (Path.last_letter s) "csCS" = Ok true ->
  (Path.x3 s, Path.y3 s) = Path.current_point s ->
  Path.x1 s' = 2 * fst (Path.current_point s) - Path.x2 s
  /\ Path.y1 s' = 2 * snd (Path.current_point s) - Path.y2 s.
Proof.
  intros H Hb Hc.
  destruct (S_branch_control_point _ _ _ H) as (b & cx & cy & ex & ey & Hb' & H1 & _).
  rewrite Hb in Hb'. injection Hb' as <-. rewrite <- Hc. simpl.
  injection H1 as -> ->. split; lra.
Qed.

End Smooth.

(** C7 (defect of the code): on the data of the claim the control point
    synthesized by [S] is [(30, 10)], the reflection of [(10, 10)] through
    [(20, 10)].  But an arc command that is skipped for its flags, between
    the cubic and the smooth command, overwrites [x3], [y3] with its own end
    point [(7, 7)] and leaves [last_letter] at [C]: the control point
    becomes [(7 + (7 - 10), 7 + (7 - 10)) = (4, 4)], which is neither the
    reflection nor the current point.  And a smooth command that opens the
    data raises [TypeError] instead of using the current point. *)
Theorem smooth_control_point_after_skipped_arc :
  exists s s',
    Run.path 3 None "M0 0 C10 0 10 10 20 10 S30 20 40 10" = Some (Ok s)
    /\ Path.calls s
       = [move_to 0 0; move_to 0 0; curve_to 10 0 10 10 20 10;
          curve_to 30 10 30 20 40 10]
    /\ Run.path 4 None "M0 0 C10 0 10 10 20 10 A5 5 0 2 1 7 7 S30 20 40 10"
       = Some (Ok s')
    /\ Path.calls s'
       = [move_to 0 0; move_to 0 0; curve_to 10 0 10 10 20 10;
          set_tolerance (1 / 100000); curve_to 4 4 30 20 40 10]
    /\ Run.path 1 None "S1 1 2 2" = Some (Raise TypeError).
Proof.
  eexists. eexists.
  split; [start_path; do 3 one_step; end_path|].
  split; [cbn [Path.calls]; repeat f_equal; lra|].
  split; [start_path; do 4 one_step; end_path|].
  split; [cbn [Path.calls]; repeat f_equal; lra|].
  start_path. erewrite while_string_raise; [reflexivity | run; discriminate | eval_step].
Qed.

(** ** Arcs with a zero radius *)

Lemma str_of_float_IZR (z : Z) :
  Run.str_of_float (IZR z)
  = ((if (z <? 0)%Z then "-" else "")
       ++ NilZero.string_of_uint (N.to_uint (Z.abs_N z)) ++ ".0")%string.
Proof. unfold Run.str_of_float. now rewrite Int_part_IZR. Qed.

Ltac eval_step_fmt :=
  repeat (progress (run; number_tests; rewrite ?str_of_float_IZR)); try reflexivity.

Ltac one_step_fmt :=
  erewrite while_string_step; [ | run; discriminate | eval_step_fmt ].

(** C6 (defect of the code): an arc with a zero radius that follows a
    closepath (or opens the data) does not leave the vertex stream of the
    relative lineto it is rewritten to.  The iteration that reads the arc
    letter appends the current point, rewrites the data and goes back to
    the head of the loop without recording the letter; the iteration that
    reads the injected [l] appends the current point a second time.  On
    [M1 1 L5 1 Z a0 5 0 0 1 3 4] the stream holds [(1, 1)] twice after the
    subpath break, on [M1 1 L5 1 Z l3 4] once; the current point and the
    drawing calls are the same. *)
Theorem degenerate_arc_after_closepath_seeds_twice :
  exists sa sl,
    Run.path 5 None "M1 1 L5 1 Z a0 5 0 0 1 3 4" = Some (Ok sa)
    /\ Run.path 4 None "M1 1 L5 1 Z l3 4" = Some (Ok sl)
    /\ Path.vertices sl
       = [Some (1, 1);
          Some (PI - Helpers.point_angle 1 1 5 1, Helpers.point_angle 1 1 5 1);
          Some (5, 1); None;
          Some (1, 1);
          Some (PI - Helpers.point_angle 0 0 3 4, Helpers.point_angle 0 0 3 4);
          Some (1 + 3, 1 + 4)]
    /\ Path.vertices sa
       = [Some (1, 1);
          Some (PI - Helpers.point_angle 1 1 5 1, Helpers.point_angle 1 1 5 1);
          Some (5, 1); None;
          Some (1, 1); Some (1, 1);
          Some (PI - Helpers.point_angle 0 0 3 4, Helpers.point_angle 0 0 3 4);
          Some (1 + 3, 1 + 4)]
    /\ Path.vertices sa <> Path.vertices sl
    /\ Path.current_point sa = Path.current_point sl
    /\ draw_calls (Path.calls sa) = draw_calls (Path.calls sl).
Proof.
  eexists. eexists.
  split; [start_path; do 5 one_step_fmt; end_path|].
  split; [start_path; do 4 one_step; end_path|].
  split; [reflexivity|].
  split.
  { cbn [Path.vertices].
    replace (30 / 10) with 3 by lra. replace (40 / 10) with 4 by lra. reflexivity. }
  split.
  { cbn [Path.vertices]. intros H. apply (f_equal (@List.length vertex)) in H.
    discriminate H. }
  split.
  - cbn [Path.current_point]. f_equal; lra.
  - cbn [Path.calls draw_calls filter is_draw_call]. repeat f_equal; lra.
Qed.

(** ** Reading the command letter *)

(** What [read_letter] leaves untouched.  The vertex stream is left as it
    was unless an explicit letter other than a moveto opens the data or
    follows a closepath. *)
Lemma read_letter_frame (s s1 : Path.state) (l : string) :
  Path.read_letter s = Ok (l, s1) ->
  in_tuple (Path.last_letter s) Path.NONE_Z = false \/ str_in l "mM" = true ->
  Path.vertices s1 = Path.vertices s
  /\ Path.current_point s1 = Path.current_point s
  /\ Path.calls s1 = Path.calls s
  /\ Path.last_letter s1 = Path.last_letter s
  /\ Path.first_path_point s1 = Path.first_path_point s
  /\ Path.letter s1 = Some l.
Proof.
  unfold Path.read_letter. intros H Hc.
  destruct (str_in (fst (split1 (strip (Path.string_ s)))) Path.PATH_LETTERS).
  - destruct (Path.split_sp (strip (Path.string_ s))) as [l' r].
    cbn [Path.last_letter Path.with_letter Path.with_string] in H.
    destruct (in_tuple (Path.last_letter s) Path.NONE_Z) eqn:E1;
      destruct (str_in l' "mM") eqn:E2; cbn [andb negb] in H;
      injection H as <- <-; try (repeat split; reflexivity).
    destruct Hc as [Hc | Hc]; congruence.
  - cbn [Path.letter Path.with_string] in H.
    destruct (Path.letter s) as [l0|]; [|discriminate].
    injection H as <- <-. repeat split; reflexivity.
Qed.

(** An explicit letter at the head of the data is read as it is, and the
    data that follows it is kept with one space added at its end. *)
Lemma read_letter_explicit (s : Path.state) (c : ascii) (args : string) :
  strip (Path.string_ s) = String c (String " " args) ->
  str_in (chr c) Path.PATH_LETTERS = true ->
  exists s1,
    Path.read_letter s = Ok (chr c, s1)
    /\ Path.string_ s1 = (args ++ " ")%string.
Proof.
  intros Hs Hc. unfold Path.read_letter. rewrite Hs.
  assert (Hne : Ascii.eqb c " " = false).
  { destruct (Ascii.eqb c " ") eqn:E; [|reflexivity].
    apply Ascii.eqb_eq in E. subst c. discriminate Hc. }
  assert (H1 : split1 (String c (String " " args)) = (chr c, Some args)).
  { cbn [split1]. rewrite Hne. reflexivity. }
  rewrite H1. cbn [fst]. rewrite Hc.
  assert (H2 : Path.split_sp (String c (String " " args)) = (chr c, (args ++ " ")%string)).
  { unfold Path.split_sp. cbn [String.append split1]. rewrite Hne. reflexivity. }
  rewrite H2.
  destruct (in_tuple _ _ && negb _); eexists; split; reflexivity.
Qed.

Lemma update_first_path_point_frame (l : string) (s : Path.state) :
  Path.string_ (Path.update_first_path_point l s) = Path.string_ s
  /\ Path.vertices (Path.update_first_path_point l s) = Path.vertices s
  /\ Path.current_point (Path.update_first_path_point l s) = Path.current_point s
  /\ Path.calls (Path.update_first_path_point l s) = Path.calls s
  /\ Path.last_letter (Path.update_first_path_point l s) = Path.last_letter s
  /\ Path.letter (Path.update_first_path_point l s) = Path.letter s.
Proof.
  unfold Path.update_first_path_point.
  destruct (in_tuple (Path.last_letter s) Path.NONE_MZ);
    destruct (negb (in_tuple (Some l) Path.NONE_MZ));
    cbn [andb Path.first_path_point Path.with_first_path_point];
    try destruct (Path.first_path_point s); repeat split; reflexivity.
Qed.

(** ** Moveto and the subpath break *)

Section Moveto.

Variable size : string -> string -> result R.
Variable point : string -> result (R * R * string).
Variable point_angle : R -> R -> R -> R -> R.
Variable rotate : R -> R -> R -> R * R.
Variable quadratic_points : R -> R -> R -> R -> R -> R -> (R * R * R * R * R * R).
Variable float_of_string : string -> result R.
Variable str_of_float : R -> string.

Local Abbreviation step :=
  (Path.step size point point_angle rotate quadratic_points float_of_string
             str_of_float).

(** What an iteration that reads a moveto does, in every state: the guard
    of lines 319 and 327 decides on the break. *)
Lemma moveto_step (s s1 : Path.state) (l rest : string) (x y : R) :
  Path.read_letter s = Ok (l, s1) ->
  l = "M" \/ l = "m" ->
  point (Path.string_ s1) = Ok (x, y, rest) ->
  exists s',
    step s = Ok s'
    /\ Path.current_point s'
       = (if String.eqb l "M" then (x, y) else Path.padd (Path.current_point s) (x, y))
    /\ Path.vertices s'
       = (Path.vertices s
            ++ (if Path.needs_break (Path.last_letter s) then [None] else [])
            ++ [Some (Path.current_point s')])%list
    /\ Path.calls s'
       = (Path.calls s ++ [if String.eqb l "M" then move_to x y else rel_move_to x y])%list
    /\ Path.last_letter s' = Some l
    /\ Path.needs_break None = false
    /\ Path.needs_break (Some "z") = false
    /\ Path.needs_break (Some "Z") = false
    /\ (forall c : ascii, c <> "z"%char -> c <> "Z"%char ->
        Path.needs_break (Some (chr c)) = true).
Proof.
  intros Hread Hl Hpt.
  destruct (read_letter_frame s s1 l Hread) as (Hv & Hcp & Hcalls & Hll & _ & _).
  { right. destruct Hl as [-> | ->]; reflexivity. }
  destruct (update_first_path_point_frame l s1) as (Us & Uv & Ucp & Ucalls & Ull & _).
  assert (Hbrk : forall c : ascii, c <> "z"%char -> c <> "Z"%char ->
                 Path.needs_break (Some (chr c)) = true).
  { intros c Hz HZ. unfold Path.needs_break, chr. cbn.
    destruct (ascii_dec c "z"); [congruence|].
    destruct (ascii_dec c "Z"); [congruence|].
    reflexivity. }
  unfold Path.step. rewrite Hread. cbn [bind].
  set (u := Path.update_first_path_point l s1) in *. clearbody u.
  destruct Hl as [-> | ->].
  - change (Path.dispatch size point point_angle rotate quadratic_points
                          float_of_string str_of_float "M" u)
      with (Path.M_branch point (Path.string_ u) u).
    unfold Path.M_branch. rewrite Us, Hpt. cbn [bind].
    unfold Path.subpath_break.
    cbn [Path.last_letter Path.with_string]. rewrite Ull, Hll.
    eexists. split; [reflexivity|].
    destruct (Path.needs_break (Path.last_letter s));
      cbn; rewrite ?Uv, ?Ucalls, ?Hv, ?Hcalls, <- ?app_assoc;
      repeat split; try reflexivity; assumption.
  - change (Path.dispatch size point point_angle rotate quadratic_points
                          float_of_string str_of_float "m" u)
      with (Path.m_branch point (Path.string_ u) u).
    unfold Path.m_branch. rewrite Us, Hpt. cbn [bind].
    unfold Path.subpath_break.
    cbn [Path.last_letter Path.with_string]. rewrite Ull, Hll.
    eexists. split; [reflexivity|].
    destruct (Path.needs_break (Path.last_letter s));
      cbn; rewrite ?Uv, ?Ucalls, ?Ucp, ?Hv, ?Hcalls, ?Hcp, <- ?app_assoc;
      repeat split; try reflexivity; assumption.
Qed.

(** C9 (amended): for a moveto command [M] or [m] whose coordinates
    parse and before which a command has been completed ([last_letter] is
    set), the vertex stream holds a subpath break ([None]) right before the
    point the moveto appends.  The moveto appends the break itself when the
    previous command is not a closepath; after a closepath that has
    appended its own break (the stream ends with [None]) it appends its
    point only, so that the break is not doubled.  A moveto that follows a
    closepath that was ignored is left out: see
    [moveto_after_ignored_closepath]. *)
Theorem moveto_subpath_break (s s1 : Path.state) (l rest : string) (x y : R) :
  Path.read_letter s = Ok (l, s1) ->
  l = "M" \/ l = "m" ->
  point (Path.string_ s1) = Ok (x, y, rest) ->
  Path.truthy (Path.last_letter s) = true ->
  (Path.needs_break (Path.last_letter s) = false ->
   exists vs, Path.vertices s = (vs ++ [None])%list) ->
  exists s',
    step s = Ok s'
    /\ Path.current_point s'
       = (if String.eqb l "M" then (x, y) else Path.padd (Path.current_point s) (x, y))
    /\ Path.vertices s'
       = (Path.vertices s
            ++ (if Path.needs_break (Path.last_letter s) then [None] else [])
            ++ [Some (Path.current_point s')])%list
    /\ (exists vs,
          Path.vertices s' = (vs ++ [None; Some (Path.current_point s')])%list)
    /\ Path.calls s'
       = (Path.calls s ++ [if String.eqb l "M" then move_to x y else rel_move_to x y])%list
    /\ Path.last_letter s' = Some l
    /\ (forall c : ascii, c <> "z"%char -> c <> "Z"%char ->
        Path.needs_break (Some (chr c)) = true)
    /\ Path.needs_break (Some "z") = false
    /\ Path.needs_break (Some "Z") = false.
Proof.
  intros Hread Hl Hpt Ht Hz.
  destruct (moveto_step s s1 l rest x y Hread Hl Hpt)
    as (s' & Hs & Hcp & Hv & Hc & Hll & _ & _ & _ & Hbrk).
  exists s'. split; [exact Hs|]. split; [exact Hcp|]. split; [exact Hv|].
  split.
  { destruct (Path.needs_break (Path.last_letter s)) eqn:E.
    - exists (Path.vertices s). rewrite Hv. reflexivity.
    - destruct (Hz eq_refl) as (vs & Hvs). exists vs.
      rewrite Hv, Hvs. cbn [app]. rewrite <- app_assoc. reflexivity. }
  split; [exact Hc|]. split; [exact Hll|]. split; [exact Hbrk|].
  split; reflexivity.
Qed.

End Moveto.

(** The amended statement at the state reached after [M0 0 L10 0], with
    [M 5 5] as the rest of the data: the break is appended, then the
    point. *)
Lemma moveto_subpath_break_witness :
  exists s',
    Run.step Inputs.after_lineto_moveto = Ok s'
    /\ Path.vertices s'
       = [Some (0, 0); Some (PI - 0, 0); Some (10, 0); None; Some (5, 5)].
Proof.
  assert (Hz : Path.needs_break (Path.last_letter Inputs.after_lineto_moveto) = false ->
               exists vs, Path.vertices Inputs.after_lineto_moveto = (vs ++ [None])%list)
    by (intros H; discriminate H).
  destruct (moveto_subpath_break
              Helpers.size Helpers.point Helpers.point_angle Helpers.rotate
              Helpers.quadratic_points Helpers.float_of_string Run.str_of_float
              Inputs.after_lineto_moveto
              (Path.with_letter (Some "M")
                 (Path.with_string "5 5 " Inputs.after_lineto_moveto))
              "M" "" 5 5 eq_refl (or_introl eq_refl) eq_refl eq_refl Hz)
    as (s' & Hs & Hcp & Hv & _).
  exists s'. split; [exact Hs|].
  rewrite Hv, Hcp. reflexivity.
Defined.

(** C9 (counterexample): in [M0 0 L10 0 Z M5 5] the second moveto is not
    the first command of the data, and it appends no subpath break: the
    stream of the whole data is the stream of [M0 0 L10 0 Z], which ends
    with the break of the closepath, followed by the point [(5, 5)]
    alone. *)
Lemma moveto_after_closepath_appends_no_break :
  exists s3 s4,
    Run.path 3 None "M0 0 L10 0 Z" = Some (Ok s3)
    /\ Run.path 4 None "M0 0 L10 0 Z M5 5" = Some (Ok s4)
    /\ Path.vertices s3
       = [Some (0, 0);
          Some (PI - Helpers.point_angle 0 0 10 0, Helpers.point_angle 0 0 10 0);
          Some (10, 0); None]
    /\ Path.vertices s4 = (Path.vertices s3 ++ [Some (5, 5)])%list
    /\ Path.calls s4 = (Path.calls s3 ++ [move_to 5 5])%list.
Proof.
  eexists. eexists.
  split; [start_path; do 3 one_step; end_path|].
  split; [start_path; do 4 one_step; end_path|].
  repeat split; reflexivity.
Qed.

(** The case the statement above leaves out.  In [M0 0 Z M5 5] the
    closepath follows a moveto and is ignored: it appends no break, and
    the second moveto, reading a closepath in [last_letter], appends none
    either.  The stream holds two points in a row, where [M0 0 M5 5] has
    the break between them. *)
Lemma moveto_after_ignored_closepath :
  exists s3 s2,
    Run.path 3 None "M0 0 Z M5 5" = Some (Ok s3)
    /\ Path.vertices s3 = [Some (0, 0); Some (5, 5)]
    /\ Run.path 2 None "M0 0 M5 5" = Some (Ok s2)
    /\ Path.vertices s2 = [Some (0, 0); None; Some (5, 5)].
Proof.
  eexists. eexists.
  split; [start_path; do 3 one_step; end_path|].
  split; [reflexivity|].
  split; [start_path; do 2 one_step; end_path | reflexivity].
Qed.

(** ** The arc converter *)

Section Arc.

Variable point_angle : R -> R -> R -> R -> R.
Variable rotate : R -> R -> R -> R * R.

(** C8 (amended): with [d] the distance of the end point from the origin
    in the compressed local frame, the x radius becomes [max rx (d / 2)]:
    it is enlarged to [d / 2] when [d / 2 > rx] and never shrunk.  The
    offset of the circle centre along the perpendicular bisector is
    [sqrt (rx ^ 2 - (d / 2) ^ 2)] for the corrected radius; it is negated,
    hence not positive, exactly when (large XOR sweep) is false, and kept,
    hence not negative, otherwise. *)
Theorem arc_radius_and_centre_offset
    (rx ry rotation : R) (large sweep : bool) (x3 y3 : R) :
  let g := Path.arc_convert point_angle rotate rx ry rotation large sweep x3 y3 in
  0 <= Path.dist g
  /\ Path.rx_upd g = Rmax rx (Path.dist g / 2)
  /\ rx <= Path.rx_upd g
  /\ (Path.dist g / 2 > rx -> Path.rx_upd g = Path.dist g / 2)
  /\ (Path.dist g / 2 <= rx -> Path.rx_upd g = rx)
  /\ Path.xc0 g = Path.dist g / 2
  /\ Path.yc0 g = sqrt (Path.rx_upd g ^ 2 - (Path.dist g / 2) ^ 2)
  /\ 0 <= Path.yc0 g
  /\ Path.yc_signed g = (if xorb large sweep then Path.yc0 g else - Path.yc0 g)
  /\ (xorb large sweep = false -> Path.yc_signed g <= 0)
  /\ (xorb large sweep = true -> 0 <= Path.yc_signed g).
Proof.
  unfold Path.arc_convert.
  destruct (rotate x3 y3 (- rotation)) as [xe ye].
  set (d := hypot xe (ye / (ry / rx))).
  destruct (rotate d 0 (point_angle 0 0 xe (ye / (ry / rx)))) as [xe' ye'].
  set (yc := sqrt (Rmax rx (d / 2) ^ 2 - (d / 2) ^ 2)).
  destruct (rotate (d / 2) (if negb (xorb large sweep) then - yc else yc)
                   (point_angle 0 0 xe (ye / (ry / rx)))) as [xc' yc'].
  cbn zeta.
  cbn [Path.dist Path.rx_upd Path.xc0 Path.yc0 Path.yc_signed].
  assert (Hyc : 0 <= yc) by apply sqrt_pos.
  split; [apply sqrt_pos|].
  split; [reflexivity|].
  split; [apply Rmax_l|].
  split; [intros H; apply Rmax_right; lra|].
  split; [intros H; apply Rmax_left; lra|].
  split; [reflexivity|].
  split; [reflexivity|].
  split; [exact Hyc|].
  split; [destruct (xorb large sweep); reflexivity|].
  split; intros ->; cbn [negb]; lra.
Qed.

End Arc.

(** C8 (counterexample): radii [5], no rotation, both flags false and the
    end point at [(6, 0)] from the start, so that [d = 6], [rx] stays [5]
    and the offset is [sqrt (25 - 9) = 4].  (large XOR sweep) is false and
    the offset takes the negative sign: the centre is put at [-4]. *)
Lemma arc_centre_offset_negative_for_equal_flags :
  xorb false false = false
  /\ Path.dist (Run.arc_convert 5 5 0 false false 6 0) = 6
  /\ Path.rx_upd (Run.arc_convert 5 5 0 false false 6 0) = 5
  /\ Path.yc0 (Run.arc_convert 5 5 0 false false 6 0) = 4
  /\ Path.yc_signed (Run.arc_convert 5 5 0 false false 6 0) = - 4.
Proof.
  assert (Hd : hypot (6 * cos (- 0) - 0 * sin (- 0))
                     ((0 * cos (- 0) + 6 * sin (- 0)) / (5 / 5)) = 6).
  { rewrite Ropp_0, cos_0, sin_0. unfold hypot.
    replace ((6 * 1 - 0 * 0) * (6 * 1 - 0 * 0)
             + (0 * 1 + 6 * 0) / (5 / 5) * ((0 * 1 + 6 * 0) / (5 / 5)))
      with (6 * 6) by (field; lra).
    apply sqrt_square. lra. }
  assert (Hm : Rmax 5 (6 / 2) = 5) by (apply Rmax_left; lra).
  assert (Hy : sqrt (5 ^ 2 - (6 / 2) ^ 2) = 4).
  { replace (5 ^ 2 - (6 / 2) ^ 2) with (4 * 4) by (field; lra).
    apply sqrt_square. lra. }
  unfold Run.arc_convert, Path.arc_convert, Helpers.rotate.
  cbn [Path.dist Path.rx_upd Path.xc0 Path.yc0 Path.yc_signed xorb negb].
  rewrite Hd, Hm, Hy. repeat split; reflexivity.
Qed.

(** ** Orientation of the markers *)

Lemma point_angle_east (x y x' : R) : x < x' -> Helpers.point_angle x y x' y = 0.
Proof.
  intros H. unfold Helpers.point_angle.
  replace (y - y) with 0 by lra. apply atan2_right. lra.
Qed.

Lemma point_angle_south (x y y' : R) : y < y' -> Helpers.point_angle x y x y' = PI / 2.
Proof.
  intros H. unfold Helpers.point_angle.
  replace (x - x) with 0 by lra. apply atan2_up. lra.
Qed.

(** C5 (amended): with a tangent pair read as [(incoming, outgoing)], the
    orientation computed at a vertex (before the [orient] override and the
    fixed offset of [pi]) is [pi - incoming] of the pair that follows the
    point at a start vertex, [(prev_outgoing + pi - incoming) / 2] at a mid
    vertex, and, at an end vertex (no pair follows the point), [angle1],
    the first component of the last pair read ([None] if there is none).
    For [M0 0 L10 0 L10 10] the stream is
    [(0,0), (pi - 0, 0), (10,0), (pi - pi/2, pi/2), (10,10)] and the walk
    gives [0] at the start vertex [(0,0)], [pi / 4] at the mid vertex
    [(10,0)] and [pi / 2] at the end vertex [(10,10)]. *)
Theorem marker_orientation_angles
    (p : Markers.position) (a1 a2 : option R) (incoming outgoing prev_outgoing : R) :
  Markers.orientation Markers.start a1 a2 (Some (incoming, outgoing))
  = Ok (Some (PI - incoming), Markers.start, Some incoming, Some outgoing)
  /\ Markers.orientation Markers.mid a1 (Some prev_outgoing) (Some (incoming, outgoing))
     = Ok (Some ((prev_outgoing + PI - incoming) / 2), Markers.mid,
           Some incoming, Some outgoing)
  /\ Markers.orientation p a1 a2 None = Ok (a1, Markers.end_, a1, a2)
  /\ exists s s1 s2 s3,
       Run.path 3 None "M0 0 L10 0 L10 10" = Some (Ok s)
       /\ Path.vertices s
          = [Some (0, 0); Some (PI - 0, 0); Some (10, 0);
             Some (PI - PI / 2, PI / 2); Some (10, 10)]
       /\ Inputs.iteration Inputs.plain_node Inputs.no_markers
            (Markers.mkState (Path.vertices s) Markers.start None None None None [])
          = Ok s1
       /\ Markers.point s1 = Some (0, 0)
       /\ Markers.angle s1 = Some (PI - (PI - 0))
       /\ Markers.pos s1 = Markers.mid
       /\ Inputs.iteration Inputs.plain_node Inputs.no_markers s1 = Ok s2
       /\ Markers.point s2 = Some (10, 0)
       /\ Markers.angle s2 = Some (PI / 4)
       /\ Markers.pos s2 = Markers.mid
       /\ Inputs.iteration Inputs.plain_node Inputs.no_markers s2 = Ok s3
       /\ Markers.point s3 = Some (10, 10)
       /\ Markers.angle s3 = Some (PI / 2)
       /\ Markers.vertices s3 = [].
Proof.
  split; [reflexivity|]. split; [reflexivity|]. split; [reflexivity|].
  eexists. eexists. eexists. eexists.
  split; [start_path; do 3 one_step; end_path|].
  split.
  { cbn [Path.vertices].
    rewrite (point_angle_east 0 0 10) by lra.
    rewrite (point_angle_south 10 0 10) by lra. reflexivity. }
  cbn [Path.vertices].
  rewrite (point_angle_east 0 0 10) by lra.
  rewrite (point_angle_south 10 0 10) by lra.
  split; [reflexivity|].
  split; [reflexivity|]. split; [reflexivity|]. split; [reflexivity|].
  split; [reflexivity|].
  split; [reflexivity|].
  split; [run; f_equal; lra|].
  split; [reflexivity|].
  split; [reflexivity|].
  split; [reflexivity|].
  split; [run; f_equal; lra|].
  reflexivity.
Qed.

(** C5 (counterexample): at the start vertex of [M0 0 L10 0] the pair that
    follows the point is [(pi - 0, 0)]: the incoming angle is [pi] and the
    outgoing angle [0].  The orientation computed is [pi - (pi - 0) = 0],
    not [pi - 0 = pi]. *)
Lemma start_orientation_is_not_pi_minus_outgoing :
  exists s,
    Run.path 2 None "M0 0 L10 0" = Some (Ok s)
    /\ Path.vertices s = [Some (0, 0); Some (PI - 0, 0); Some (10, 0)]
    /\ Markers.orientation Markers.start None None (Some (PI - 0, 0))
       = Ok (Some (PI - (PI - 0)), Markers.start, Some (PI - 0), Some 0)
    /\ PI - (PI - 0) = 0
    /\ PI - (PI - 0) <> PI - 0.
Proof.
  eexists.
  split; [start_path; do 2 one_step; end_path|].
  split.
  { cbn [Path.vertices]. rewrite (point_angle_east 0 0 10) by lra. reflexivity. }
  split; [reflexivity|].
  pose proof PI_RGT_0. split; lra.
Qed.

(** ** Marker references that do not resolve *)

Section Unresolved.

Variable fragment : string -> string.
Variable size : string -> string -> result R.
Variable viewbox : Markers.marker_node -> result (option Markers.box).
Variable preserve_ratio : Markers.marker_node -> result (R * R * R * R).
Variable clip_marker_box : Markers.marker_node -> R -> R -> result (option Markers.box).
Variable calculate_bounding_box : Markers.marker_node -> result Markers.box.
Variable float_of_string : string -> result R.
Variable surface_markers : string -> option Markers.marker_node.
Variable stroke_width : string.
Variable node : string -> option string.

(** [surface.markers.get(marker)] is [None] for a name that is not
    defined, and the first use of the result, [marker_node.get(...)], is an
    [AttributeError]. *)
Lemma draw_marker_unresolved (marker : string) (p : Markers.position)
    (point : vertex) (angle : option R) (t : list call) :
  surface_markers marker = None ->
  Markers.draw_marker size viewbox preserve_ratio clip_marker_box
                      calculate_bounding_box float_of_string surface_markers
                      stroke_width marker p point angle t
  = Raise AttributeError.
Proof. intros H. unfold Markers.draw_marker. now rewrite H. Qed.

(** The first iteration of the walk raises when the reference of the start
    marker is not empty and does not resolve. *)
Lemma iteration_unresolved_start (point : vertex) (g0 g1 : R) (vs : list vertex)
    (t : list call) (c : ascii) (name : string) :
  Markers.markers fragment node Markers.start = String c name ->
  surface_markers (String c name) = None ->
  Markers.iteration fragment size viewbox preserve_ratio clip_marker_box
                    calculate_bounding_box float_of_string surface_markers
                    stroke_width node
                    (Markers.mkState (point :: Some (g0, g1) :: vs) Markers.start
                                     None None None None t)
  = Raise AttributeError.
Proof.
  intros Hm Hs. unfold Markers.iteration.
  cbn [Markers.vertices Markers.pos Markers.angle1 Markers.angle2 Markers.calls
       Markers.orientation Markers.position_eqb bind].
  rewrite Hm. rewrite draw_marker_unresolved by exact Hs. reflexivity.
Qed.

End Unresolved.

(** C3 (defect of the code): a marker reference that does not resolve is
    not skipped.  The node draws [M0 0 L10 0] and has
    [marker-start="url(#arrow)"]; the surface defines no marker.  The
    fragment [arrow] is not empty, [surface.markers.get] gives [None], and
    reading [markerUnits] from it raises [AttributeError]: [draw_markers]
    does not return.  Only an empty reference (the same node without marker
    attributes) is skipped: the walk then returns with the stream consumed
    and the surface untouched. *)
Theorem unresolved_marker_reference_raises :
  exists s,
    Run.path 2 None "M0 0 L10 0" = Some (Ok s)
    /\ Inputs.fragment "url(#arrow)" = "arrow"
    /\ Inputs.no_markers "arrow" = None
    /\ Inputs.draw_markers Inputs.arrow_node Inputs.no_markers 3
         (Some (Path.vertices s)) (Path.calls s)
       = Some (Raise AttributeError)
    /\ Inputs.draw_markers Inputs.plain_node Inputs.no_markers 3
         (Some (Path.vertices s)) (Path.calls s)
       = Some (Ok (Some [], Path.calls s)).
Proof.
  eexists.
  split; [start_path; do 2 one_step; end_path|].
  repeat split; reflexivity.
Qed.

(** ** The walk consumes the vertex stream *)

Section Consume.

Variable fragment : string -> string.
Variable size : string -> string -> result R.
Variable viewbox : Markers.marker_node -> result (option Markers.box).
Variable preserve_ratio : Markers.marker_node -> result (R * R * R * R).
Variable clip_marker_box : Markers.marker_node -> R -> R -> result (option Markers.box).
Variable calculate_bounding_box : Markers.marker_node -> result Markers.box.
Variable float_of_string : string -> result R.
Variable surface_markers : string -> option Markers.marker_node.
Variable stroke_width : string.
Variable node : string -> option string.

Local Abbreviation iteration :=
  (Markers.iteration fragment size viewbox preserve_ratio clip_marker_box
                     calculate_bounding_box float_of_string surface_markers
                     stroke_width node).
Local Abbreviation while_vertices :=
  (Markers.while_vertices fragment size viewbox preserve_ratio clip_marker_box
                          calculate_bounding_box float_of_string surface_markers
                          stroke_width node).
Local Abbreviation draw_markers :=
  (Markers.draw_markers fragment size viewbox preserve_ratio clip_marker_box
                        calculate_bounding_box float_of_string surface_markers
                        stroke_width node).

(** Each iteration pops one or two entries. *)
Lemma iteration_pops (s s' : Markers.state) :
  Markers.vertices s <> [] ->
  iteration s = Ok s' ->
  (List.length (Markers.vertices s') < List.length (Markers.vertices s))%nat.
Proof.
  unfold Markers.iteration. intros Hne H.
  destruct (Markers.vertices s) as [|p [|a vs]]; [congruence| |].
  - destruct (Markers.orientation _ _ _ _) as [[[[an q] b1] b2]|];
      cbn [bind] in H; [|discriminate].
    destruct (match Markers.markers fragment node q with
              | EmptyString => _ | String _ _ => _ end) as [[an' t']|];
      cbn [bind] in H; [|discriminate].
    injection H as <-. cbn. lia.
  - destruct (Markers.orientation _ _ _ _) as [[[[an q] b1] b2]|];
      cbn [bind] in H; [|discriminate].
    destruct (match Markers.markers fragment node q with
              | EmptyString => _ | String _ _ => _ end) as [[an' t']|];
      cbn [bind] in H; [|discriminate].
    injection H as <-. cbn. lia.
Qed.

(** The loop ends, by exhausting the stream or by an exception, within as
    many iterations as the stream has entries. *)
Lemma while_vertices_ends (fuel : nat) :
  forall s : Markers.state,
    (List.length (Markers.vertices s) <= fuel)%nat ->
    exists r, while_vertices fuel s = Some r.
Proof.
  induction fuel as [|fuel IH]; intros s Hlen.
  - destruct (Markers.vertices s) eqn:E; [|cbn in Hlen; lia].
    exists (Ok s). cbn. now rewrite E.
  - cbn. destruct (Markers.vertices s) eqn:E; [now exists (Ok s)|].
    destruct (iteration s) as [s'|e] eqn:Hit; [|now exists (Raise e)].
    apply IH. assert (Hp := iteration_pops s s'). rewrite E in Hp.
    specialize (Hp ltac:(discriminate) Hit). cbn in Hp, Hlen. lia.
Qed.

(** When the loop ends without an exception the stream is empty. *)
Lemma while_vertices_empties (fuel : nat) :
  forall s s' : Markers.state,
    while_vertices fuel s = Some (Ok s') -> Markers.vertices s' = [].
Proof.
  induction fuel as [|fuel IH]; intros s s' H.
  - cbn in H. destruct (Markers.vertices s) eqn:E; [|discriminate].
    injection H as <-. exact E.
  - cbn in H. destruct (Markers.vertices s) eqn:E.
    + injection H as <-. exact E.
    + destruct (iteration s) as [s1|e]; [|discriminate]. now apply (IH s1).
Qed.

(** C10: [draw_markers] consumes the vertex stream.  For a stream that is
    not empty the call ends within as many iterations as the stream has
    entries; when it returns, [node.vertices] is the empty list, and a
    second call on what it left returns at once, leaving the stream and the
    surface trace as they are.  On a node whose stream is absent ([None])
    or empty the call returns at once with the surface trace unchanged. *)
Theorem draw_markers_consumes_vertices
    (fuel : nat) (l : list vertex) (t : list call) :
  l <> [] ->
  (List.length l <= fuel)%nat ->
  (exists r, draw_markers fuel (Some l) t = Some r)
  /\ (forall vs' t',
        draw_markers fuel (Some l) t = Some (Ok (vs', t')) ->
        vs' = Some []
        /\ forall fuel', draw_markers fuel' vs' t' = Some (Ok (vs', t')))
  /\ (forall fuel' t0, draw_markers fuel' None t0 = Some (Ok (None, t0)))
  /\ (forall fuel' t0, draw_markers fuel' (Some []) t0 = Some (Ok (Some [], t0))).
Proof.
  intros Hne Hlen.
  unfold Markers.draw_markers.
  destruct l as [|p l]; [congruence|].
  set (s0 := Markers.mkState (p :: l) Markers.start None None None None t).
  split; [|split; [|split; reflexivity]].
  - destruct (while_vertices_ends fuel s0 Hlen) as [r Hr].
    rewrite Hr. destruct r; eexists; reflexivity.
  - intros vs' t' H.
    destruct (while_vertices fuel s0) as [[s'|e]|] eqn:Hw; try discriminate.
    injection H as <- <-.
    rewrite (while_vertices_empties fuel s0 s' Hw).
    split; reflexivity.
Qed.

End Consume.

(** The statement at the stream of [M0 0 L10 0], on a node without marker
    attributes: the call returns, the stream is empty and the trace is the
    one it was given. *)
Lemma draw_markers_consumes_vertices_witness :
  Inputs.draw_markers Inputs.plain_node Inputs.no_markers 3
    (Some [Some (0, 0); Some (PI - 0, 0); Some (10, 0)]) [move_to 0 0; line_to 10 0]
  = Some (Ok (Some [], [move_to 0 0; line_to 10 0]))
  /\ Inputs.draw_markers Inputs.plain_node Inputs.no_markers 3
       (Some []) [move_to 0 0; line_to 10 0]
     = Some (Ok (Some [], [move_to 0 0; line_to 10 0])).
Proof.
  pose proof (draw_markers_consumes_vertices
                Inputs.fragment Helpers.size Inputs.viewbox Inputs.preserve_ratio
                Inputs.clip_marker_box Inputs.calculate_bounding_box
                Helpers.float_of_string Inputs.no_markers "1" Inputs.plain_node
                3 [Some (0, 0); Some (PI - 0, 0); Some (10, 0)]
                [move_to 0 0; line_to 10 0]
                ltac:(discriminate) (le_n 3)) as (_ & H & _).
  specialize (H (Some []) [move_to 0 0; line_to 10 0] eq_refl).
  split; [reflexivity | exact (proj2 H 3%nat)].
Defined.

(** ** Arcs with a flag that is not [0] or [1] *)

Section BadFlags.

Variable size : string -> string -> result R.
Variable point : string -> result (R * R * string).
Variable point_angle : R -> R -> R -> R -> R.
Variable rotate : R -> R -> R -> R * R.
Variable quadratic_points : R -> R -> R -> R -> R -> R -> (R * R * R * R * R * R).
Variable float_of_string : string -> result R.
Variable str_of_float : R -> string.

Local Abbreviation step :=
  (Path.step size point point_angle rotate quadratic_points float_of_string
             str_of_float).

(** C1 (amended): an arc command whose arguments parse, whose two flags are
    decimal digits one of which is not [0] or [1], and which is read while
    [last_letter] is neither [None] nor a closepath, is skipped: the
    iteration ends without exception, the only call on the surface is
    [set_tolerance], so that no drawing call is issued, and the current
    point, the vertex stream and [last_letter] are left as they were; the
    arguments of the command are consumed. *)
Theorem arc_with_bad_flag_is_skipped
    (s s1 : Path.state) (l : string) (rx ry rotation : R) (c1 c2 : ascii)
    (x y : R) (rest : string) (f1 f2 : Z) :
  in_tuple (Path.last_letter s) Path.NONE_Z = false ->
  Path.read_letter s = Ok (l, s1) ->
  l = "a" \/ l = "A" ->
  Path.arc_arguments point float_of_string (Path.string_ s1)
  = Ok (rx, ry, rotation, c1, c2, x, y, rest) ->
  int_of_char c1 = Ok f1 ->
  int_of_char c2 = Ok f2 ->
  (f1 <> 0 /\ f1 <> 1)%Z \/ (f2 <> 0 /\ f2 <> 1)%Z ->
  exists s',
    step s = Ok s'
    /\ Path.vertices s' = Path.vertices s
    /\ Path.current_point s' = Path.current_point s
    /\ Path.calls s' = (Path.calls s ++ [set_tolerance (1 / 100000)])%list
    /\ draw_calls (Path.calls s') = draw_calls (Path.calls s)
    /\ Path.last_letter s' = Path.last_letter s
    /\ Path.string_ s' = rest.
Proof.
  intros Hll Hread Hl Hargs Hf1 Hf2 Hbad.
  destruct (read_letter_frame s s1 l Hread (or_introl Hll))
    as (Hv & Hcp & Hcalls & Hll' & _ & _).
  destruct (update_first_path_point_frame l s1) as (Us & Uv & Ucp & Ucalls & Ull & _).
  assert (Hflags : (negb ((f1 =? 0) || (f1 =? 1)) || negb ((f2 =? 0) || (f2 =? 1)))%Z
                   = true).
  { destruct (Z.eqb_spec f1 0), (Z.eqb_spec f1 1), (Z.eqb_spec f2 0), (Z.eqb_spec f2 1);
      cbn; try reflexivity; lia. }
  unfold Path.step. rewrite Hread. cbn [bind].
  set (u := Path.update_first_path_point l s1) in *. clearbody u.
  assert (Hd : Path.dispatch size point point_angle rotate quadratic_points
                             float_of_string str_of_float l u
               = Path.arc_branch point point_angle rotate float_of_string
                                 str_of_float l (Path.string_ u) u).
  { destruct Hl as [-> | ->]; reflexivity. }
  rewrite Hd. unfold Path.arc_branch.
  cbn [Path.current_point Path.emit].
  destruct (Path.current_point u) as [px py] eqn:Ecp.
  rewrite Us, Hargs. cbn [bind]. rewrite Hf1, Hf2. cbn [bind]. rewrite Hflags.
  eexists. split; [reflexivity|].
  cbn. rewrite Uv, Ucalls, Ull, Hv, Hcalls, Hll', <- Hcp, <- Ucp, Ecp.
  repeat split; try reflexivity.
  unfold draw_calls. rewrite filter_app. cbn. now rewrite app_nil_r.
Qed.

End BadFlags.

(** The amended statement at the state reached after [M0 0], with the arc
    [A 5 5 0 2 1 9 9] as the next command. *)
Lemma arc_with_bad_flag_is_skipped_witness :
  exists s',
    Run.step Inputs.after_moveto_bad_arc = Ok s'
    /\ Path.vertices s' = [Some (0, 0)]
    /\ Path.current_point s' = (0, 0)
    /\ Path.calls s' = [move_to 0 0; move_to 0 0; set_tolerance (1 / 100000)]
    /\ Path.string_ s' = "L 3 3".
Proof.
  assert (Hll : in_tuple (Path.last_letter Inputs.after_moveto_bad_arc) Path.NONE_Z
                = false) by reflexivity.
  assert (Hread : Path.read_letter Inputs.after_moveto_bad_arc
                  = Ok ("A", Path.with_letter (Some "A")
                               (Path.with_string "5 5 0 2 1 9 9 L 3 3 "
                                                 Inputs.after_moveto_bad_arc)))
    by reflexivity.
  assert (Hargs : Path.arc_arguments Helpers.point Helpers.float_of_string
                    (Path.string_
                       (Path.with_letter (Some "A")
                          (Path.with_string "5 5 0 2 1 9 9 L 3 3 "
                                            Inputs.after_moveto_bad_arc)))
                  = Ok (5, 5, radians 0, "2"%char, "1"%char, 9, 9, "L 3 3"))
    by (run; reflexivity).
  assert (H1 : int_of_char "2" = Ok 2%Z) by reflexivity.
  assert (H2 : int_of_char "1" = Ok 1%Z) by reflexivity.
  assert (H3 : (2 <> 0 /\ 2 <> 1)%Z \/ (1 <> 0 /\ 1 <> 1)%Z)
    by (left; split; discriminate).
  pose proof (arc_with_bad_flag_is_skipped
                Helpers.size Helpers.point Helpers.point_angle Helpers.rotate
                Helpers.quadratic_points Helpers.float_of_string Run.str_of_float
                Inputs.after_moveto_bad_arc _ "A" 5 5 (radians 0) "2"%char "1"%char
                9 9 "L 3 3" 2 1 Hll Hread (or_intror eq_refl) Hargs H1 H2 H3) as H.
  destruct H as (s' & Hs & Hv & Hcp & Hcalls & _ & _ & Hstr).
  exists s'.
  split; [exact Hs|]. split; [exact Hv|]. split; [exact Hcp|].
  split; [exact Hcalls | exact Hstr].
Defined.

(** C1 (counterexample): interpreting the data [A 5 5 0 1], an arc command
    whose sweep flag and end point are missing, raises [IndexError] (the
    sweep flag is read as [string[0]] of an empty string).  And an arc with
    the flag [2] that opens the data is not without effect on the vertex
    stream: the iteration that reads its letter appends the current point
    to the stream, which was empty. *)
Lemma arc_interpretation_can_raise :
  Run.path 1 None "A 5 5 0 1" = Some (Raise IndexError)
  /\ exists s',
       Run.step (Run.init None "A5 5 0 2 1 9 9") = Ok s'
       /\ Path.vertices (Run.init None "A5 5 0 2 1 9 9") = []
       /\ Path.vertices s' = [Some (0, 0)]
       /\ Path.last_letter s' = None.
Proof.
  split.
  - start_path. erewrite while_string_raise; [reflexivity | run; discriminate | eval_step].
  - eexists. split; [eval_step|]. repeat split; reflexivity.
Qed.

(** ** Arcs with a zero radius, away from the head of a subpath *)

Section ZeroRadius.

Variable size : string -> string -> result R.
Variable point : string -> result (R * R * string).
Variable point_angle : R -> R -> R -> R -> R.
Variable rotate : R -> R -> R -> R * R.
Variable quadratic_points : R -> R -> R -> R -> R -> R -> (R * R * R * R * R * R).
Variable float_of_string : string -> result R.
Variable str_of_float : R -> string.

Local Abbreviation step :=
  (Path.step size point point_angle rotate quadratic_points float_of_string
             str_of_float).

(** An arc command with valid flags and a zero radius, read while
    [last_letter] is neither [None] nor a closepath, draws nothing: it
    replaces the data by a relative lineto to its end point, followed by
    the arc letter when the data goes on with a number, and goes back to
    the head of the loop.  The current point, the vertex stream and
    [last_letter] are left as they were. *)
Lemma arc_with_zero_radius_is_rewritten
    (s s1 : Path.state) (l : string) (rx ry rotation : R) (c1 c2 : ascii)
    (x y : R) (rest : string) (f1 f2 : Z) :
  in_tuple (Path.last_letter s) Path.NONE_Z = false ->
  Path.read_letter s = Ok (l, s1) ->
  l = "a" \/ l = "A" ->
  Path.arc_arguments point float_of_string (Path.string_ s1)
  = Ok (rx, ry, rotation, c1, c2, x, y, rest) ->
  int_of_char c1 = Ok f1 ->
  int_of_char c2 = Ok f2 ->
  (f1 = 0 \/ f1 = 1)%Z ->
  (f2 = 0 \/ f2 = 1)%Z ->
  rx = 0 \/ ry = 0 ->
  exists s',
    step s = Ok s'
    /\ Path.string_ s'
       = ("l "
            ++ str_of_float (if String.eqb l "A"
                             then x - fst (Path.current_point s) else x)
            ++ " "
            ++ str_of_float (if String.eqb l "A"
                             then y - snd (Path.current_point s) else y)
            ++ " "
            ++ match rest with
               | String c _ =>
                   if negb (str_in (chr c) Path.PATH_LETTERS) then l ++ " " else ""
               | EmptyString => ""
               end
            ++ rest)%string
    /\ Path.vertices s' = Path.vertices s
    /\ Path.current_point s' = Path.current_point s
    /\ Path.last_letter s' = Path.last_letter s
    /\ Path.calls s' = (Path.calls s ++ [set_tolerance (1 / 100000)])%list
    /\ Path.first_path_point s'
       = Path.first_path_point (Path.update_first_path_point l s1).
Proof.
  intros Hll Hread Hl Hargs Hf1 Hf2 Hg1 Hg2 Hzero.
  destruct (read_letter_frame s s1 l Hread (or_introl Hll))
    as (Hv & Hcp & Hcalls & Hll' & _ & _).
  destruct (update_first_path_point_frame l s1) as (Us & Uv & Ucp & Ucalls & Ull & _).
  assert (Hflags : (negb ((f1 =? 0) || (f1 =? 1)) || negb ((f2 =? 0) || (f2 =? 1)))%Z
                   = false).
  { destruct Hg1 as [-> | ->], Hg2 as [-> | ->]; reflexivity. }
  assert (Hz : Reqb rx 0 || Reqb ry 0 = true).
  { unfold Reqb. destruct Hzero as [-> | ->].
    - destruct (Req_dec_T 0 0); [reflexivity | congruence].
    - destruct (Req_dec_T rx 0); [reflexivity|].
      destruct (Req_dec_T 0 0); [reflexivity | congruence]. }
  unfold Path.step. rewrite Hread. cbn [bind].
  set (u := Path.update_first_path_point l s1) in *. clearbody u.
  assert (Hd : Path.dispatch size point point_angle rotate quadratic_points
                             float_of_string str_of_float l u
               = Path.arc_branch point point_angle rotate float_of_string
                                 str_of_float l (Path.string_ u) u).
  { destruct Hl as [-> | ->]; reflexivity. }
  rewrite Hd. unfold Path.arc_branch.
  cbn [Path.current_point Path.emit].
  destruct (Path.current_point u) as [px py] eqn:Ecp.
  rewrite Us, Hargs. cbn [bind]. rewrite Hf1, Hf2. cbn [bind]. rewrite Hflags.
  assert (Ecp' : Path.current_point s = (px, py)) by congruence.
  rewrite Ecp'. cbn [fst snd].
  destruct (String.eqb l "A"); rewrite Hz;
    (eexists; split; [reflexivity|]);
    cbn; rewrite Uv, Ucalls, Ull, Hv, Hcalls, Hll', ?Ecp;
    repeat split; reflexivity.
Qed.

End ZeroRadius.
(** ** The relative lineto that replaces an arc with a zero radius *)

Lemma rstrip_space (X : string) :
  rstrip (String " " X) = "" \/ exists r, rstrip (String " " X) = String " " r.
Proof.
  cbn [rstrip]. destruct (rstrip X) as [|c r].
  - left. reflexivity.
  - right. eexists. reflexivity.
Qed.

(** Data that starts with [l] and a space still starts with the token [l]
    once stripped. *)
Lemma strip_lineto (X : string) :
  fst (split1 (strip ("l " ++ X))) = "l"
  /\ fst (Path.split_sp (strip ("l " ++ X))) = "l".
Proof.
  unfold strip.
  assert (Hl : lstrip ("l " ++ X) = String "l" (String " " X)) by reflexivity.
  rewrite Hl.
  assert (Hr : rstrip (String "l" (String " " X))
               = match rstrip (String " " X) with
                 | EmptyString => "l"
                 | String c r => String "l" (String c r)
                 end).
  { cbn [rstrip]. destruct (rstrip X); reflexivity. }
  rewrite Hr.
  destruct (rstrip_space X) as [-> | [r ->]]; split; reflexivity.
Qed.

(** The subpath start computed on lines 156-160 depends on [last_letter],
    the current point and the subpath start it finds only; computing it a
    second time, for a letter that is not a moveto or a closepath, changes
    nothing. *)
Lemma update_first_path_point_again (l1 l2 : string) (a b : Path.state) :
  in_tuple (Some l1) Path.NONE_MZ = false ->
  in_tuple (Some l2) Path.NONE_MZ = false ->
  Path.last_letter b = Path.last_letter a ->
  Path.current_point b = Path.current_point a ->
  Path.first_path_point b
  = Path.first_path_point (Path.update_first_path_point l1 a) ->
  Path.first_path_point (Path.update_first_path_point l2 b)
  = Path.first_path_point (Path.update_first_path_point l2 a).
Proof.
  unfold Path.update_first_path_point. intros H1 H2 Hll Hcp Hf.
  rewrite H1 in Hf. rewrite H2, Hll. cbn [negb andb] in Hf |- *.
  destruct (in_tuple (Path.last_letter a) Path.NONE_MZ).
  - cbn. now rewrite Hcp.
  - destruct (Path.first_path_point a) as [f|] eqn:Ea.
    + cbn in Hf. rewrite Ea in Hf. rewrite Hf. cbn. now rewrite Ea.
    + cbn in Hf. rewrite Hf. cbn. rewrite Hf. reflexivity.
Qed.

Section Lineto.

Variable size : string -> string -> result R.
Variable point : string -> result (R * R * string).
Variable point_angle : R -> R -> R -> R -> R.
Variable rotate : R -> R -> R -> R * R.
Variable quadratic_points : R -> R -> R -> R -> R -> R -> (R * R * R * R * R * R).
Variable float_of_string : string -> result R.
Variable str_of_float : R -> string.

Local Abbreviation step :=
  (Path.step size point point_angle rotate quadratic_points float_of_string
             str_of_float).

(** One iteration on data that starts with an explicit [l], read while
    [last_letter] is neither [None] nor a closepath. *)
Lemma step_relative_lineto (t : Path.state) (X : string) (x y : R) (r : string) :
  Path.string_ t = ("l " ++ X)%string ->
  in_tuple (Path.last_letter t) Path.NONE_Z = false ->
  point (snd (Path.split_sp (strip ("l " ++ X)))) = Ok (x, y, r) ->
  exists t',
    step t = Ok t'
    /\ Path.string_ t' = strip r
    /\ Path.letter t' = Some "l"
    /\ Path.last_letter t' = Some "l"
    /\ Path.current_point t' = Path.padd (Path.current_point t) (x, y)
    /\ Path.vertices t'
       = (Path.vertices t
            ++ [Some (PI - point_angle 0 0 x y, point_angle 0 0 x y);
                Some (Path.padd (Path.current_point t) (x, y))])%list
    /\ Path.calls t' = (Path.calls t ++ [rel_line_to x y])%list
    /\ Path.first_path_point t'
       = Path.first_path_point (Path.update_first_path_point "l" t).
Proof.
  intros Hs Hll Hpt.
  destruct (strip_lineto X) as [H1 H2].
  unfold Path.step, Path.read_letter. rewrite Hs, H1.
  change (str_in "l" Path.PATH_LETTERS) with true. cbv iota.
  destruct (Path.split_sp (strip ("l " ++ X))) as [l' args] eqn:E.
  cbn [fst snd] in H2, Hpt. subst l'.
  cbn [Path.last_letter Path.with_letter Path.with_string].
  rewrite Hll. cbn [andb bind].
  set (t1 := Path.with_letter (Some "l")
               (Path.with_string args (Path.with_string (strip ("l " ++ X)) t))).
  assert (Hf : Path.first_path_point (Path.update_first_path_point "l" t1)
               = Path.first_path_point (Path.update_first_path_point "l" t)).
  { unfold Path.update_first_path_point, t1.
    cbn [Path.last_letter Path.with_letter Path.with_string].
    destruct (in_tuple (Path.last_letter t) Path.NONE_MZ); cbn; [reflexivity|].
    destruct (Path.first_path_point t); reflexivity. }
  destruct (update_first_path_point_frame "l" t1) as (Us & Uv & Ucp & Ucalls & Ull & Ul).
  set (u := Path.update_first_path_point "l" t1) in *. clearbody u.
  change (Path.dispatch size point point_angle rotate quadratic_points
                        float_of_string str_of_float "l" u)
    with (Path.l_branch point point_angle (Path.string_ u) u).
  unfold Path.l_branch. rewrite Us. cbn [Path.string_ t1 Path.with_letter Path.with_string].
  rewrite Hpt. cbn [bind].
  eexists. split; [reflexivity|].
  cbn. rewrite Uv, Ucalls, Ucp, Ul, Hf, <- app_assoc. cbn.
  repeat split; reflexivity.
Qed.

End Lineto.

Lemma update_first_path_point_congr (l : string) (a b : Path.state) :
  Path.last_letter b = Path.last_letter a ->
  Path.current_point b = Path.current_point a ->
  Path.first_path_point b = Path.first_path_point a ->
  Path.first_path_point (Path.update_first_path_point l b)
  = Path.first_path_point (Path.update_first_path_point l a).
Proof.
  unfold Path.update_first_path_point. intros Hll Hcp Hf. rewrite Hll.
  destruct (in_tuple (Path.last_letter a) Path.NONE_MZ);
    destruct (negb (in_tuple (Some l) Path.NONE_MZ)); cbn; rewrite ?Hf, ?Hcp;
    try reflexivity;
    destruct (Path.first_path_point a) eqn:Ea; cbn; rewrite ?Hf, ?Hcp, ?Ea;
    reflexivity.
Qed.

Section ArcAsLineto.

Variable size : string -> string -> result R.
Variable point : string -> result (R * R * string).
Variable point_angle : R -> R -> R -> R -> R.
Variable rotate : R -> R -> R -> R * R.
Variable quadratic_points : R -> R -> R -> R -> R -> R -> (R * R * R * R * R * R).
Variable float_of_string : string -> result R.
Variable str_of_float : R -> string.

Local Abbreviation step :=
  (Path.step size point point_angle rotate quadratic_points float_of_string
             str_of_float).

(** Away from the head of a subpath, an arc with a zero radius acts as the
    relative lineto it is rewritten to: the iteration that rewrites the
    data followed by the iteration that reads the injected [l] leaves the
    data, [last_letter], the current point, the subpath start, the vertex
    stream and the drawing calls that one iteration leaves when it is run,
    from the same state, on the rewritten data. *)
Lemma arc_with_zero_radius_acts_as_lineto
    (s s1 : Path.state) (l : string) (rx ry rotation : R) (c1 c2 : ascii)
    (x y : R) (rest : string) (f1 f2 : Z) (X : string) (dx dy : R) (r : string) :
  in_tuple (Path.last_letter s) Path.NONE_Z = false ->
  Path.read_letter s = Ok (l, s1) ->
  l = "a" \/ l = "A" ->
  Path.arc_arguments point float_of_string (Path.string_ s1)
  = Ok (rx, ry, rotation, c1, c2, x, y, rest) ->
  int_of_char c1 = Ok f1 ->
  int_of_char c2 = Ok f2 ->
  (f1 = 0 \/ f1 = 1)%Z ->
  (f2 = 0 \/ f2 = 1)%Z ->
  rx = 0 \/ ry = 0 ->
  X = (str_of_float (if String.eqb l "A"
                     then x - fst (Path.current_point s) else x)
         ++ " "
         ++ str_of_float (if String.eqb l "A"
                          then y - snd (Path.current_point s) else y)
         ++ " "
         ++ match rest with
            | String c _ =>
                if negb (str_in (chr c) Path.PATH_LETTERS) then l ++ " " else ""
            | EmptyString => ""
            end
         ++ rest)%string ->
  point (snd (Path.split_sp (strip ("l " ++ X)))) = Ok (dx, dy, r) ->
  exists s' s'' t',
    step s = Ok s'
    /\ step s' = Ok s''
    /\ step (Path.with_string ("l " ++ X) s) = Ok t'
    /\ Path.string_ s'' = Path.string_ t'
    /\ Path.last_letter s'' = Path.last_letter t'
    /\ Path.current_point s'' = Path.current_point t'
    /\ Path.first_path_point s'' = Path.first_path_point t'
    /\ Path.vertices s'' = Path.vertices t'
    /\ draw_calls (Path.calls s'') = draw_calls (Path.calls t').
Proof.
  intros Hll Hread Hl Hargs Hf1 Hf2 Hg1 Hg2 Hzero HX Hpt.
  destruct (arc_with_zero_radius_is_rewritten
              size point point_angle rotate quadratic_points float_of_string
              str_of_float s s1 l rx ry rotation c1 c2 x y rest f1 f2
              Hll Hread Hl Hargs Hf1 Hf2 Hg1 Hg2 Hzero)
    as (s' & Hs' & Hstr & Hv & Hcp & Hl' & Hcalls & Hfpp).
  rewrite <- HX in Hstr.
  destruct (read_letter_frame s s1 l Hread (or_introl Hll))
    as (_ & Rcp & _ & Rll & Rfpp & _).
  assert (Hll' : in_tuple (Path.last_letter s') Path.NONE_Z = false)
    by now rewrite Hl'.
  destruct (step_relative_lineto
              size point point_angle rotate quadratic_points float_of_string
              str_of_float s' X dx dy r Hstr Hll' Hpt)
    as (s'' & Hs'' & A1 & _ & A3 & A4 & A5 & A6 & A7).
  destruct (step_relative_lineto
              size point point_angle rotate quadratic_points float_of_string
              str_of_float (Path.with_string ("l " ++ X) s) X dx dy r
              eq_refl Hll Hpt)
    as (t' & Ht' & B1 & _ & B3 & B4 & B5 & B6 & B7).
  exists s', s'', t'.
  split; [exact Hs'|]. split; [exact Hs''|]. split; [exact Ht'|].
  split; [congruence|]. split; [congruence|].
  split; [rewrite A4, B4, Hcp; reflexivity|].
  split.
  { rewrite A7, B7.
    assert (Hnl : in_tuple (Some l) Path.NONE_MZ = false)
      by (destruct Hl as [-> | ->]; reflexivity).
    rewrite (update_first_path_point_again l "l" s s' Hnl eq_refl Hl' Hcp).
    - apply eq_sym, update_first_path_point_congr; reflexivity.
    - rewrite Hfpp. apply update_first_path_point_congr; assumption. }
  split; [rewrite A5, B5, Hv, Hcp; reflexivity|].
  rewrite A6, B6, Hcalls. unfold draw_calls. rewrite !filter_app. cbn.
  now rewrite app_nil_r.
Qed.

End ArcAsLineto.

(** ** Relative smooth cubic commands *)

Section SmoothRelative.

Variable point : string -> result (R * R * string).
Variable point_angle : R -> R -> R -> R -> R.

(** The first control point drawn by [s], relative to the current point,
    is [(x3 - x2, y3 - y2)] when [last_letter] is one of [c s C S] and
    [(0, 0)] otherwise; with the end point of the previous curve in [x3],
    [y3] it is the reflection of [(x2, y2)] through the current point. *)
Lemma s_branch_control_point (string : string) (s s' : Path.state) :
  Path.s_branch point point_angle string s = Ok (Path.Fallthrough s') ->
  exists (b : bool) (rx1 ry1 cx cy ex ey : R),
    Path.py_in (Path.last_letter s) "csCS" = Ok b
    /\ (rx1, ry1)
       = (if b
          then (Path.x3 s - Path.x2 s, Path.y3 s - Path.y2 s)
          else (0, 0))
    /\ Path.calls s' = (Path.calls s ++ [rel_curve_to rx1 ry1 cx cy ex ey])%list
    /\ Path.current_point s' = Path.padd (Path.current_point s) (ex, ey)
    /\ (Path.x1 s', Path.y1 s') = Path.padd (rx1, ry1) (Path.current_point s)
    /\ (Path.x2 s', Path.y2 s') = Path.padd (cx, cy) (Path.current_point s)
    /\ (Path.x3 s', Path.y3 s') = Path.padd (ex, ey) (Path.current_point s).
Proof.
  unfold Path.s_branch. intros H.
  destruct (Path.current_point s) as [x y] eqn:E.
  destruct (Path.py_in (Path.last_letter s) "csCS") as [b|]; simpl in H; [|discriminate].
  destruct (point string) as [[[cx cy] r]|]; simpl in H; [|discriminate].
  destruct (point r) as [[[ex ey] r']|]; simpl in H; [|discriminate].
  injection H as <-.
  exists b, (if b then Path.x3 s - Path.x2 s else 0),
         (if b then Path.y3 s - Path.y2 s else 0), cx, cy, ex, ey.
  cbn. rewrite E. destruct b; repeat split; reflexivity.
Qed.

End SmoothRelative.

(** ** Data that does not start with a command letter *)

(** When the data starts with a number, [letter] still holds the last of
    [PATH_LETTERS], a closepath: the iteration consumes nothing, and the
    loop never ends. *)
Lemma leading_number_never_ends (fuel : nat) :
  Run.path fuel None "10 10" = None.
Proof.
  start_path.
  assert (H0 : Run.init None "10 10"
               = Path.mkState "10 10" (Some "Z") None (0, 0) None 0 0 0 0 0 0
                              [] [move_to 0 0]) by reflexivity.
  rewrite H0. clear H0.
  set (s1 := Path.mkState "10 10" (Some "Z") (Some "Z") (0, 0) None 0 0 0 0 0 0
                          [] [move_to 0 0]).
  assert (H1 : forall n,
             Path.while_string Helpers.size Helpers.point Helpers.point_angle
               Helpers.rotate Helpers.quadratic_points Helpers.float_of_string
               Run.str_of_float n s1 = None).
  { induction n as [|n IH]; [reflexivity|].
    erewrite while_string_step; [exact IH | discriminate | reflexivity]. }
  destruct fuel as [|fuel]; [reflexivity|].
  erewrite while_string_step; [apply H1 | discriminate | reflexivity].
Qed.

(** ** The statements above at concrete states *)

(** The pair of a relative vertical line of length [10]. *)
Lemma vertical_pair_sums_to_zero_witness :
  exists s',
    Path.v_branch Helpers.size "10" Inputs.after_lineto_moveto
    = Ok (Path.Fallthrough s')
    /\ exists a : R,
         Path.vertices s'
         = (Path.vertices Inputs.after_lineto_moveto ++ [Some (- a, a)])%list
         /\ (a = PI / 2 \/ a = - (PI / 2))
         /\ - a + a = 0.
Proof.
  eexists. split; [run; reflexivity|].
  apply (vertical_pair_sums_to_zero Helpers.size "10" Inputs.after_lineto_moveto).
  left. run. reflexivity.
Defined.

(** The smooth curve of [M0 0 C10 0 10 10 20 10 S30 20 40 10]: the control
    point is [(2 * 20 - 10, 2 * 10 - 10)]. *)
Lemma S_branch_reflection_witness :
  exists s',
    Path.S_branch Helpers.point Helpers.point_angle "30 20 40 10" Inputs.after_cubic
    = Ok (Path.Fallthrough s')
    /\ Path.x1 s' = 2 * fst (Path.current_point Inputs.after_cubic)
                    - Path.x2 Inputs.after_cubic
    /\ Path.y1 s' = 2 * snd (Path.current_point Inputs.after_cubic)
                    - Path.y2 Inputs.after_cubic.
Proof.
  eexists. split; [run; reflexivity|].
  apply (S_branch_reflection Helpers.point Helpers.point_angle "30 20 40 10"
           Inputs.after_cubic).
  - run. reflexivity.
  - reflexivity.
  - reflexivity.
Defined.

(** The arc [a 0 5 0 0 1 3 4] after [M1 1 L5 1]: the two iterations it
    takes leave what the lineto [l 3.0 4.0] leaves. *)
Lemma arc_with_zero_radius_acts_as_lineto_witness :
  exists s' s'' t',
    Run.step Inputs.after_lineto_zero_arc = Ok s'
    /\ Run.step s' = Ok s''
    /\ Run.step (Path.with_string "l 3.0 4.0 " Inputs.after_lineto_zero_arc) = Ok t'
    /\ Path.current_point s'' = Path.current_point t'
    /\ Path.vertices s'' = Path.vertices t'
    /\ draw_calls (Path.calls s'') = draw_calls (Path.calls t').
Proof.
  assert (Hread : Path.read_letter Inputs.after_lineto_zero_arc
                  = Ok ("a", Path.with_letter (Some "a")
                               (Path.with_string "0 5 0 0 1 3 4 "
                                                 Inputs.after_lineto_zero_arc)))
    by reflexivity.
  assert (Hargs : Path.arc_arguments Helpers.point Helpers.float_of_string
                    (Path.string_
                       (Path.with_letter (Some "a")
                          (Path.with_string "0 5 0 0 1 3 4 "
                                            Inputs.after_lineto_zero_arc)))
                  = Ok (0, 5, radians 0, "0"%char, "1"%char, 3, 4, ""))
    by (run; reflexivity).
  assert (HX : "3.0 4.0 "
               = (Run.str_of_float
                    (if String.eqb "a" "A"
                     then 3 - fst (Path.current_point Inputs.after_lineto_zero_arc)
                     else 3)
                    ++ " "
                    ++ Run.str_of_float
                         (if String.eqb "a" "A"
                          then 4 - snd (Path.current_point Inputs.after_lineto_zero_arc)
                          else 4)
                    ++ " "
                    ++ match "" with
                       | String c _ =>
                           if negb (str_in (chr c) Path.PATH_LETTERS)
                           then "a" ++ " " else ""
                       | EmptyString => ""
                       end
                    ++ "")%string).
  { run. rewrite !str_of_float_IZR. reflexivity. }
  assert (Hpt : Helpers.point (snd (Path.split_sp (strip ("l " ++ "3.0 4.0 "))))
                = Ok (30 / 10, 40 / 10, "")) by (run; reflexivity).
  destruct (arc_with_zero_radius_acts_as_lineto
              Helpers.size Helpers.point Helpers.point_angle Helpers.rotate
              Helpers.quadratic_points Helpers.float_of_string Run.str_of_float
              Inputs.after_lineto_zero_arc _ "a" 0 5 (radians 0) "0"%char "1"%char
              3 4 "" 0 1 "3.0 4.0 " (30 / 10) (40 / 10) ""
              eq_refl Hread (or_introl eq_refl) Hargs eq_refl eq_refl
              (or_introl eq_refl) (or_intror eq_refl) (or_introl eq_refl) HX Hpt)
    as (s' & s'' & t' & H1 & H2 & H3 & _ & _ & H4 & _ & H5 & H6).
  exists s', s'', t'.
  split; [exact H1|]. split; [exact H2|]. split; [exact H3|].
  split; [exact H4|]. split; [exact H5 | exact H6].
Defined.

(** The states above are the ones the interpreter reaches. *)
Lemma inputs_are_reached :
  (exists s, Run.path 1 None "M0 0" = Some (Ok s)
             /\ Path.with_string "A 5 5 0 2 1 9 9 L 3 3" s = Inputs.after_moveto_bad_arc)
  /\ (exists s, Run.path 2 None "M0 0 L10 0" = Some (Ok s)
                /\ Path.with_string "M 5 5" s = Inputs.after_lineto_moveto)
  /\ (exists s, Run.path 2 None "M0 0 C10 0 10 10 20 10" = Some (Ok s)
                /\ Path.with_string "S 30 20 40 10" s = Inputs.after_cubic)
  /\ (exists s, Run.path 2 None "M1 1 L5 1" = Some (Ok s)
                /\ Path.with_string "a 0 5 0 0 1 3 4" s = Inputs.after_lineto_zero_arc).
Proof.
  split; [|split; [|split]]; eexists.
  - split; [start_path; do 1 one_step; end_path | reflexivity].
  - split; [start_path; do 2 one_step; end_path|].
    unfold Path.with_string, Inputs.after_lineto_moveto. cbn.
    rewrite (point_angle_east 0 0 10) by lra. reflexivity.
  - split; [start_path; do 2 one_step; end_path | reflexivity].
  - split; [start_path; do 2 one_step; end_path|].
    unfold Path.with_string, Inputs.after_lineto_zero_arc. cbn.
    rewrite (point_angle_east 1 1 5) by lra. reflexivity.
Qed.

(** ** The circle found by the arc converter *)

Section ArcCircle.

Variable point_angle : R -> R -> R -> R -> R.
Variable rotate : R -> R -> R -> R * R.

(** The number whose square root gives the offset of the centre is never
    negative, whatever the radii, and the centre found in the local frame,
    [(xc, yc)], is at the distance [rx] (the corrected radius) from the
    start point [(0, 0)] and from the end point [(d, 0)]. *)
Theorem arc_centre_is_equidistant
    (rx ry rotation : R) (large sweep : bool) (x3 y3 : R) :
  let g := Path.arc_convert point_angle rotate rx ry rotation large sweep x3 y3 in
  0 <= Path.rx_upd g ^ 2 - Path.xc0 g ^ 2
  /\ Path.xc0 g ^ 2 + Path.yc_signed g ^ 2 = Path.rx_upd g ^ 2
  /\ (Path.dist g - Path.xc0 g) ^ 2 + Path.yc_signed g ^ 2 = Path.rx_upd g ^ 2.
Proof.
  unfold Path.arc_convert.
  destruct (rotate x3 y3 (- rotation)) as [xe ye].
  set (d := hypot xe (ye / (ry / rx))).
  destruct (rotate d 0 (point_angle 0 0 xe (ye / (ry / rx)))) as [xe' ye'].
  set (m := Rmax rx (d / 2)).
  set (yc := sqrt (m ^ 2 - (d / 2) ^ 2)).
  destruct (rotate (d / 2) (if negb (xorb large sweep) then - yc else yc)
                   (point_angle 0 0 xe (ye / (ry / rx)))) as [xc' yc'].
  cbn zeta. cbn [Path.dist Path.rx_upd Path.xc0 Path.yc0 Path.yc_signed].
  assert (Hd : 0 <= d) by apply sqrt_pos.
  assert (Hm : d / 2 <= m) by apply Rmax_r.
  assert (Hrad : 0 <= m ^ 2 - (d / 2) ^ 2) by nra.
  assert (Hyc : yc ^ 2 = m ^ 2 - (d / 2) ^ 2).
  { unfold yc. rewrite <- Rsqr_pow2. now apply Rsqr_sqrt. }
  assert (Hs : (if negb (xorb large sweep) then - yc else yc) ^ 2 = yc ^ 2)
    by (destruct (negb (xorb large sweep)); ring).
  split; [exact Hrad|]. rewrite Hs, Hyc. split; field.
Qed.

(** The end point of the arc in the frame the arc is drawn in (after
    [translate], [rotate] and [scale]) is the point lines 205-206 compute,
    [rotate(x3, y3, -rotation)] with its ordinate divided by the ratio of
    the radii.  When [rotate] moves points as a rotation about the origin
    does (it keeps the distance of a point from the origin and the distance
    between two points rotated by the same angle) and [point_angle] gives
    the angle by which [(hypot x y, 0)] is rotated onto [(x, y)], the centre
    passed to the arc call is at the distance [rx] (the radius passed) from
    the start point [(0, 0)] and from that end point, and the point the
    code rotates back is that end point. *)
Theorem arc_call_centre_is_equidistant
    (rx ry rotation : R) (large sweep : bool) (x3 y3 : R) :
  (forall x y a, fst (rotate x y a) ^ 2 + snd (rotate x y a) ^ 2 = x ^ 2 + y ^ 2) ->
  (forall x y u v a,
      (fst (rotate x y a) - fst (rotate u v a)) ^ 2
      + (snd (rotate x y a) - snd (rotate u v a)) ^ 2
      = (x - u) ^ 2 + (y - v) ^ 2) ->
  (forall x y, rotate (hypot x y) 0 (point_angle 0 0 x y) = (x, y)) ->
  let g := Path.arc_convert point_angle rotate rx ry rotation large sweep x3 y3 in
  let e := rotate x3 y3 (- rotation) in
  Path.end_back g = (fst e, snd e / (ry / rx))
  /\ fst (Path.centre g) ^ 2 + snd (Path.centre g) ^ 2 = Path.rx_upd g ^ 2
  /\ (fst e - fst (Path.centre g)) ^ 2
     + (snd e / (ry / rx) - snd (Path.centre g)) ^ 2
     = Path.rx_upd g ^ 2.
Proof.
  intros Hnorm Hdist Hpolar.
  pose proof (arc_centre_is_equidistant rx ry rotation large sweep x3 y3) as H.
  cbv zeta in H. destruct H as (_ & H1 & H2). revert H1 H2.
  unfold Path.arc_convert.
  destruct (rotate x3 y3 (- rotation)) as [xe ye].
  pose proof (Hpolar xe (ye / (ry / rx))) as P. revert P.
  set (d := hypot xe (ye / (ry / rx))).
  set (al := point_angle 0 0 xe (ye / (ry / rx))).
  set (m := Rmax rx (d / 2)).
  set (ys := if negb (xorb large sweep) then - sqrt (m ^ 2 - (d / 2) ^ 2)
             else sqrt (m ^ 2 - (d / 2) ^ 2)).
  pose proof (Hnorm (d / 2) ys al) as N.
  pose proof (Hdist d 0 (d / 2) ys al) as D.
  destruct (rotate d 0 al) as [xe' ye'].
  destruct (rotate (d / 2) ys al) as [xc' yc'].
  cbn zeta.
  cbn [Path.dist Path.rx_upd Path.xc0 Path.yc0 Path.yc_signed Path.centre
       Path.end_back fst snd] in *.
  intros P H1 H2. injection P as -> ->.
  split; [reflexivity|]. split; [lra|]. rewrite D. lra.
Qed.

End ArcCircle.

Lemma rotate_keeps_norm (x y a : R) :
  fst (Helpers.rotate x y a) ^ 2 + snd (Helpers.rotate x y a) ^ 2 = x ^ 2 + y ^ 2.
Proof.
  unfold Helpers.rotate. cbn [fst snd].
  pose proof (sin2_cos2 a) as H. unfold Rsqr in H.
  transitivity ((x ^ 2 + y ^ 2) * (sin a * sin a + cos a * cos a)); [ring|].
  rewrite H. ring.
Qed.

Lemma rotate_keeps_distance (x y u v a : R) :
  (fst (Helpers.rotate x y a) - fst (Helpers.rotate u v a)) ^ 2
  + (snd (Helpers.rotate x y a) - snd (Helpers.rotate u v a)) ^ 2
  = (x - u) ^ 2 + (y - v) ^ 2.
Proof.
  unfold Helpers.rotate. cbn [fst snd].
  pose proof (sin2_cos2 a) as H. unfold Rsqr in H.
  transitivity (((x - u) ^ 2 + (y - v) ^ 2) * (sin a * sin a + cos a * cos a));
    [ring|].
  rewrite H. ring.
Qed.

(** ** The helper instances describe a rotation and its angle *)

Lemma hypot_factor (x y : R) :
  x <> 0 -> hypot x y = Rabs x * sqrt (1 + (y / x)²).
Proof.
  intros Hx. unfold hypot.
  rewrite <- (sqrt_Rsqr_abs x), <- sqrt_mult.
  - f_equal. unfold Rsqr. field. exact Hx.
  - apply Rle_0_sqr.
  - pose proof (Rle_0_sqr (y / x)). lra.
Qed.

Lemma sqrt_one_plus_sqr_pos (t : R) : 0 < sqrt (1 + t²).
Proof. apply sqrt_lt_R0. pose proof (Rle_0_sqr t). lra. Qed.

Lemma hypot_cos_atan (x y : R) :
  x <> 0 -> hypot x y * cos (atan (y / x)) = Rabs x.
Proof.
  intros Hx. rewrite (hypot_factor x y Hx), cos_atan.
  pose proof (sqrt_one_plus_sqr_pos (y / x)). field. lra.
Qed.

Lemma hypot_sin_atan (x y : R) :
  x <> 0 -> hypot x y * sin (atan (y / x)) = Rabs x * (y / x).
Proof.
  intros Hx. rewrite (hypot_factor x y Hx), sin_atan.
  pose proof (sqrt_one_plus_sqr_pos (y / x)). field. lra.
Qed.

(** Rotating the point [(hypot x y, 0)] by the angle of [(x, y)] gives
    [(x, y)] back. *)
Lemma rotate_to_direction (x y : R) :
  Helpers.rotate (hypot x y) 0 (Helpers.point_angle 0 0 x y) = (x, y).
Proof.
  unfold Helpers.rotate, Helpers.point_angle, Helpers.atan2.
  replace (y - 0) with y by lra. replace (x - 0) with x by lra.
  destruct (Rlt_dec 0 x) as [Hp | Hp].
  - pose proof (hypot_cos_atan x y) as Hc. pose proof (hypot_sin_atan x y) as Hs.
    rewrite Rabs_pos_eq in Hc, Hs by lra.
    f_equal; [rewrite Rmult_0_l, Rminus_0_r, Hc by lra; reflexivity|].
    rewrite Rmult_0_l, Rplus_0_l, Hs by lra. field. lra.
  - destruct (Rlt_dec x 0) as [Hn | Hn].
    + pose proof (hypot_cos_atan x y) as Hc. pose proof (hypot_sin_atan x y) as Hs.
      rewrite Rabs_left in Hc, Hs by lra.
      assert (Hc' : hypot x y * cos (atan (y / x)) = - x) by (apply Hc; lra).
      assert (Hs' : hypot x y * sin (atan (y / x)) = - y)
        by (rewrite Hs by lra; field; lra).
      destruct (Rlt_dec y 0).
      * rewrite cos_minus, sin_minus, cos_PI, sin_PI. f_equal; nra.
      * rewrite cos_plus, sin_plus, cos_PI, sin_PI. f_equal; nra.
    + assert (Hx : x = 0) by lra. subst x.
      assert (Hh : hypot 0 y = Rabs y).
      { unfold hypot. replace (0 * 0 + y * y) with (y²) by (unfold Rsqr; ring).
        apply sqrt_Rsqr_abs. }
      rewrite Hh.
      destruct (Rlt_dec 0 y).
      * rewrite cos_PI2, sin_PI2, Rabs_pos_eq by lra. f_equal; lra.
      * destruct (Rlt_dec y 0).
        -- rewrite cos_neg, sin_neg, cos_PI2, sin_PI2, Rabs_left by lra. f_equal; lra.
        -- assert (Hy : y = 0) by lra. subst y.
           rewrite Rabs_R0. f_equal; lra.
Qed.

(** The statement with the helper instances, for radii [5] and an end
    point at [(0, 6)], straight above the start point. *)
Lemma arc_call_centre_is_equidistant_witness :
  Path.end_back (Path.arc_convert Helpers.point_angle Helpers.rotate 5 5 0 false false 0 6)
  = (fst (Helpers.rotate 0 6 (- 0)), snd (Helpers.rotate 0 6 (- 0)) / (5 / 5))
  /\ fst (Path.centre (Path.arc_convert Helpers.point_angle Helpers.rotate 5 5 0 false false 0 6)) ^ 2
     + snd (Path.centre (Path.arc_convert Helpers.point_angle Helpers.rotate 5 5 0 false false 0 6)) ^ 2
     = Path.rx_upd (Path.arc_convert Helpers.point_angle Helpers.rotate 5 5 0 false false 0 6) ^ 2
  /\ (fst (Helpers.rotate 0 6 (- 0))
      - fst (Path.centre (Path.arc_convert Helpers.point_angle Helpers.rotate 5 5 0 false false 0 6))) ^ 2
     + (snd (Helpers.rotate 0 6 (- 0)) / (5 / 5)
        - snd (Path.centre (Path.arc_convert Helpers.point_angle Helpers.rotate 5 5 0 false false 0 6))) ^ 2
     = Path.rx_upd (Path.arc_convert Helpers.point_angle Helpers.rotate 5 5 0 false false 0 6) ^ 2.
Proof.
  exact (arc_call_centre_is_equidistant
           Helpers.point_angle Helpers.rotate 5 5 0 false false 0 6
           rotate_keeps_norm rotate_keeps_distance rotate_to_direction).
Defined.

(** ** What an iteration adds to the stream and to the trace *)

Lemma stack_depth_app (a b : list call) :
  forall d : nat,
    Trace.stack_depth d (a ++ b)
    = match Trace.stack_depth d a with
      | Some d' => Trace.stack_depth d' b
      | None => None
      end.
Proof.
  induction a as [|c a IH]; intros d; [reflexivity|].
  destruct c; cbn [app Trace.stack_depth]; try apply IH.
  destruct d; [reflexivity | apply IH].
Qed.

Lemma balanced_app (a b : list call) :
  Trace.balanced a -> Trace.balanced b -> Trace.balanced (a ++ b).
Proof. intros Ha Hb d. now rewrite stack_depth_app, Ha, Hb. Qed.

Lemma balanced_nil : Trace.balanced [].
Proof. intros d. reflexivity. Qed.

(** Destructs the results the body of a branch binds, one after the
    other. *)
Ltac branch_cases H :=
  repeat
    (cbn [bind] in H;
     match type of H with
     | context [bind ?r _] =>
         let E := fresh "E" in
         destruct r eqn:E; cbn [bind] in H; [|discriminate H]
     | context [match ?p with pair _ _ => _ end] =>
         let E := fresh "E" in destruct p eqn:E
     | context [if ?b then _ else _] =>
         let E := fresh "E" in destruct b eqn:E
     end).

Ltac same_or_more :=
  cbn; rewrite <- ?app_assoc;
  first [reflexivity | symmetry; apply app_nil_r].

Ltac frame_done :=
  eexists; eexists;
  split; [same_or_more|];
  split; [same_or_more|];
  split; [intros d; reflexivity | cbn; lia].

Section Frame.

Variable size : string -> string -> result R.
Variable point : string -> result (R * R * string).
Variable point_angle : R -> R -> R -> R -> R.
Variable rotate : R -> R -> R -> R * R.
Variable quadratic_points : R -> R -> R -> R -> R -> R -> (R * R * R * R * R * R).
Variable float_of_string : string -> result R.
Variable str_of_float : R -> string.

Local Abbreviation step :=
  (Path.step size point point_angle rotate quadratic_points float_of_string
             str_of_float).
Local Abbreviation dispatch :=
  (Path.dispatch size point point_angle rotate quadratic_points float_of_string
                 str_of_float).
Local Abbreviation while_string :=
  (Path.while_string size point point_angle rotate quadratic_points
                     float_of_string str_of_float).

Lemma dispatch_extends (l : string) (u : Path.state) (f : Path.flow) :
  dispatch l u = Ok f -> Trace.extends 1 u (Trace.flow_state f).
Proof.
  unfold Path.dispatch. intros H.
  repeat match type of H with
         | (if ?b then _ else _) = _ => destruct b
         end.
  - unfold Path.arc_branch in H. branch_cases H;
      injection H as <-; unfold Trace.extends; frame_done.
  - unfold Path.c_branch in H. branch_cases H;
      injection H as <-; unfold Trace.extends; frame_done.
  - unfold Path.C_branch in H. branch_cases H;
      injection H as <-; unfold Trace.extends; frame_done.
  - unfold Path.h_branch in H. branch_cases H;
      injection H as <-; unfold Trace.extends; frame_done.
  - unfold Path.H_branch in H. branch_cases H;
      injection H as <-; unfold Trace.extends; frame_done.
  - unfold Path.l_branch in H. branch_cases H;
      injection H as <-; unfold Trace.extends; frame_done.
  - unfold Path.L_branch in H. branch_cases H;
      injection H as <-; unfold Trace.extends; frame_done.
  - unfold Path.m_branch, Path.subpath_break in H. branch_cases H;
      injection H as <-; unfold Trace.extends; frame_done.
  - unfold Path.M_branch, Path.subpath_break in H. branch_cases H;
      injection H as <-; unfold Trace.extends; frame_done.
  - unfold Path.q_branch, Path.emit_curve in H. branch_cases H;
      injection H as <-; unfold Trace.extends; frame_done.
  - unfold Path.Q_branch, Path.emit_curve in H. branch_cases H;
      injection H as <-; unfold Trace.extends; frame_done.
  - unfold Path.s_branch in H. branch_cases H;
      injection H as <-; unfold Trace.extends; frame_done.
  - unfold Path.S_branch in H. branch_cases H;
      injection H as <-; unfold Trace.extends; frame_done.
  - unfold Path.t_branch, Path.emit_curve in H. branch_cases H;
      injection H as <-; unfold Trace.extends; frame_done.
  - unfold Path.T_branch, Path.emit_curve in H. branch_cases H;
      injection H as <-; unfold Trace.extends; frame_done.
  - unfold Path.v_branch in H. branch_cases H;
      injection H as <-; unfold Trace.extends; frame_done.
  - unfold Path.V_branch in H. branch_cases H;
      injection H as <-; unfold Trace.extends; frame_done.
  - destruct (Path.first_path_point u); [unfold Path.z_branch in H|];
      injection H as <-; unfold Trace.extends; frame_done.
  - injection H as <-. unfold Trace.extends. frame_done.
Qed.

Lemma extends_trans (n m : nat) (a b c : Path.state) :
  Trace.extends n a b -> Trace.extends m b c -> Trace.extends (n + m) a c.
Proof.
  unfold Trace.extends.
  intros (vs & cs & Hv & Hc & Hb & Hn) (vs' & cs' & Hv' & Hc' & Hb' & Hn').
  exists (vs ++ vs')%list, (cs ++ cs')%list.
  rewrite Hv', Hv, Hc', Hc, !app_assoc, length_app.
  split; [reflexivity|]. split; [reflexivity|].
  split; [now apply balanced_app | lia].
Qed.

Lemma read_letter_extends (s s1 : Path.state) (l : string) :
  Path.read_letter s = Ok (l, s1) -> Trace.extends 1 s s1.
Proof.
  unfold Path.read_letter. intros H.
  destruct (str_in _ Path.PATH_LETTERS).
  - destruct (Path.split_sp _) as [l' r].
    destruct (_ && _); injection H as <- <-; unfold Trace.extends; frame_done.
  - destruct (Path.letter _); [|discriminate].
    injection H as <- <-. unfold Trace.extends. frame_done.
Qed.

Lemma update_first_path_point_extends (l : string) (s : Path.state) :
  Trace.extends 0 s (Path.update_first_path_point l s).
Proof.
  destruct (update_first_path_point_frame l s) as (_ & Hv & _ & Hc & _).
  exists [], []. rewrite Hv, Hc, !app_nil_r.
  split; [reflexivity|]. split; [reflexivity|].
  split; [apply balanced_nil | apply le_n].
Qed.

Lemma finish_extends (l : string) (s : Path.state) :
  Trace.extends 1 s (Path.finish l s).
Proof.
  unfold Path.finish. destruct (negb _); unfold Trace.extends; frame_done.
Qed.

(** One iteration adds at most three entries to the vertex stream (the
    point that seeds a subpath, a tangent pair or a break, and the new
    current point) and removes none; the calls it adds to the trace pair
    every [save] with a [restore]. *)
Lemma step_extends (s s' : Path.state) :
  step s = Ok s' -> Trace.extends 3 s s'.
Proof.
  unfold Path.step. intros H.
  destruct (Path.read_letter s) as [[l s1]|] eqn:Er; cbn [bind] in H; [|discriminate].
  destruct (dispatch l (Path.update_first_path_point l s1)) as [f|] eqn:Ed;
    cbn [bind] in H; [|discriminate].
  pose proof (read_letter_extends _ _ _ Er) as H1.
  pose proof (update_first_path_point_extends l s1) as H2.
  pose proof (dispatch_extends _ _ _ Ed) as H3.
  pose proof (extends_trans _ _ _ _ _ (extends_trans _ _ _ _ _ H1 H2) H3) as H4.
  destruct f as [u|u]; injection H as <-; cbn [Trace.flow_state] in H4.
  - apply (extends_trans _ _ _ _ _ H4 (finish_extends l u)).
  - destruct H4 as (vs & cs & Hv & Hc & Hb & Hn).
    exists vs, cs. split; [exact Hv|]. split; [exact Hc|].
    split; [exact Hb | cbn in Hn; lia].
Qed.

Lemma while_string_balanced (fuel : nat) :
  forall s s' : Path.state,
    while_string fuel s = Some (Ok s') ->
    exists cs, Path.calls s' = (Path.calls s ++ cs)%list /\ Trace.balanced cs.
Proof.
  induction fuel as [|fuel IH]; intros s s' H.
  - cbn in H. destruct (Path.string_ s); [|discriminate].
    injection H as <-. exists []. split; [now rewrite app_nil_r | apply balanced_nil].
  - cbn in H. destruct (Path.string_ s).
    + injection H as <-. exists [].
      split; [now rewrite app_nil_r | apply balanced_nil].
    + destruct (step s) as [s1|e] eqn:Es; [|discriminate].
      destruct (step_extends _ _ Es) as (_ & cs & _ & Hc & Hb & _).
      destruct (IH _ _ H) as (cs' & Hc' & Hb').
      exists (cs ++ cs')%list. rewrite Hc', Hc, app_assoc.
      split; [reflexivity | now apply balanced_app].
Qed.

Variable normalize : string -> string.

(** When [path] returns, the calls it has made on the surface pair every
    [save] with a later [restore]: whatever the data, the stack of saved
    states of the surface is as deep on return as it was on entry, and it
    never went below that depth. *)
Theorem path_keeps_stack_balanced
    (fuel : nat) (cp : option pt) (d : string) (s : Path.state) :
  Path.path normalize size point point_angle rotate quadratic_points
            float_of_string str_of_float fuel cp d = Some (Ok s) ->
  Trace.balanced (Path.calls s).
Proof.
  unfold Path.path. intros H.
  destruct (while_string_balanced _ _ _ H) as (cs & Hc & Hb).
  rewrite Hc. apply balanced_app; [|exact Hb].
  unfold Path.init. destruct cp; intros n; reflexivity.
Qed.

End Frame.

Lemma arc_path_runs :
  exists s,
    Path.path Helpers.normalize Helpers.size Helpers.point Helpers.point_angle
              Helpers.rotate Helpers.quadratic_points Helpers.float_of_string
              Run.str_of_float 2 None "M0 0 A5 5 0 0 1 6 0" = Some (Ok s)
    /\ List.In save (Path.calls s).
Proof.
  eexists. split.
  - unfold Path.path. do 2 one_step. end_path.
  - cbn [Path.calls]. right; right; right; left; reflexivity.
Qed.

(** The statement for data that draws an arc, whose calls hold a [save]
    and a [restore]. *)
Lemma path_keeps_stack_balanced_witness :
  exists s,
    Path.path Helpers.normalize Helpers.size Helpers.point Helpers.point_angle
              Helpers.rotate Helpers.quadratic_points Helpers.float_of_string
              Run.str_of_float 2 None "M0 0 A5 5 0 0 1 6 0" = Some (Ok s)
    /\ List.In save (Path.calls s)
    /\ Trace.balanced (Path.calls s).
Proof.
  destruct arc_path_runs as (s & Hs & Hin).
  exists s. split; [exact Hs|]. split; [exact Hin|].
  exact (path_keeps_stack_balanced
           Helpers.size Helpers.point Helpers.point_angle Helpers.rotate
           Helpers.quadratic_points Helpers.float_of_string Run.str_of_float
           Helpers.normalize 2 None "M0 0 A5 5 0 0 1 6 0" s Hs).
Defined.

(** ** The walk on a node without marker references *)

Section NoMarkers.

Variable fragment : string -> string.
Variable size : string -> string -> result R.
Variable viewbox : Markers.marker_node -> result (option Markers.box).
Variable preserve_ratio : Markers.marker_node -> result (R * R * R * R).
Variable clip_marker_box : Markers.marker_node -> R -> R -> result (option Markers.box).
Variable calculate_bounding_box : Markers.marker_node -> result Markers.box.
Variable float_of_string : string -> result R.
Variable surface_markers : string -> option Markers.marker_node.
Variable stroke_width : string.
Variable node : string -> option string.

Local Abbreviation iteration :=
  (Markers.iteration fragment size viewbox preserve_ratio clip_marker_box
                     calculate_bounding_box float_of_string surface_markers
                     stroke_width node).
Local Abbreviation while_vertices :=
  (Markers.while_vertices fragment size viewbox preserve_ratio clip_marker_box
                          calculate_bounding_box float_of_string surface_markers
                          stroke_width node).
Local Abbreviation draw_markers :=
  (Markers.draw_markers fragment size viewbox preserve_ratio clip_marker_box
                        calculate_bounding_box float_of_string surface_markers
                        stroke_width node).

Hypothesis no_reference : forall p, Markers.markers fragment node p = "".

Lemma iteration_without_reference (s : Markers.state) :
  Markers.vertices s <> [] ->
  Trace.tracks_angle s ->
  exists s',
    iteration s = Ok s'
    /\ Markers.calls s' = Markers.calls s
    /\ (List.length (Markers.vertices s') < List.length (Markers.vertices s))%nat
    /\ Trace.tracks_angle s'.
Proof.
  unfold Markers.iteration, Trace.tracks_angle. intros Hne Hinv.
  destruct (Markers.vertices s) as [|p [|[[g0 g1]|] vs]]; [congruence| | |].
  - cbn [Markers.orientation bind]. rewrite no_reference. cbn [bind].
    eexists. split; [reflexivity|]. cbn. repeat split; auto.
  - destruct Hinv as [Hs | [a Ha]].
    + rewrite Hs. cbn [Markers.orientation Markers.position_eqb bind].
      rewrite no_reference. cbn [bind].
      eexists. split; [reflexivity|]. cbn. repeat split; [lia | eauto].
    + rewrite Ha. unfold Markers.orientation.
      destruct (Markers.position_eqb (Markers.pos s) Markers.start);
        cbn [bind Markers.add_opt]; rewrite no_reference; cbn [bind];
        (eexists; split; [reflexivity|]); cbn; repeat split; solve [lia | eauto].
  - cbn [Markers.orientation bind]. rewrite no_reference. cbn [bind].
    eexists. split; [reflexivity|]. cbn. repeat split; auto.
Qed.

Lemma while_vertices_without_reference (fuel : nat) :
  forall s : Markers.state,
    Trace.tracks_angle s ->
    (List.length (Markers.vertices s) <= fuel)%nat ->
    exists s',
      while_vertices fuel s = Some (Ok s')
      /\ Markers.vertices s' = []
      /\ Markers.calls s' = Markers.calls s.
Proof.
  induction fuel as [|fuel IH]; intros s Hinv Hlen.
  - destruct (Markers.vertices s) eqn:E; [|cbn in Hlen; lia].
    exists s. cbn. rewrite E. repeat split; assumption.
  - cbn. destruct (Markers.vertices s) eqn:E.
    + exists s. repeat split; assumption.
    + destruct (iteration_without_reference s) as (s1 & H1 & Hc & Hl & Hi);
        [rewrite E; discriminate | exact Hinv |].
      rewrite H1. destruct (IH s1 Hi) as (s' & Hw & Hv & Hc').
      * rewrite E in Hl. cbn in Hl, Hlen. lia.
      * exists s'. rewrite Hc', Hc. repeat split; assumption.
Qed.

(** On a node that refers to no marker, at any position, [draw_markers]
    returns for every vertex stream, whatever its entries: it raises no
    exception, makes no call on the surface and leaves the stream empty. *)
Theorem draw_markers_without_references
    (fuel : nat) (l : list vertex) (t : list call) :
  (List.length l <= fuel)%nat ->
  draw_markers fuel (Some l) t = Some (Ok (Some [], t)).
Proof.
  intros Hlen. unfold Markers.draw_markers.
  destruct l as [|p l]; [reflexivity|].
  destruct (while_vertices_without_reference fuel
              (Markers.mkState (p :: l) Markers.start None None None None t))
    as (s' & Hw & Hv & Hc); [left; reflexivity | exact Hlen |].
  rewrite Hw, Hv, Hc. reflexivity.
Qed.

End NoMarkers.

(** The statement on a node without marker attributes, for a stream whose
    entries are not even in the order the interpreter produces. *)
Lemma draw_markers_without_references_witness :
  Markers.draw_markers Inputs.fragment Helpers.size Inputs.viewbox
    Inputs.preserve_ratio Inputs.clip_marker_box Inputs.calculate_bounding_box
    Helpers.float_of_string Inputs.no_markers "1" Inputs.plain_node
    4 (Some [None; Some (1, 2); None; None]) [move_to 0 0]
  = Some (Ok (Some [], [move_to 0 0])).
Proof.
  exact (draw_markers_without_references
           Inputs.fragment Helpers.size Inputs.viewbox Inputs.preserve_ratio
           Inputs.clip_marker_box Inputs.calculate_bounding_box
           Helpers.float_of_string Inputs.no_markers "1" Inputs.plain_node
           (fun p => eq_refl) 4 [None; Some (1, 2); None; None] [move_to 0 0]
           (le_n 4)).
Defined.

(** ** The calls of the marker engine *)

Section MarkerCalls.

Variable fragment : string -> string.
Variable size : string -> string -> result R.
Variable viewbox : Markers.marker_node -> result (option Markers.box).
Variable preserve_ratio : Markers.marker_node -> result (R * R * R * R).
Variable clip_marker_box : Markers.marker_node -> R -> R -> result (option Markers.box).
Variable calculate_bounding_box : Markers.marker_node -> result Markers.box.
Variable float_of_string : string -> result R.
Variable surface_markers : string -> option Markers.marker_node.
Variable stroke_width : string.
Variable node : string -> option string.

Local Abbreviation draw_marker :=
  (Markers.draw_marker size viewbox preserve_ratio clip_marker_box
                       calculate_bounding_box float_of_string surface_markers
                       stroke_width).
Local Abbreviation iteration :=
  (Markers.iteration fragment size viewbox preserve_ratio clip_marker_box
                     calculate_bounding_box float_of_string surface_markers
                     stroke_width node).
Local Abbreviation while_vertices :=
  (Markers.while_vertices fragment size viewbox preserve_ratio clip_marker_box
                          calculate_bounding_box float_of_string surface_markers
                          stroke_width node).
Local Abbreviation draw_markers :=
  (Markers.draw_markers fragment size viewbox preserve_ratio clip_marker_box
                        calculate_bounding_box float_of_string surface_markers
                        stroke_width node).

Lemma draw_child_balanced (m : Markers.marker_node) (point : vertex) (angle sc : R)
    (f : R * R * R * R * option Markers.box) (child : nat) (t t' : list call) :
  Markers.draw_child m point angle sc f child t = Ok t' ->
  exists cs, t' = (t ++ cs)%list /\ Trace.balanced cs.
Proof.
  unfold Markers.draw_child, Markers.emit. intros H.
  destruct f as [[[[sx sy] tx] ty] [[[[bx by_] bw] bh]|]];
    destruct point as [[px py]|]; try discriminate;
    try destruct (_ || _);
    injection H as <-; eexists;
    (split; [rewrite <- ?app_assoc; reflexivity | intros d; reflexivity]).
Qed.

Lemma draw_children_balanced (m : Markers.marker_node) (point : vertex)
    (angle sc : R) (f : R * R * R * R * option Markers.box) (cs : list nat) :
  forall t t' : list call,
    Markers.draw_children m point angle sc f cs t = Ok t' ->
    exists added, t' = (t ++ added)%list /\ Trace.balanced added.
Proof.
  induction cs as [|c cs IH]; intros t t' H; cbn [Markers.draw_children] in H.
  - injection H as <-. exists []. split; [now rewrite app_nil_r | apply balanced_nil].
  - destruct (Markers.draw_child m point angle sc f c t) as [t1|] eqn:E;
      cbn [bind] in H; [|discriminate].
    destruct (draw_child_balanced _ _ _ _ _ _ _ _ E) as (a1 & -> & B1).
    destruct (IH _ _ H) as (a2 & -> & B2).
    exists (a1 ++ a2)%list. split; [now rewrite app_assoc | now apply balanced_app].
Qed.

(** A marker is drawn on a scratch path: its calls start with [copy_path]
    and [new_path] and end with [append_path]; between them every [save]
    is paired with a [restore]. *)
Lemma draw_marker_balanced (marker : string) (p : Markers.position)
    (point : vertex) (angle angle' : option R) (t t' : list call) :
  draw_marker marker p point angle t = Ok (angle', t') ->
  exists added,
    t' = (t ++ copy_path :: new_path :: added ++ [append_path])%list
    /\ Trace.balanced added.
Proof.
  unfold Markers.draw_marker, Markers.emit. intros H.
  destruct (surface_markers marker) as [m|]; [|discriminate].
  destruct (match Markers.attrs m "markerUnits" with
            | Some "userSpaceOnUse" => Ok 1
            | _ => size stroke_width "xy" end) as [sc|]; cbn [bind] in H; [|discriminate].
  destruct (Markers.fit _ _ _ _ _ m) as [f|]; cbn [bind] in H; [|discriminate].
  match type of H with
  | bind ?r _ = _ => destruct r as [a|]; cbn [bind] in H; [|discriminate]
  end.
  match type of H with
  | bind ?r _ = _ => destruct r as [t1|] eqn:E; cbn [bind] in H; [|discriminate]
  end.
  injection H as _ <-.
  destruct (draw_children_balanced _ _ _ _ _ _ _ _ E) as (added & -> & B).
  exists added. split; [|exact B].
  rewrite <- !app_assoc. reflexivity.
Qed.

Lemma balanced_scratch (added : list call) :
  Trace.balanced added ->
  Trace.balanced (copy_path :: new_path :: added ++ [append_path]).
Proof.
  intros B d. cbn [Trace.stack_depth]. rewrite stack_depth_app, B. reflexivity.
Qed.

Lemma iteration_balanced (s s' : Markers.state) :
  iteration s = Ok s' ->
  exists cs, Markers.calls s' = (Markers.calls s ++ cs)%list /\ Trace.balanced cs.
Proof.
  unfold Markers.iteration. intros H.
  destruct (Markers.vertices s) as [|pt vs].
  { injection H as <-. exists []. split; [now rewrite app_nil_r | apply balanced_nil]. }
  destruct vs as [|a vs'];
    (destruct (Markers.orientation _ _ _ _) as [[[[an q] b1] b2]|];
       cbn [bind] in H; [|discriminate]);
    (destruct (Markers.markers fragment node q) as [|c name] eqn:Em;
       [ cbn [bind] in H; injection H as <-; exists [];
         split; [cbn; now rewrite app_nil_r | apply balanced_nil]
       | destruct (draw_marker (String c name) q pt an (Markers.calls s))
           as [[an' t']|] eqn:Ed; cbn [bind] in H; [|discriminate];
         destruct (draw_marker_balanced _ _ _ _ _ _ _ Ed) as (added & -> & B);
         injection H as <-; eexists;
         split; [reflexivity | now apply balanced_scratch] ]).
Qed.

Lemma while_vertices_balanced (fuel : nat) :
  forall s s' : Markers.state,
    while_vertices fuel s = Some (Ok s') ->
    exists cs, Markers.calls s' = (Markers.calls s ++ cs)%list /\ Trace.balanced cs.
Proof.
  induction fuel as [|fuel IH]; intros s s' H; cbn in H.
  - destruct (Markers.vertices s); [|discriminate]. injection H as <-.
    exists []. split; [now rewrite app_nil_r | apply balanced_nil].
  - destruct (Markers.vertices s).
    + injection H as <-. exists [].
      split; [now rewrite app_nil_r | apply balanced_nil].
    + destruct (iteration s) as [s1|] eqn:E; [|discriminate].
      destruct (iteration_balanced _ _ E) as (c1 & H1 & B1).
      destruct (IH _ _ H) as (c2 & H2 & B2).
      exists (c1 ++ c2)%list. rewrite H2, H1, app_assoc.
      split; [reflexivity | now apply balanced_app].
Qed.

(** When [draw_markers] returns, the calls it has added to the trace pair
    every [save] with a later [restore]: the surface's stack of saved
    states is left as deep as it was found. *)
Theorem draw_markers_keeps_stack_balanced
    (fuel : nat) (vs vs' : option (list vertex)) (t t' : list call) :
  draw_markers fuel vs t = Some (Ok (vs', t')) ->
  exists cs, t' = (t ++ cs)%list /\ Trace.balanced cs.
Proof.
  unfold Markers.draw_markers. intros H.
  destruct vs as [[|p l]|];
    try (injection H as <- <-; exists [];
         split; [now rewrite app_nil_r | apply balanced_nil]).
  destruct (while_vertices fuel _) as [[s'|e]|] eqn:E; try discriminate.
  injection H as <- <-.
  apply (while_vertices_balanced _ _ _ E).
Qed.

End MarkerCalls.

(** One iteration of the marker loop on concrete data. *)
Ltac marker_step :=
  cbn [Markers.while_vertices Markers.vertices];
  match goal with
  | |- context [Markers.iteration ?a ?b ?c ?d ?e ?f ?g ?h ?i ?j ?s] =>
      let s1 := fresh "s" in
      let H := fresh "H" in
      evar (s1 : Markers.state);
      assert (H : Markers.iteration a b c d e f g h i j s = Ok s1)
        by (subst s1; repeat (progress (run; number_tests)); reflexivity);
      rewrite H; subst s1; clear H
  end.

Lemma arrow_marker_is_drawn :
  exists t',
    Markers.draw_markers Inputs.fragment Helpers.size Inputs.viewbox
      Inputs.preserve_ratio Inputs.clip_marker_box Inputs.calculate_bounding_box
      Helpers.float_of_string Samples.arrow_markers "1" Inputs.arrow_node
      3 (Some [Some (0, 0); Some (PI - 0, 0); Some (10, 0)]) []
    = Some (Ok (Some [], t'))
    /\ t' = [copy_path; new_path; save; translate 0 0;
             rotate_ (PI - (PI - 0) + radians 180); scale 1 1;
             scale (Rmin (3 / 1) (3 / 1)) (Rmin (3 / 1) (3 / 1));
             translate (- 0) (- 0); draw 7; restore; append_path].
Proof.
  eexists. split; [|reflexivity].
  unfold Markers.draw_markers.
  do 2 marker_step.
  reflexivity.
Qed.

(** The statement for a start marker drawn at the head of [M0 0 L10 0]. *)
Lemma draw_markers_keeps_stack_balanced_witness :
  exists t',
    Markers.draw_markers Inputs.fragment Helpers.size Inputs.viewbox
      Inputs.preserve_ratio Inputs.clip_marker_box Inputs.calculate_bounding_box
      Helpers.float_of_string Samples.arrow_markers "1" Inputs.arrow_node
      3 (Some [Some (0, 0); Some (PI - 0, 0); Some (10, 0)]) []
    = Some (Ok (Some [], t'))
    /\ List.In save t'
    /\ exists cs, t' = ([] ++ cs)%list /\ Trace.balanced cs.
Proof.
  destruct arrow_marker_is_drawn as (t' & Hrun & Ht).
  exists t'. split; [exact Hrun|]. split.
  - rewrite Ht. right. right. left. reflexivity.
  - exact (draw_markers_keeps_stack_balanced
             Inputs.fragment Helpers.size Inputs.viewbox Inputs.preserve_ratio
             Inputs.clip_marker_box Inputs.calculate_bounding_box
             Helpers.float_of_string Samples.arrow_markers "1" Inputs.arrow_node
             3 (Some [Some (0, 0); Some (PI - 0, 0); Some (10, 0)]) (Some [])
             [] t' Hrun).
Defined.

(** ** Where a subpath begins, and where a closepath returns *)

Section Subpath.

Variable size : string -> string -> result R.
Variable point : string -> result (R * R * string).
Variable point_angle : R -> R -> R -> R -> R.
Variable rotate : R -> R -> R -> R * R.
Variable quadratic_points : R -> R -> R -> R -> R -> R -> (R * R * R * R * R * R).
Variable float_of_string : string -> result R.
Variable str_of_float : R -> string.

Local Abbreviation step :=
  (Path.step size point point_angle rotate quadratic_points float_of_string
             str_of_float).
Local Abbreviation dispatch :=
  (Path.dispatch size point point_angle rotate quadratic_points float_of_string
                 str_of_float).
Local Abbreviation while_string :=
  (Path.while_string size point point_angle rotate quadratic_points
                     float_of_string str_of_float).

(** What [read_letter] does to the variables other than the data: nothing,
    or (lines 148-150) it seeds the stream with the current point. *)
Lemma read_letter_cases (s s1 : Path.state) (l : string) :
  Path.read_letter s = Ok (l, s1) ->
  Path.last_letter s1 = Path.last_letter s
  /\ Path.current_point s1 = Path.current_point s
  /\ Path.calls s1 = Path.calls s
  /\ ((Path.vertices s1 = Path.vertices s
       /\ Path.first_path_point s1 = Path.first_path_point s)
      \/ (in_tuple (Path.last_letter s) Path.NONE_Z = true
          /\ str_in l "mM" = false
          /\ Path.vertices s1 = (Path.vertices s ++ [Some (Path.current_point s)])%list
          /\ Path.first_path_point s1 = Some (Path.current_point s))).
Proof.
  unfold Path.read_letter. intros H.
  destruct (str_in (fst (split1 (strip (Path.string_ s)))) Path.PATH_LETTERS).
  - destruct (Path.split_sp (strip (Path.string_ s))) as [l' r].
    cbn [Path.last_letter Path.with_letter Path.with_string] in H.
    destruct (in_tuple (Path.last_letter s) Path.NONE_Z) eqn:E1;
      destruct (str_in l' "mM") eqn:E2; cbn [andb negb] in H;
      injection H as <- <-; cbn;
      (split; [reflexivity|]); (split; [reflexivity|]); (split; [reflexivity|]);
      try (left; split; reflexivity).
    right. repeat split; assumption.
  - cbn [Path.letter Path.with_string] in H.
    destruct (Path.letter s) as [l0|]; [|discriminate].
    injection H as <- <-. cbn. repeat split; try reflexivity. left. split; reflexivity.
Qed.

(** Lines 156-160 in terms of the subpath. *)
Lemma update_first_path_point_value (l : string) (s : Path.state) :
  Path.first_path_point (Path.update_first_path_point l s)
  = if in_tuple (Some l) Path.NONE_MZ then Trace.subpath_start s
    else Some (Trace.subpath_origin s).
Proof.
  unfold Path.update_first_path_point, Trace.subpath_origin, Trace.subpath_start.
  destruct (Path.first_path_point s) as [p|] eqn:E;
    destruct (in_tuple (Path.last_letter s) Path.NONE_MZ);
    destruct (in_tuple (Some l) Path.NONE_MZ); cbn; rewrite ?E; reflexivity.
Qed.

(** No branch assigns [first_path_point] or [last_letter]; a branch left
    by [continue] has not touched the stream nor the current point. *)
Lemma dispatch_keeps (l : string) (u : Path.state) (f : Path.flow) :
  dispatch l u = Ok f ->
  Path.first_path_point (Trace.flow_state f) = Path.first_path_point u
  /\ Path.last_letter (Trace.flow_state f) = Path.last_letter u
  /\ match f with
     | Path.Continue u' =>
         Path.vertices u' = Path.vertices u
         /\ Path.current_point u' = Path.current_point u
         /\ Path.calls u' = (Path.calls u ++ [set_tolerance (1 / 100000)])%list
     | Path.Fallthrough _ => True
     end.
Proof.
  unfold Path.dispatch. intros H.
  repeat match type of H with
         | (if ?b then _ else _) = _ => destruct b
         end.
  - unfold Path.arc_branch in H. branch_cases H;
      injection H as <-; cbn; repeat split; reflexivity.
  - unfold Path.c_branch in H. branch_cases H;
      injection H as <-; cbn; repeat split; reflexivity.
  - unfold Path.C_branch in H. branch_cases H;
      injection H as <-; cbn; repeat split; reflexivity.
  - unfold Path.h_branch in H. branch_cases H;
      injection H as <-; cbn; repeat split; reflexivity.
  - unfold Path.H_branch in H. branch_cases H;
      injection H as <-; cbn; repeat split; reflexivity.
  - unfold Path.l_branch in H. branch_cases H;
      injection H as <-; cbn; repeat split; reflexivity.
  - unfold Path.L_branch in H. branch_cases H;
      injection H as <-; cbn; repeat split; reflexivity.
  - unfold Path.m_branch, Path.subpath_break in H. branch_cases H;
      injection H as <-; cbn; repeat split; reflexivity.
  - unfold Path.M_branch, Path.subpath_break in H. branch_cases H;
      injection H as <-; cbn; repeat split; reflexivity.
  - unfold Path.q_branch, Path.emit_curve in H. branch_cases H;
      injection H as <-; cbn; repeat split; reflexivity.
  - unfold Path.Q_branch, Path.emit_curve in H. branch_cases H;
      injection H as <-; cbn; repeat split; reflexivity.
  - unfold Path.s_branch in H. branch_cases H;
      injection H as <-; cbn; repeat split; reflexivity.
  - unfold Path.S_branch in H. branch_cases H;
      injection H as <-; cbn; repeat split; reflexivity.
  - unfold Path.t_branch, Path.emit_curve in H. branch_cases H;
      injection H as <-; cbn; repeat split; reflexivity.
  - unfold Path.T_branch, Path.emit_curve in H. branch_cases H;
      injection H as <-; cbn; repeat split; reflexivity.
  - unfold Path.v_branch in H. branch_cases H;
      injection H as <-; cbn; repeat split; reflexivity.
  - unfold Path.V_branch in H. branch_cases H;
      injection H as <-; cbn; repeat split; reflexivity.
  - destruct (Path.first_path_point u) eqn:E; [unfold Path.z_branch in H|];
      injection H as <-; cbn; rewrite ?E; repeat split; reflexivity.
  - injection H as <-. cbn. repeat split; reflexivity.
Qed.

Lemma NONE_Z_in_NONE_MZ (x : option string) :
  in_tuple x Path.NONE_Z = true -> in_tuple x Path.NONE_MZ = true.
Proof.
  unfold in_tuple, Path.NONE_Z, Path.NONE_MZ. cbn [existsb].
  intros H. apply orb_true_iff in H. destruct H as [H | H].
  - rewrite H. reflexivity.
  - rewrite !orb_false_r in *. apply orb_true_iff in H.
    destruct H as [H | H]; rewrite H; rewrite ?orb_true_r; reflexivity.
Qed.

Lemma read_letter_keeps_subpath (s s1 : Path.state) (l : string) :
  Path.read_letter s = Ok (l, s1) ->
  Trace.subpath_start s1 = Trace.subpath_start s
  /\ Trace.subpath_origin s1 = Trace.subpath_origin s
  /\ (Trace.subpath_start s <> None -> Path.vertices s1 = Path.vertices s).
Proof.
  intros H.
  destruct (read_letter_cases _ _ _ H) as (Hll & Hcp & _ & [[Hv Hf] | (Hz & _ & Hv & Hf)]);
    unfold Trace.subpath_origin, Trace.subpath_start; rewrite Hll, Hcp.
  - rewrite Hf. repeat split. intros _. exact Hv.
  - rewrite (NONE_Z_in_NONE_MZ _ Hz). repeat split. intros C. now contradiction C.
Qed.

(** A drawing command (any command but a moveto or a closepath) leaves
    the origin of the subpath where it was, however the iteration ends:
    [first_path_point] holds it afterwards. *)
Theorem drawing_command_keeps_subpath_origin (s s1 s' : Path.state) (l : string) :
  Path.read_letter s = Ok (l, s1) ->
  in_tuple (Some l) Path.NONE_MZ = false ->
  step s = Ok s' ->
  Trace.subpath_origin s' = Trace.subpath_origin s
  /\ Path.first_path_point s' = Some (Trace.subpath_origin s).
Proof.
  intros Hread Hl H. unfold Path.step in H. rewrite Hread in H. cbn [bind] in H.
  destruct (read_letter_cases _ _ _ Hread) as (Hll & Hcp & _ & _).
  destruct (read_letter_keeps_subpath _ _ _ Hread) as (_ & Ho & _).
  destruct (update_first_path_point_frame l s1) as (_ & _ & Ucp & _ & Ull & _).
  pose proof (update_first_path_point_value l s1) as Uf. rewrite Hl, Ho in Uf.
  destruct (dispatch l (Path.update_first_path_point l s1)) as [f|] eqn:Ed;
    cbn [bind] in H; [|discriminate].
  destruct (dispatch_keeps _ _ _ Ed) as (Df & Dll & Dc).
  destruct f as [u|u]; injection H as <-; cbn [Trace.flow_state] in Df, Dll.
  - assert (Hf : Path.first_path_point (Path.finish l u) = Some (Trace.subpath_origin s)).
    { unfold Path.finish. destruct (negb _); cbn; now rewrite Df, Uf. }
    split; [|exact Hf].
    unfold Trace.subpath_origin at 1, Trace.subpath_start.
    assert (Hl' : Path.last_letter (Path.finish l u) = Some l).
    { unfold Path.finish. destruct (negb _); reflexivity. }
    rewrite Hl', Hl, Hf. reflexivity.
  - destruct Dc as (_ & Dcp & _).
    assert (Hf : Path.first_path_point u = Some (Trace.subpath_origin s))
      by now rewrite Df, Uf.
    split; [|exact Hf].
    unfold Trace.subpath_origin at 1, Trace.subpath_start.
    rewrite Dll, Ull, Hll, Hf, Dcp, Ucp, Hcp.
    unfold Trace.subpath_origin, Trace.subpath_start.
    destruct (in_tuple (Path.last_letter s) Path.NONE_MZ); reflexivity.
Qed.

(** A closepath puts the current point back at the origin of the subpath.
    When a drawing command has been executed since the last moveto or
    closepath it calls [close_path] and appends a break to the stream;
    otherwise (right after a moveto or a closepath, or as the first
    command) it makes no call at all.  It never raises. *)
Theorem closepath_returns_to_subpath_origin (s s1 : Path.state) (l : string) :
  Path.read_letter s = Ok (l, s1) ->
  l = "z" \/ l = "Z" ->
  exists s',
    step s = Ok s'
    /\ Path.current_point s' = Trace.subpath_origin s
    /\ Path.last_letter s' = Some l
    /\ match Trace.subpath_start s with
       | Some _ =>
           Path.calls s' = (Path.calls s ++ [close_path])%list
           /\ Path.vertices s' = (Path.vertices s ++ [None])%list
       | None =>
           Path.calls s' = Path.calls s /\ Path.vertices s' = Path.vertices s1
       end.
Proof.
  intros Hread Hl. unfold Path.step. rewrite Hread. cbn [bind].
  destruct (read_letter_cases _ _ _ Hread) as (Hll & Hcp & Hc & _).
  destruct (read_letter_keeps_subpath _ _ _ Hread) as (Hs & Ho & Hv).
  destruct (update_first_path_point_frame l s1) as (_ & Uv & Ucp & Uc & Ull & _).
  pose proof (update_first_path_point_value l s1) as Uf.
  set (u := Path.update_first_path_point l s1) in *. clearbody u.
  assert (Hd : dispatch l u
               = match Path.first_path_point u with
                 | Some first => Path.z_branch first u
                 | None => Ok (Path.Fallthrough u)
                 end)
    by (destruct Hl as [-> | ->]; reflexivity).
  assert (Hin : in_tuple (Some l) Path.NONE_MZ = true)
    by (destruct Hl as [-> | ->]; reflexivity).
  assert (Hfin : forall v, Path.finish l v
                           = Path.with_last_letter (Some l)
                               (Path.with_string (strip (Path.string_ v)) v))
    by (intros v; destruct Hl as [-> | ->]; reflexivity).
  rewrite Hin, Hs in Uf. rewrite Hd, Uf.
  unfold Trace.subpath_origin.
  destruct (Trace.subpath_start s) as [p|] eqn:Es.
  - unfold Path.z_branch. cbn [bind]. eexists. split; [reflexivity|].
    rewrite Hfin. cbn. rewrite Uc, Uv, Hc, Hv by discriminate.
    repeat split; reflexivity.
  - cbn [bind]. eexists. split; [reflexivity|].
    rewrite Hfin. cbn. rewrite Ucp, Uc, Uv, Hcp, Hc.
    repeat split; reflexivity.
Qed.

(** An iteration keeps the current point at the end of the stream. *)
Lemma step_ends_at_current_point (s s' : Path.state) :
  step s = Ok s' ->
  Trace.ends_at_current_point s -> Trace.ends_at_current_point s'.
Proof.
  unfold Path.step. intros H Hi.
  destruct (Path.read_letter s) as [[l s1]|] eqn:Er; cbn [bind] in H; [|discriminate].
  destruct (dispatch l (Path.update_first_path_point l s1)) as [f|] eqn:Ed;
    cbn [bind] in H; [|discriminate].
  destruct (dispatch_keeps _ _ _ Ed) as (_ & Dll & Dc).
  destruct f as [u|u]; injection H as <-; intros l0 Hl0 Hz.
  - assert (Hl' : Path.last_letter (Path.finish l u) = Some l)
      by (unfold Path.finish; destruct (negb _); reflexivity).
    rewrite Hl' in Hl0. injection Hl0 as ->.
    unfold Path.finish. rewrite Hz. cbn. eexists. reflexivity.
  - cbn [Trace.flow_state] in Dll. destruct Dc as (Dv & Dcp & _).
    destruct (update_first_path_point_frame l s1) as (_ & Uv & Ucp & _ & Ull & _).
    destruct (read_letter_cases _ _ _ Er) as (Hll & Hcp & _ & Hcase).
    rewrite Dll, Ull, Hll in Hl0.
    destruct (Hi l0 Hl0 Hz) as (vs & Hvs).
    rewrite Dv, Dcp, Uv, Ucp, Hcp.
    destruct Hcase as [[Hv _] | (_ & _ & Hv & _)]; rewrite Hv.
    + exists vs. exact Hvs.
    + eexists. reflexivity.
Qed.

Lemma while_string_ends_at_current_point (fuel : nat) :
  forall s s' : Path.state,
    while_string fuel s = Some (Ok s') ->
    Trace.ends_at_current_point s -> Trace.ends_at_current_point s'.
Proof.
  induction fuel as [|fuel IH]; intros s s' H Hi.
  - cbn in H. destruct (Path.string_ s); [|discriminate]. now injection H as <-.
  - cbn in H. destruct (Path.string_ s); [now injection H as <-|].
    destruct (step s) as [s1|e] eqn:Es; [|discriminate].
    exact (IH _ _ H (step_ends_at_current_point _ _ Es Hi)).
Qed.

Variable normalize : string -> string.

(** When [path] returns and the last command it executed is not a
    closepath, the last entry of [node.vertices] is the final current
    point: this is where the end marker will be drawn. *)
Theorem path_ends_stream_at_current_point
    (fuel : nat) (cp : option pt) (d : string) (s : Path.state) (l : string) :
  Path.path normalize size point point_angle rotate quadratic_points
            float_of_string str_of_float fuel cp d = Some (Ok s) ->
  Path.last_letter s = Some l ->
  str_in l "zZ" = false ->
  exists vs, Path.vertices s = (vs ++ [Some (Path.current_point s)])%list.
Proof.
  unfold Path.path. intros H Hl Hz.
  refine (while_string_ends_at_current_point _ _ _ H _ l Hl Hz).
  intros l0 Hl0. unfold Path.init in Hl0. destruct cp; discriminate Hl0.
Qed.

End Subpath.

(** ** Data that is never consumed *)

Lemma rstrip_cons (c : ascii) (r : string) :
  rstrip (String c r)
  = match rstrip r with
    | "" => if is_space c then "" else String c ""
    | String d r' => String c (String d r')
    end.
Proof. reflexivity. Qed.

Lemma rstrip_idempotent (s : string) : rstrip (rstrip s) = rstrip s.
Proof.
  induction s as [|c r IH]; [reflexivity|].
  rewrite rstrip_cons. destruct (rstrip r) as [|d r'] eqn:E.
  - destruct (is_space c) eqn:Ec; [reflexivity|]. rewrite rstrip_cons, Ec. reflexivity.
  - rewrite rstrip_cons, IH. reflexivity.
Qed.

Lemma lstrip_head (s : string) :
  lstrip s = "" \/ exists c r, lstrip s = String c r /\ is_space c = false.
Proof.
  induction s as [|c r IH]; [left; reflexivity|].
  cbn [lstrip]. destruct (is_space c) eqn:E; [exact IH|].
  right. exists c, r. split; [reflexivity | exact E].
Qed.

Lemma rstrip_head (c : ascii) (r : string) :
  is_space c = false -> rstrip (String c r) = String c (rstrip r).
Proof.
  intros H. cbn [rstrip]. destruct (rstrip r); [now rewrite H | reflexivity].
Qed.

(** [strip] is idempotent. *)
Lemma strip_idempotent (s : string) : strip (strip s) = strip s.
Proof.
  unfold strip. destruct (lstrip_head s) as [-> | (c & r & -> & Hc)]; [reflexivity|].
  rewrite (rstrip_head c r Hc). cbn [lstrip]. rewrite Hc.
  rewrite <- (rstrip_head c r Hc). apply rstrip_idempotent.
Qed.

Section Stall.

Variable size : string -> string -> result R.
Variable point : string -> result (R * R * string).
Variable point_angle : R -> R -> R -> R -> R.
Variable rotate : R -> R -> R -> R * R.
Variable quadratic_points : R -> R -> R -> R -> R -> R -> (R * R * R * R * R * R).
Variable float_of_string : string -> result R.
Variable str_of_float : R -> string.

Local Abbreviation step :=
  (Path.step size point point_angle rotate quadratic_points float_of_string
             str_of_float).
Local Abbreviation dispatch :=
  (Path.dispatch size point point_angle rotate quadratic_points float_of_string
                 str_of_float).
Local Abbreviation while_string :=
  (Path.while_string size point point_angle rotate quadratic_points
                     float_of_string str_of_float).

(** With a closepath in [letter] and data that does not start with a
    command letter, an iteration reads nothing. *)
Lemma closepath_reads_nothing (s : Path.state) :
  Path.letter s = Some "z" \/ Path.letter s = Some "Z" ->
  str_in (fst (split1 (strip (Path.string_ s)))) Path.PATH_LETTERS = false ->
  exists s',
    step s = Ok s'
    /\ Path.letter s' = Path.letter s
    /\ Path.string_ s' = strip (Path.string_ s).
Proof.
  intros Hl Htok. unfold Path.step, Path.read_letter. rewrite Htok.
  cbn [Path.letter Path.with_string].
  assert (Hz : exists l, Path.letter s = Some l
                         /\ (if String.eqb l "M" then "L"
                             else if String.eqb l "m" then "l" else l) = l
                         /\ (l = "z" \/ l = "Z")).
  { destruct Hl as [H | H]; eexists; (split; [exact H|]); split;
      solve [reflexivity | left; reflexivity | right; reflexivity]. }
  destruct Hz as (l & -> & -> & Hz). cbn [bind].
  set (s1 := Path.with_letter (Some l) (Path.with_string (strip (Path.string_ s)) s)).
  destruct (update_first_path_point_frame l s1) as (Us & _ & _ & _ & _ & Ul).
  set (u := Path.update_first_path_point l s1) in *. clearbody u.
  assert (Hd : dispatch l u
               = match Path.first_path_point u with
                 | Some first => Path.z_branch first u
                 | None => Ok (Path.Fallthrough u)
                 end)
    by (destruct Hz as [-> | ->]; reflexivity).
  assert (Hfin : forall v, Path.finish l v
                           = Path.with_last_letter (Some l)
                               (Path.with_string (strip (Path.string_ v)) v))
    by (intros v; destruct Hz as [-> | ->]; reflexivity).
  rewrite Hd.
  destruct (Path.first_path_point u); unfold Path.z_branch; cbn [bind];
    (eexists; split; [reflexivity|]); rewrite Hfin; cbn; rewrite Ul, Us;
    (split; [reflexivity|]); apply strip_idempotent.
Qed.

(** Once [letter] holds a closepath, data that starts with anything but
    a command letter is never consumed: the loop does not end, whatever
    the number of iterations.  This is the case of a number that follows a
    closepath, and of data that starts with a number ([letter] is then the
    last letter of [PATH_LETTERS], left by the [for] loop). *)
Theorem number_after_closepath_never_ends (fuel : nat) :
  forall s : Path.state,
    Path.letter s = Some "z" \/ Path.letter s = Some "Z" ->
    strip (Path.string_ s) <> "" ->
    str_in (fst (split1 (strip (Path.string_ s)))) Path.PATH_LETTERS = false ->
    while_string fuel s = None.
Proof.
  assert (Hne : forall s : Path.state,
             strip (Path.string_ s) <> "" -> Path.string_ s <> "").
  { intros s H E. rewrite E in H. now apply H. }
  induction fuel as [|fuel IH]; intros s Hl Hs Htok.
  - pose proof (Hne s Hs) as Hs'. cbn.
    destruct (Path.string_ s); [now contradiction Hs' | reflexivity].
  - destruct (closepath_reads_nothing s Hl Htok) as (s' & Hstep & Hl' & Hs').
    rewrite (while_string_step _ _ _ _ _ _ _ fuel s s' (Hne s Hs) Hstep).
    apply IH.
    + now rewrite Hl'.
    + rewrite Hs', strip_idempotent. exact Hs.
    + rewrite Hs', strip_idempotent. exact Htok.
Qed.

(** ** Smooth commands with no command before them *)

(** A smooth command ([s], [S], [t] or [T]) read while no command has
    been completed yet makes [path] raise [TypeError]: the test
    [last_letter in '...'] is evaluated with [last_letter] still [None]. *)
Theorem smooth_command_first_raises
    (fuel : nat) (s s1 : Path.state) (l : string) :
  Path.string_ s <> "" ->
  Path.last_letter s = None ->
  Path.read_letter s = Ok (l, s1) ->
  l = "s" \/ l = "S" \/ l = "t" \/ l = "T" ->
  while_string (S fuel) s = Some (Raise TypeError).
Proof.
  intros Hne Hll Hread Hl.
  apply while_string_raise; [exact Hne|].
  unfold Path.step. rewrite Hread. cbn [bind].
  destruct (read_letter_cases _ _ _ Hread) as (Hll1 & _).
  destruct (update_first_path_point_frame l s1) as (_ & _ & _ & _ & Ull & _).
  set (u := Path.update_first_path_point l s1) in *. clearbody u.
  rewrite Hll1, Hll in Ull.
  destruct Hl as [-> | [-> | [-> | ->]]].
  - change (dispatch "s" u) with (Path.s_branch point point_angle (Path.string_ u) u).
    unfold Path.s_branch. destruct (Path.current_point u). rewrite Ull. reflexivity.
  - change (dispatch "S" u) with (Path.S_branch point point_angle (Path.string_ u) u).
    unfold Path.S_branch. destruct (Path.current_point u). rewrite Ull. reflexivity.
  - change (dispatch "t" u) with (Path.t_branch point quadratic_points (Path.string_ u) u).
    unfold Path.t_branch. rewrite Ull. reflexivity.
  - change (dispatch "T" u) with (Path.T_branch point quadratic_points (Path.string_ u) u).
    unfold Path.T_branch. destruct (Path.current_point u). rewrite Ull. reflexivity.
Qed.

(** ** Coordinates that follow a moveto *)

(** Coordinate pairs that follow the pair of a moveto, with no letter
    before them, are drawn as linetos of the same kind (absolute after
    [M], relative after [m]), and [letter] holds the lineto afterwards. *)
Theorem implicit_lineto_after_moveto
    (s : Path.state) (m : string) (x y : R) (rest : string) :
  m = "M" \/ m = "m" ->
  Path.letter s = Some m ->
  str_in (fst (split1 (strip (Path.string_ s)))) Path.PATH_LETTERS = false ->
  point (strip (Path.string_ s)) = Ok (x, y, rest) ->
  exists s' (a : R),
    step s = Ok s'
    /\ Path.letter s' = Some (if String.eqb m "M" then "L" else "l")
    /\ Path.last_letter s' = Path.letter s'
    /\ a = (if String.eqb m "M"
            then point_angle (fst (Path.current_point s)) (snd (Path.current_point s)) x y
            else point_angle 0 0 x y)
    /\ Path.calls s'
       = (Path.calls s ++ [if String.eqb m "M" then line_to x y else rel_line_to x y])%list
    /\ Path.current_point s'
       = (if String.eqb m "M" then (x, y) else Path.padd (Path.current_point s) (x, y))
    /\ Path.vertices s'
       = (Path.vertices s ++ [Some (PI - a, a); Some (Path.current_point s')])%list.
Proof.
  intros Hm Hl Htok Hpt. unfold Path.step, Path.read_letter. rewrite Htok.
  cbn [Path.letter Path.with_string]. rewrite Hl.
  destruct Hm as [-> | ->]; cbn [String.eqb Ascii.eqb Bool.eqb bind].
  - set (s1 := Path.with_letter (Some "L")
                 (Path.with_string (strip (Path.string_ s)) s)).
    destruct (update_first_path_point_frame "L" s1) as (Us & Uv & Ucp & Uc & _ & Ul).
    set (u := Path.update_first_path_point "L" s1) in *. clearbody u.
    change (dispatch "L" u) with (Path.L_branch point point_angle (Path.string_ u) u).
    unfold Path.L_branch. rewrite Us. cbn [s1 Path.string_ Path.with_letter Path.with_string].
    rewrite Hpt. cbn [bind Path.current_point Path.with_string].
    assert (Hcp : Path.current_point u = Path.current_point s) by now rewrite Ucp.
    rewrite Hcp. destruct (Path.current_point s) as [ox oy]. cbn [bind].
    eexists. eexists. split; [reflexivity|].
    cbn. rewrite Ul, Uc, Uv. cbn.
    rewrite <- app_assoc. repeat split; reflexivity.
  - set (s1 := Path.with_letter (Some "l")
                 (Path.with_string (strip (Path.string_ s)) s)).
    destruct (update_first_path_point_frame "l" s1) as (Us & Uv & Ucp & Uc & _ & Ul).
    set (u := Path.update_first_path_point "l" s1) in *. clearbody u.
    change (dispatch "l" u) with (Path.l_branch point point_angle (Path.string_ u) u).
    unfold Path.l_branch. rewrite Us. cbn [s1 Path.string_ Path.with_letter Path.with_string].
    rewrite Hpt. cbn [bind].
    eexists. eexists. split; [reflexivity|].
    cbn. rewrite Ul, Uc, Uv, Ucp. cbn.
    rewrite <- app_assoc. repeat split; reflexivity.
Qed.

End Stall.

(** ** A smooth curve after a cubic curve *)

Section SmoothAfterCubic.

Variable size : string -> string -> result R.
Variable point : string -> result (R * R * string).
Variable point_angle : R -> R -> R -> R -> R.
Variable rotate : R -> R -> R -> R * R.
Variable quadratic_points : R -> R -> R -> R -> R -> R -> (R * R * R * R * R * R).
Variable float_of_string : string -> result R.
Variable str_of_float : R -> string.

Local Abbreviation step :=
  (Path.step size point point_angle rotate quadratic_points float_of_string
             str_of_float).
Local Abbreviation dispatch :=
  (Path.dispatch size point point_angle rotate quadratic_points float_of_string
                 str_of_float).

(** Reading the letter and lines 156-160 leave the variables
    [x1 .. y3] as they are. *)
Lemma read_letter_registers (s s1 : Path.state) (l : string) :
  Path.read_letter s = Ok (l, s1) ->
  Path.x2 s1 = Path.x2 s /\ Path.y2 s1 = Path.y2 s
  /\ Path.x3 s1 = Path.x3 s /\ Path.y3 s1 = Path.y3 s.
Proof.
  unfold Path.read_letter. intros H.
  destruct (str_in _ Path.PATH_LETTERS).
  - destruct (Path.split_sp _) as [l' r].
    destruct (_ && _); injection H as <- <-; repeat split; reflexivity.
  - destruct (Path.letter _); [|discriminate].
    injection H as <- <-. repeat split; reflexivity.
Qed.

Lemma update_first_path_point_registers (l : string) (s : Path.state) :
  Path.x2 (Path.update_first_path_point l s) = Path.x2 s
  /\ Path.y2 (Path.update_first_path_point l s) = Path.y2 s
  /\ Path.x3 (Path.update_first_path_point l s) = Path.x3 s
  /\ Path.y3 (Path.update_first_path_point l s) = Path.y3 s.
Proof.
  unfold Path.update_first_path_point.
  destruct (in_tuple (Path.last_letter s) Path.NONE_MZ);
    destruct (negb (in_tuple (Some l) Path.NONE_MZ));
    cbn [andb Path.first_path_point Path.with_first_path_point];
    try destruct (Path.first_path_point s); repeat split; reflexivity.
Qed.

(** What a cubic command leaves: [last_letter], the end point of the
    curve in [x3], [y3], which is the current point, and the second
    control point of the curve it has drawn in [x2], [y2], both in absolute
    coordinates, also for the relative forms. *)
Lemma cubic_step (s sa s1 : Path.state) (l : string) :
  Path.read_letter s = Ok (l, sa) ->
  l = "c" \/ l = "C" \/ l = "s" \/ l = "S" ->
  step s = Ok s1 ->
  Path.last_letter s1 = Some l
  /\ Path.x3 s1 = fst (Path.current_point s1)
  /\ Path.y3 s1 = snd (Path.current_point s1)
  /\ exists a b : R,
       Path.calls s1
       = (Path.calls s
          ++ [if String.eqb l "C" || String.eqb l "S"
              then curve_to a b (Path.x2 s1) (Path.y2 s1)
                            (fst (Path.current_point s1)) (snd (Path.current_point s1))
              else rel_curve_to a b
                     (Path.x2 s1 - fst (Path.current_point s))
                     (Path.y2 s1 - snd (Path.current_point s))
                     (fst (Path.current_point s1) - fst (Path.current_point s))
                     (snd (Path.current_point s1) - snd (Path.current_point s))])%list.
Proof.
  intros Hread Hl H. unfold Path.step in H. rewrite Hread in H. cbn [bind] in H.
  destruct (read_letter_cases _ _ _ Hread) as (_ & Hcp & Hc & _).
  destruct (update_first_path_point_frame l sa) as (_ & _ & Ucp & Uc & _ & _).
  rewrite Hcp in Ucp. rewrite Hc in Uc.
  set (u := Path.update_first_path_point l sa) in *. clearbody u.
  destruct Hl as [-> | [-> | [-> | ->]]].
  - change (dispatch "c" u) with (Path.c_branch point point_angle (Path.string_ u) u) in H.
    destruct (Path.c_branch point point_angle (Path.string_ u) u) as [f|] eqn:Ed;
      cbn [bind] in H; [|discriminate].
    unfold Path.c_branch in Ed. branch_cases Ed. injection Ed as <-. injection H as <-.
    cbn. rewrite Uc, <- Ucp, E. cbn.
    split; [reflexivity|]. split; [lra|]. split; [lra|].
    eexists. eexists. f_equal. f_equal. f_equal; lra.
  - change (dispatch "C" u) with (Path.C_branch point point_angle (Path.string_ u) u) in H.
    destruct (Path.C_branch point point_angle (Path.string_ u) u) as [f|] eqn:Ed;
      cbn [bind] in H; [|discriminate].
    unfold Path.C_branch in Ed. branch_cases Ed. injection Ed as <-. injection H as <-.
    cbn. rewrite Uc.
    split; [reflexivity|]. split; [reflexivity|]. split; [reflexivity|].
    eexists. eexists. reflexivity.
  - change (dispatch "s" u) with (Path.s_branch point point_angle (Path.string_ u) u) in H.
    unfold Path.s_branch in H. destruct (Path.current_point u) as [x y] eqn:E.
    destruct (Path.py_in (Path.last_letter u) "csCS") as [b|]; cbn [bind] in H;
      [|discriminate].
    destruct (point (Path.string_ u)) as [[[cx cy] r]|]; cbn [bind] in H; [|discriminate].
    destruct (point r) as [[[ex ey] r']|]; cbn [bind] in H; [|discriminate].
    injection H as <-.
    cbn. rewrite Uc, <- Ucp, E. cbn.
    split; [reflexivity|]. split; [lra|]. split; [lra|].
    eexists. eexists. f_equal. f_equal. f_equal; lra.
  - change (dispatch "S" u) with (Path.S_branch point point_angle (Path.string_ u) u) in H.
    unfold Path.S_branch in H. destruct (Path.current_point u) as [x y] eqn:E.
    destruct (Path.py_in (Path.last_letter u) "csCS") as [b|]; cbn [bind] in H;
      [|discriminate].
    destruct (point (Path.string_ u)) as [[[cx cy] r]|]; cbn [bind] in H; [|discriminate].
    destruct (point r) as [[[ex ey] r']|]; cbn [bind] in H; [|discriminate].
    injection H as <-.
    cbn. rewrite Uc.
    split; [reflexivity|]. split; [reflexivity|]. split; [reflexivity|].
    eexists. eexists. reflexivity.
Qed.

(** A smooth command that follows a cubic command ([c], [C], [s] or [S])
    draws a curve whose first control point is the mirror image, through
    the current point, of the second control point of the curve drawn
    before it; [s] passes it relative to the current point.  The point that
    is mirrored is the one the previous call has drawn. *)
Theorem smooth_curve_mirrors_control_point
    (s sa s1 sb s2 : Path.state) (l l2 : string) :
  Path.read_letter s = Ok (l, sa) ->
  l = "c" \/ l = "C" \/ l = "s" \/ l = "S" ->
  step s = Ok s1 ->
  Path.read_letter s1 = Ok (l2, sb) ->
  l2 = "S" \/ l2 = "s" ->
  step s1 = Ok s2 ->
  exists a b px py cx cy ex ey : R,
    Path.calls s1
    = (Path.calls s
       ++ [if String.eqb l "C" || String.eqb l "S"
           then curve_to a b px py
                         (fst (Path.current_point s1)) (snd (Path.current_point s1))
           else rel_curve_to a b
                  (px - fst (Path.current_point s)) (py - snd (Path.current_point s))
                  (fst (Path.current_point s1) - fst (Path.current_point s))
                  (snd (Path.current_point s1) - snd (Path.current_point s))])%list
    /\ Path.calls s2
       = (Path.calls s1
          ++ [if String.eqb l2 "S"
              then curve_to (2 * fst (Path.current_point s1) - px)
                            (2 * snd (Path.current_point s1) - py) cx cy ex ey
              else rel_curve_to (fst (Path.current_point s1) - px)
                                (snd (Path.current_point s1) - py) cx cy ex ey])%list.
Proof.
  intros Hread Hl H1 Hread2 Hl2 H2.
  destruct (cubic_step _ _ _ _ Hread Hl H1) as (Hll & Hx3 & Hy3 & a & b & Hcalls).
  exists a, b, (Path.x2 s1), (Path.y2 s1).
  unfold Path.step in H2. rewrite Hread2 in H2. cbn [bind] in H2.
  destruct (read_letter_cases _ _ _ Hread2) as (Rll & Rcp & Rc & _).
  destruct (read_letter_registers _ _ _ Hread2) as (Rx2 & Ry2 & Rx3 & Ry3).
  destruct (update_first_path_point_frame l2 sb) as (_ & _ & Ucp & Uc & Ull & _).
  destruct (update_first_path_point_registers l2 sb) as (Ux2 & Uy2 & Ux3 & Uy3).
  rewrite Rll, Hll in Ull. rewrite Rcp in Ucp. rewrite Rc in Uc.
  rewrite Rx2 in Ux2. rewrite Ry2 in Uy2. rewrite Rx3, Hx3 in Ux3. rewrite Ry3, Hy3 in Uy3.
  set (u := Path.update_first_path_point l2 sb) in *. clearbody u.
  assert (Hin : Path.py_in (Path.last_letter u) "csCS" = Ok true).
  { rewrite Ull. destruct Hl as [-> | [-> | [-> | ->]]]; reflexivity. }
  destruct Hl2 as [-> | ->].
  - change (dispatch "S" u) with (Path.S_branch point point_angle (Path.string_ u) u) in H2.
    unfold Path.S_branch in H2. destruct (Path.current_point u) as [x y] eqn:E.
    rewrite Hin in H2. cbn [bind] in H2.
    destruct (point (Path.string_ u)) as [[[cx cy] r]|]; cbn [bind] in H2; [|discriminate].
    destruct (point r) as [[[ex ey] r']|]; cbn [bind] in H2; [|discriminate].
    injection H2 as <-. exists cx, cy, ex, ey.
    split; [exact Hcalls|].
    cbn. rewrite Uc, Ux2, Uy2, Ux3, Uy3. f_equal. f_equal. f_equal; lra.
  - change (dispatch "s" u) with (Path.s_branch point point_angle (Path.string_ u) u) in H2.
    unfold Path.s_branch in H2. destruct (Path.current_point u) as [x y] eqn:E.
    rewrite Hin in H2. cbn [bind] in H2.
    destruct (point (Path.string_ u)) as [[[cx cy] r]|]; cbn [bind] in H2; [|discriminate].
    destruct (point r) as [[[ex ey] r']|]; cbn [bind] in H2; [|discriminate].
    injection H2 as <-. exists cx, cy, ex, ey.
    split; [exact Hcalls|].
    cbn. rewrite Uc, Ux2, Uy2, Ux3, Uy3. reflexivity.
Qed.

End SmoothAfterCubic.

(** ** A smooth quadratic curve after a quadratic curve *)

Section SmoothAfterQuadratic.

Variable size : string -> string -> result R.
Variable point : string -> result (R * R * string).
Variable point_angle : R -> R -> R -> R -> R.
Variable rotate : R -> R -> R -> R * R.
Variable quadratic_points : R -> R -> R -> R -> R -> R -> (R * R * R * R * R * R).
Variable float_of_string : string -> result R.
Variable str_of_float : R -> string.

Local Abbreviation step :=
  (Path.step size point point_angle rotate quadratic_points float_of_string
             str_of_float).
Local Abbreviation dispatch :=
  (Path.dispatch size point point_angle rotate quadratic_points float_of_string
                 str_of_float).

Lemma emit_curve_calls (rel : bool) (q : R * R * R * R * R * R) (s : Path.state) :
  Path.emit_curve rel q s = Path.emit (Trace.curve_of rel q) s.
Proof. destruct q as [[[[[a b] c] d] e] f]. reflexivity. Qed.

Lemma read_letter_first_point (s s1 : Path.state) (l : string) :
  Path.read_letter s = Ok (l, s1) ->
  Path.x1 s1 = Path.x1 s /\ Path.y1 s1 = Path.y1 s.
Proof.
  unfold Path.read_letter. intros H.
  destruct (str_in _ Path.PATH_LETTERS).
  - destruct (Path.split_sp _) as [l' r].
    destruct (_ && _); injection H as <- <-; split; reflexivity.
  - destruct (Path.letter _); [|discriminate].
    injection H as <- <-. split; reflexivity.
Qed.

Lemma update_first_path_point_first_point (l : string) (s : Path.state) :
  Path.x1 (Path.update_first_path_point l s) = Path.x1 s
  /\ Path.y1 (Path.update_first_path_point l s) = Path.y1 s.
Proof.
  unfold Path.update_first_path_point.
  destruct (in_tuple (Path.last_letter s) Path.NONE_MZ);
    destruct (negb (in_tuple (Some l) Path.NONE_MZ));
    cbn [andb Path.first_path_point Path.with_first_path_point];
    try destruct (Path.first_path_point s); split; reflexivity.
Qed.

(** What [Q] and [q] leave in the variables: the points of the curve,
    relative to its start point for [q]. *)
Lemma quadratic_step (s sa s1 : Path.state) (l : string) :
  Path.read_letter s = Ok (l, sa) ->
  l = "Q" \/ l = "q" ->
  step s = Ok s1 ->
  exists qx qy ex ey : R,
    Path.last_letter s1 = Some l
    /\ (Path.x1 s1, Path.y1 s1)
       = (if String.eqb l "Q" then Path.current_point s else (0, 0))
    /\ (Path.x2 s1, Path.y2 s1) = (qx, qy)
    /\ (Path.x3 s1, Path.y3 s1) = (ex, ey)
    /\ Path.current_point s1
       = (if String.eqb l "Q" then (ex, ey) else Path.padd (Path.current_point s) (ex, ey))
    /\ Path.calls s1
       = (Path.calls s
          ++ [Trace.curve_of (negb (String.eqb l "Q"))
                (quadratic_points (Path.x1 s1) (Path.y1 s1) qx qy ex ey)])%list.
Proof.
  intros Hread Hl H. unfold Path.step in H. rewrite Hread in H. cbn [bind] in H.
  destruct (read_letter_cases _ _ _ Hread) as (_ & Hcp & Hc & _).
  destruct (update_first_path_point_frame l sa) as (_ & _ & Ucp & Uc & _ & _).
  rewrite Hcp in Ucp. rewrite Hc in Uc.
  set (u := Path.update_first_path_point l sa) in *. clearbody u.
  destruct Hl as [-> | ->].
  - change (dispatch "Q" u)
      with (Path.Q_branch point quadratic_points (Path.string_ u) u) in H.
    unfold Path.Q_branch in H. destruct (Path.current_point u) as [x y] eqn:E.
    destruct (point (Path.string_ u)) as [[[qx qy] r]|]; cbn [bind] in H; [|discriminate].
    destruct (point r) as [[[ex ey] r']|]; cbn [bind] in H; [|discriminate].
    rewrite emit_curve_calls in H. injection H as <-. exists qx, qy, ex, ey.
    cbn. rewrite Uc, <- Ucp. repeat split; reflexivity.
  - change (dispatch "q" u)
      with (Path.q_branch point quadratic_points (Path.string_ u) u) in H.
    unfold Path.q_branch in H.
    destruct (point (Path.string_ u)) as [[[qx qy] r]|]; cbn [bind] in H; [|discriminate].
    destruct (point r) as [[[ex ey] r']|]; cbn [bind] in H; [|discriminate].
    rewrite emit_curve_calls in H. injection H as <-. exists qx, qy, ex, ey.
    cbn. rewrite Uc, Ucp. repeat split; reflexivity.
Qed.

(** A smooth quadratic command ([T] or [t]) that follows [Q] or [q]
    draws the curve whose control point is the mirror image, through the
    current point, of the control point of the curve drawn before it,
    whichever of the two commands is relative; [t] passes it relative to
    the current point. *)
Theorem smooth_quadratic_mirrors_control_point
    (s sa s1 sb s2 : Path.state) (l l2 : string) :
  Path.read_letter s = Ok (l, sa) ->
  l = "Q" \/ l = "q" ->
  step s = Ok s1 ->
  Path.read_letter s1 = Ok (l2, sb) ->
  l2 = "T" \/ l2 = "t" ->
  step s1 = Ok s2 ->
  exists px py x y : R,
    Path.calls s1
    = (Path.calls s
       ++ [if String.eqb l "Q"
           then Trace.curve_of false
                  (quadratic_points
                     (fst (Path.current_point s)) (snd (Path.current_point s))
                     px py
                     (fst (Path.current_point s1)) (snd (Path.current_point s1)))
           else Trace.curve_of true
                  (quadratic_points 0 0
                     (px - fst (Path.current_point s)) (py - snd (Path.current_point s))
                     (fst (Path.current_point s1) - fst (Path.current_point s))
                     (snd (Path.current_point s1) - snd (Path.current_point s)))])%list
    /\ Path.calls s2
       = (Path.calls s1
          ++ [if String.eqb l2 "T"
              then Trace.curve_of false
                     (quadratic_points
                        (fst (Path.current_point s1)) (snd (Path.current_point s1))
                        (2 * fst (Path.current_point s1) - px)
                        (2 * snd (Path.current_point s1) - py)
                        x y)
              else Trace.curve_of true
                     (quadratic_points 0 0
                        (fst (Path.current_point s1) - px)
                        (snd (Path.current_point s1) - py)
                        x y)])%list.
Proof.
  intros Hread Hl H1 Hread2 Hl2 H2.
  destruct (quadratic_step _ _ _ _ Hread Hl H1)
    as (qx & qy & ex & ey & Hll & Hp1 & Hp2 & Hp3 & Hcp1 & Hcalls).
  unfold Path.step in H2. rewrite Hread2 in H2. cbn [bind] in H2.
  destruct (read_letter_cases _ _ _ Hread2) as (Rll & Rcp & Rc & _).
  destruct (read_letter_registers _ _ _ Hread2) as (Rx2 & Ry2 & Rx3 & Ry3).
  destruct (read_letter_first_point _ _ _ Hread2) as (Rx1 & Ry1).
  destruct (update_first_path_point_frame l2 sb) as (_ & _ & Ucp & Uc & Ull & _).
  destruct (update_first_path_point_registers l2 sb) as (Ux2 & Uy2 & Ux3 & Uy3).
  destruct (update_first_path_point_first_point l2 sb) as (Ux1 & Uy1).
  rewrite Rll, Hll in Ull. rewrite Rcp in Ucp. rewrite Rc in Uc.
  rewrite Rx1 in Ux1. rewrite Ry1 in Uy1.
  rewrite Rx2 in Ux2. rewrite Ry2 in Uy2. rewrite Rx3 in Ux3. rewrite Ry3 in Uy3.
  injection Hp2 as Hx2 Hy2. injection Hp3 as Hx3 Hy3.
  rewrite Hx2 in Ux2. rewrite Hy2 in Uy2. rewrite Hx3 in Ux3. rewrite Hy3 in Uy3.
  set (u := Path.update_first_path_point l2 sb) in *. clearbody u.
  destruct (Path.current_point s) as [ox oy] eqn:Eo.
  destruct (Path.current_point s1) as [cx cy] eqn:Ec.
  destruct Hl as [-> | ->]; cbn [String.eqb Ascii.eqb Bool.eqb negb] in *;
    injection Hp1 as Hx1 Hy1; rewrite Hx1 in Ux1; rewrite Hy1 in Uy1;
    injection Hcp1 as Hcx Hcy; cbn [fst snd] in *;
    (destruct Hl2 as [-> | ->]; cbn [String.eqb Ascii.eqb Bool.eqb];
     [ change (dispatch "T" u)
         with (Path.T_branch point quadratic_points (Path.string_ u) u) in H2;
       unfold Path.T_branch in H2
     | change (dispatch "t" u)
         with (Path.t_branch point quadratic_points (Path.string_ u) u) in H2;
       unfold Path.t_branch in H2 ];
     rewrite ?Ucp, Ull in H2;
     cbn [bind Path.py_in str_in String.prefix orb negb ascii_dec ascii_rec ascii_rect
          bool_dec bool_rec bool_rect sumbool_rec sumbool_rect eq_rec_r eq_rec eq_rect
          eq_sym f_equal] in H2;
     (destruct (point (Path.string_ u)) as [[[x y] r]|]; cbn [bind] in H2; [|discriminate]);
     rewrite emit_curve_calls in H2; injection H2 as <-).
  - exists qx, qy, x, y. split.
    + rewrite Hcalls, Hx1, Hy1, Hcx, Hcy. reflexivity.
    + cbn. rewrite Uc, Ux2, Uy2, Ux3, Uy3. do 4 f_equal; lra.
  - exists qx, qy, x, y. split.
    + rewrite Hcalls, Hx1, Hy1, Hcx, Hcy. reflexivity.
    + cbn. rewrite Uc, Ux1, Uy1, Ux2, Uy2, Ux3, Uy3. do 4 f_equal; lra.
  - exists (ox + qx), (oy + qy), x, y. split.
    + rewrite Hcalls, Hx1, Hy1. do 4 f_equal; lra.
    + cbn. rewrite Uc, Ux2, Uy2, Ux3, Uy3. do 4 f_equal; lra.
  - exists (ox + qx), (oy + qy), x, y. split.
    + rewrite Hcalls, Hx1, Hy1. do 4 f_equal; lra.
    + cbn. rewrite Uc, Ux2, Uy2, Ux3, Uy3. do 4 f_equal; lra.
Qed.

End SmoothAfterQuadratic.

(** ** An end marker on a vertex without direction *)

(** The scale of a marker is [1] or comes from the stroke width. *)
Lemma marker_units_scale (o : option string) (X : result R) :
  match o with Some "userSpaceOnUse" => Ok 1 | _ => X end = Ok 1
  \/ match o with Some "userSpaceOnUse" => Ok 1 | _ => X end = X.
Proof.
  destruct o as [s|]; [|right; reflexivity].
  do 14 (destruct s as [|a s]; [right; reflexivity|];
         destruct a as [[] [] [] [] [] [] [] []]; try (right; reflexivity)).
  destruct s; [left | right]; reflexivity.
Qed.

Section LonePoint.

Variable fragment : string -> string.
Variable size : string -> string -> result R.
Variable viewbox : Markers.marker_node -> result (option Markers.box).
Variable preserve_ratio : Markers.marker_node -> result (R * R * R * R).
Variable clip_marker_box : Markers.marker_node -> R -> R -> result (option Markers.box).
Variable calculate_bounding_box : Markers.marker_node -> result Markers.box.
Variable float_of_string : string -> result R.
Variable surface_markers : string -> option Markers.marker_node.
Variable stroke_width : string.
Variable node : string -> option string.

Local Abbreviation iteration :=
  (Markers.iteration fragment size viewbox preserve_ratio clip_marker_box
                     calculate_bounding_box float_of_string surface_markers
                     stroke_width node).
Local Abbreviation draw_markers :=
  (Markers.draw_markers fragment size viewbox preserve_ratio clip_marker_box
                        calculate_bounding_box float_of_string surface_markers
                        stroke_width node).

Lemma iteration_without_direction
    (p : vertex) (vs : list vertex) (t : list call)
    (m : Markers.marker_node) (sc : R) (f : R * R * R * R * option Markers.box) :
  vs = [p] \/ (exists rest, vs = p :: None :: rest) ->
  Markers.markers fragment node Markers.end_ <> "" ->
  surface_markers (Markers.markers fragment node Markers.end_) = Some m ->
  Markers.get m "orient" "0" = "auto"
  \/ Markers.get m "orient" "0" = "auto-start-reverse" ->
  size stroke_width "xy" = Ok sc ->
  Markers.fit size viewbox preserve_ratio clip_marker_box calculate_bounding_box m
  = Ok f ->
  iteration (Markers.mkState vs Markers.start None None None None t)
  = Raise TypeError.
Proof.
  intros Hvs Hne Hm Ho Hsc Hf.
  assert (Hit : iteration (Markers.mkState vs Markers.start None None None None t)
                = ('(angle, t') <-
                     Markers.draw_marker size viewbox preserve_ratio clip_marker_box
                       calculate_bounding_box float_of_string surface_markers
                       stroke_width (Markers.markers fragment node Markers.end_)
                       Markers.end_ p None t ;;
                   Ok (Markers.mkState (tl (tl vs)) Markers.start None None angle p t'))).
  { unfold Markers.iteration. cbn [Markers.vertices Markers.pos Markers.angle1
                                   Markers.angle2 Markers.calls].
    destruct Hvs as [-> | [rest ->]]; cbn [Markers.orientation bind];
      destruct (Markers.markers fragment node Markers.end_); try reflexivity;
      now contradiction Hne. }
  rewrite Hit. unfold Markers.draw_marker. rewrite Hm.
  destruct (marker_units_scale (Markers.attrs m "markerUnits") (size stroke_width "xy"))
    as [-> | ->]; rewrite ?Hsc; cbn [bind]; rewrite Hf; cbn [bind];
    destruct Ho as [-> | ->]; reflexivity.
Qed.

(** A vertex that no segment leaves or reaches (the only point of a path,
    or a point followed by a subpath break) is handled as an end vertex
    whose direction is [None].  When the end marker follows the direction
    of the path ([orient] is [auto] or [auto-start-reverse]),
    [draw_markers] raises [TypeError] there: it adds the half turn to
    [None]. *)
Theorem end_marker_without_direction_raises
    (fuel : nat) (p : vertex) (vs : list vertex) (t : list call)
    (m : Markers.marker_node) (sc : R) (f : R * R * R * R * option Markers.box) :
  vs = [p] \/ (exists rest, vs = p :: None :: rest) ->
  Markers.markers fragment node Markers.end_ <> "" ->
  surface_markers (Markers.markers fragment node Markers.end_) = Some m ->
  Markers.get m "orient" "0" = "auto"
  \/ Markers.get m "orient" "0" = "auto-start-reverse" ->
  size stroke_width "xy" = Ok sc ->
  Markers.fit size viewbox preserve_ratio clip_marker_box calculate_bounding_box m
  = Ok f ->
  draw_markers (S fuel) (Some vs) t = Some (Raise TypeError).
Proof.
  intros Hvs Hne Hm Ho Hsc Hf.
  pose proof (iteration_without_direction p vs t m sc f Hvs Hne Hm Ho Hsc Hf) as Hit.
  unfold Markers.draw_markers.
  destruct Hvs as [-> | [rest ->]];
    cbn [Markers.while_vertices Markers.vertices]; rewrite Hit; reflexivity.
Qed.

End LonePoint.

(** ** The statements above on sample data *)

(** The sample states are the ones the interpreter reaches. *)
Lemma samples_are_reached (d : string) :
  (exists s, Run.path 1 None "M0 0" = Some (Ok s)
             /\ Path.with_string d s = Samples.after_moveto d)
  /\ (exists s, Run.path 2 None "M0 0 L10 0" = Some (Ok s)
                /\ Path.with_string d s = Samples.after_lineto d)
  /\ (exists s, Run.path 3 None "M0 0 L10 0 z" = Some (Ok s)
                /\ Path.with_string d s = Samples.after_closepath d).
Proof.
  split; [|split]; eexists.
  - split; [start_path; do 1 one_step; end_path | reflexivity].
  - split; [start_path; do 2 one_step; end_path|].
    unfold Path.with_string, Samples.after_lineto. cbn.
    rewrite (point_angle_east 0 0 10) by lra. reflexivity.
  - split; [start_path; do 3 one_step; end_path|].
    unfold Path.with_string, Samples.after_closepath. cbn.
    rewrite (point_angle_east 0 0 10) by lra. reflexivity.
Qed.

Lemma skipped_arc_runs :
  exists s1 s',
    Path.read_letter (Samples.after_moveto "A 5 5 0 2 1 9 9 L 3 3") = Ok ("A", s1)
    /\ Path.step Helpers.size Helpers.point Helpers.point_angle Helpers.rotate
                 Helpers.quadratic_points Helpers.float_of_string Run.str_of_float
                 (Samples.after_moveto "A 5 5 0 2 1 9 9 L 3 3") = Ok s'
    /\ Path.last_letter s' = Some "M".
Proof.
  eexists. eexists. split; [reflexivity|]. split; [eval_step | reflexivity].
Qed.

(** The origin of the subpath across an arc that is skipped for its
    flags, right after [M0 0]. *)
Lemma drawing_command_keeps_subpath_origin_witness :
  exists s',
    Path.step Helpers.size Helpers.point Helpers.point_angle Helpers.rotate
              Helpers.quadratic_points Helpers.float_of_string Run.str_of_float
              (Samples.after_moveto "A 5 5 0 2 1 9 9 L 3 3") = Ok s'
    /\ Trace.subpath_origin s'
       = Trace.subpath_origin (Samples.after_moveto "A 5 5 0 2 1 9 9 L 3 3")
    /\ Path.first_path_point s'
       = Some (Trace.subpath_origin (Samples.after_moveto "A 5 5 0 2 1 9 9 L 3 3")).
Proof.
  destruct skipped_arc_runs as (s1 & s' & Hread & Hstep & _).
  exists s'. split; [exact Hstep|].
  exact (drawing_command_keeps_subpath_origin
           Helpers.size Helpers.point Helpers.point_angle Helpers.rotate
           Helpers.quadratic_points Helpers.float_of_string Run.str_of_float
           (Samples.after_moveto "A 5 5 0 2 1 9 9 L 3 3") s1 s' "A"
           Hread eq_refl Hstep).
Defined.

Lemma closepath_is_read :
  exists s1, Path.read_letter (Samples.after_lineto "z") = Ok ("z", s1).
Proof. eexists. reflexivity. Qed.

(** A closepath after [M0 0 L10 0]: the current point goes from [(10, 0)]
    back to [(0, 0)]. *)
Lemma closepath_returns_to_subpath_origin_witness :
  Trace.subpath_start (Samples.after_lineto "z") = Some (0, 0)
  /\ exists s1 s',
       Path.step Helpers.size Helpers.point Helpers.point_angle Helpers.rotate
                 Helpers.quadratic_points Helpers.float_of_string Run.str_of_float
                 (Samples.after_lineto "z") = Ok s'
       /\ Path.current_point s' = Trace.subpath_origin (Samples.after_lineto "z")
       /\ Path.last_letter s' = Some "z"
       /\ match Trace.subpath_start (Samples.after_lineto "z") with
          | Some _ =>
              Path.calls s' = (Path.calls (Samples.after_lineto "z") ++ [close_path])%list
              /\ Path.vertices s'
                 = (Path.vertices (Samples.after_lineto "z") ++ [None])%list
          | None =>
              Path.calls s' = Path.calls (Samples.after_lineto "z")
              /\ Path.vertices s' = Path.vertices s1
          end.
Proof.
  split; [reflexivity|].
  destruct closepath_is_read as (s1 & Hread).
  exists s1.
  exact (closepath_returns_to_subpath_origin
           Helpers.size Helpers.point Helpers.point_angle Helpers.rotate
           Helpers.quadratic_points Helpers.float_of_string Run.str_of_float
           (Samples.after_lineto "z") s1 "z" Hread (or_introl eq_refl)).
Defined.

Lemma lineto_path_runs :
  exists s,
    Path.path Helpers.normalize Helpers.size Helpers.point Helpers.point_angle
              Helpers.rotate Helpers.quadratic_points Helpers.float_of_string
              Run.str_of_float 2 None "M0 0 L10 0" = Some (Ok s)
    /\ Path.last_letter s = Some "L"
    /\ Path.current_point s = (10, 0).
Proof.
  eexists. split; [unfold Path.path; do 2 one_step; end_path|].
  split; reflexivity.
Qed.

(** The stream of [M0 0 L10 0] ends with the current point, [(10, 0)]. *)
Lemma path_ends_stream_at_current_point_witness :
  exists s,
    Path.path Helpers.normalize Helpers.size Helpers.point Helpers.point_angle
              Helpers.rotate Helpers.quadratic_points Helpers.float_of_string
              Run.str_of_float 2 None "M0 0 L10 0" = Some (Ok s)
    /\ Path.current_point s = (10, 0)
    /\ exists vs, Path.vertices s = (vs ++ [Some (Path.current_point s)])%list.
Proof.
  destruct lineto_path_runs as (s & Hs & Hl & Hcp).
  exists s. split; [exact Hs|]. split; [exact Hcp|].
  exact (path_ends_stream_at_current_point
           Helpers.size Helpers.point Helpers.point_angle Helpers.rotate
           Helpers.quadratic_points Helpers.float_of_string Run.str_of_float
           Helpers.normalize 2 None "M0 0 L10 0" s "L" Hs Hl eq_refl).
Defined.

(** The data [M0 0 L10 0 z 5 5]: once the closepath is executed the
    numbers that follow it are never read. *)
Lemma number_after_closepath_never_ends_witness :
  Path.while_string Helpers.size Helpers.point Helpers.point_angle Helpers.rotate
                    Helpers.quadratic_points Helpers.float_of_string Run.str_of_float
                    1000 (Samples.after_closepath "5 5") = None.
Proof.
  assert (H1 : Path.letter (Samples.after_closepath "5 5") = Some "z"
               \/ Path.letter (Samples.after_closepath "5 5") = Some "Z")
    by (left; reflexivity).
  assert (H2 : strip (Path.string_ (Samples.after_closepath "5 5")) <> "")
    by discriminate.
  assert (H3 : str_in (fst (split1 (strip (Path.string_ (Samples.after_closepath "5 5")))))
                      Path.PATH_LETTERS = false) by reflexivity.
  exact (number_after_closepath_never_ends
           Helpers.size Helpers.point Helpers.point_angle Helpers.rotate
           Helpers.quadratic_points Helpers.float_of_string Run.str_of_float
           1000 (Samples.after_closepath "5 5") H1 H2 H3).
Defined.

Lemma smooth_quadratic_is_read :
  Path.string_ (Path.init Helpers.normalize None "T5 5") <> ""
  /\ exists s1,
       Path.read_letter (Path.init Helpers.normalize None "T5 5") = Ok ("T", s1).
Proof. split; [run; discriminate | eexists; run; reflexivity]. Qed.

(** The data [T5 5]. *)
Lemma smooth_command_first_raises_witness :
  Path.while_string Helpers.size Helpers.point Helpers.point_angle Helpers.rotate
                    Helpers.quadratic_points Helpers.float_of_string Run.str_of_float
                    1 (Path.init Helpers.normalize None "T5 5")
  = Some (Raise TypeError).
Proof.
  destruct smooth_quadratic_is_read as (Hne & s1 & Hread).
  exact (smooth_command_first_raises
           Helpers.size Helpers.point Helpers.point_angle Helpers.rotate
           Helpers.quadratic_points Helpers.float_of_string Run.str_of_float
           0 (Path.init Helpers.normalize None "T5 5") s1 "T"
           Hne eq_refl Hread (or_intror (or_intror (or_intror eq_refl)))).
Defined.

Lemma second_pair_is_read :
  str_in (fst (split1 (strip (Path.string_ (Samples.after_moveto "5 5")))))
         Path.PATH_LETTERS = false
  /\ Helpers.point (strip (Path.string_ (Samples.after_moveto "5 5"))) = Ok (5, 5, "").
Proof. split; [reflexivity | run; reflexivity]. Qed.

(** The data [M0 0 5 5]: the second pair draws a line to [(5, 5)]. *)
Lemma implicit_lineto_after_moveto_witness :
  exists s' (a : R),
    Path.step Helpers.size Helpers.point Helpers.point_angle Helpers.rotate
              Helpers.quadratic_points Helpers.float_of_string Run.str_of_float
              (Samples.after_moveto "5 5") = Ok s'
    /\ Path.letter s' = Some (if String.eqb "M" "M" then "L" else "l")
    /\ Path.last_letter s' = Path.letter s'
    /\ a = (if String.eqb "M" "M"
            then Helpers.point_angle
                   (fst (Path.current_point (Samples.after_moveto "5 5")))
                   (snd (Path.current_point (Samples.after_moveto "5 5"))) 5 5
            else Helpers.point_angle 0 0 5 5)
    /\ Path.calls s'
       = (Path.calls (Samples.after_moveto "5 5")
            ++ [if String.eqb "M" "M" then line_to 5 5 else rel_line_to 5 5])%list
    /\ Path.current_point s'
       = (if String.eqb "M" "M" then (5, 5)
          else Path.padd (Path.current_point (Samples.after_moveto "5 5")) (5, 5))
    /\ Path.vertices s'
       = (Path.vertices (Samples.after_moveto "5 5")
            ++ [Some (PI - a, a); Some (Path.current_point s')])%list.
Proof.
  destruct second_pair_is_read as (Htok & Hpt).
  exact (implicit_lineto_after_moveto
           Helpers.size Helpers.point Helpers.point_angle Helpers.rotate
           Helpers.quadratic_points Helpers.float_of_string Run.str_of_float
           (Samples.after_moveto "5 5") "M" 5 5 "" (or_introl eq_refl) eq_refl Htok Hpt).
Defined.

Lemma cubic_then_smooth_runs :
  exists sa s1 sb s2,
    Path.read_letter (Samples.after_moveto "c 10 0 10 10 20 10 S 50 20 60 10")
    = Ok ("c", sa)
    /\ Path.step Helpers.size Helpers.point Helpers.point_angle Helpers.rotate
                 Helpers.quadratic_points Helpers.float_of_string Run.str_of_float
                 (Samples.after_moveto "c 10 0 10 10 20 10 S 50 20 60 10") = Ok s1
    /\ Path.read_letter s1 = Ok ("S", sb)
    /\ Path.step Helpers.size Helpers.point Helpers.point_angle Helpers.rotate
                 Helpers.quadratic_points Helpers.float_of_string Run.str_of_float
                 s1 = Ok s2
    /\ Path.current_point s1 = (0 + 20, 0 + 10).
Proof.
  eexists. eexists. eexists. eexists.
  split; [reflexivity|]. split; [eval_step|].
  split; [run; reflexivity|]. split; [eval_step | reflexivity].
Qed.

(** The data [M0 0 c10 0 10 10 20 10 S50 20 60 10]. *)
Lemma smooth_curve_mirrors_control_point_witness :
  exists s1 s2,
    Path.step Helpers.size Helpers.point Helpers.point_angle Helpers.rotate
              Helpers.quadratic_points Helpers.float_of_string Run.str_of_float
              (Samples.after_moveto "c 10 0 10 10 20 10 S 50 20 60 10") = Ok s1
    /\ Path.step Helpers.size Helpers.point Helpers.point_angle Helpers.rotate
                 Helpers.quadratic_points Helpers.float_of_string Run.str_of_float
                 s1 = Ok s2
    /\ Path.current_point s1 = (0 + 20, 0 + 10)
    /\ exists a b px py cx cy ex ey : R,
         Path.calls s1
         = (Path.calls (Samples.after_moveto "c 10 0 10 10 20 10 S 50 20 60 10")
            ++ [if String.eqb "c" "C" || String.eqb "c" "S"
                then curve_to a b px py
                       (fst (Path.current_point s1)) (snd (Path.current_point s1))
                else rel_curve_to a b
                       (px - fst (Path.current_point
                                    (Samples.after_moveto
                                       "c 10 0 10 10 20 10 S 50 20 60 10")))
                       (py - snd (Path.current_point
                                    (Samples.after_moveto
                                       "c 10 0 10 10 20 10 S 50 20 60 10")))
                       (fst (Path.current_point s1)
                        - fst (Path.current_point
                                 (Samples.after_moveto
                                    "c 10 0 10 10 20 10 S 50 20 60 10")))
                       (snd (Path.current_point s1)
                        - snd (Path.current_point
                                 (Samples.after_moveto
                                    "c 10 0 10 10 20 10 S 50 20 60 10")))])%list
         /\ Path.calls s2
            = (Path.calls s1
               ++ [if String.eqb "S" "S"
                   then curve_to (2 * fst (Path.current_point s1) - px)
                                 (2 * snd (Path.current_point s1) - py) cx cy ex ey
                   else rel_curve_to (fst (Path.current_point s1) - px)
                                     (snd (Path.current_point s1) - py) cx cy ex ey])%list.
Proof.
  destruct cubic_then_smooth_runs as (sa & s1 & sb & s2 & Hr1 & H1 & Hr2 & H2 & Hcp).
  exists s1, s2. split; [exact H1|]. split; [exact H2|]. split; [exact Hcp|].
  exact (smooth_curve_mirrors_control_point
           Helpers.size Helpers.point Helpers.point_angle Helpers.rotate
           Helpers.quadratic_points Helpers.float_of_string Run.str_of_float
           (Samples.after_moveto "c 10 0 10 10 20 10 S 50 20 60 10") sa s1 sb s2
           "c" "S" Hr1 (or_introl eq_refl) H1 Hr2 (or_introl eq_refl) H2).
Defined.

Lemma quadratic_then_smooth_runs :
  exists sa s1 sb s2,
    Path.read_letter (Samples.after_moveto "q 10 10 20 0 T 40 0") = Ok ("q", sa)
    /\ Path.step Helpers.size Helpers.point Helpers.point_angle Helpers.rotate
                 Helpers.quadratic_points Helpers.float_of_string Run.str_of_float
                 (Samples.after_moveto "q 10 10 20 0 T 40 0") = Ok s1
    /\ Path.read_letter s1 = Ok ("T", sb)
    /\ Path.step Helpers.size Helpers.point Helpers.point_angle Helpers.rotate
                 Helpers.quadratic_points Helpers.float_of_string Run.str_of_float
                 s1 = Ok s2
    /\ Path.current_point s1 = (0 + 20, 0 + 0).
Proof.
  eexists. eexists. eexists. eexists.
  split; [reflexivity|]. split; [eval_step|].
  split; [run; reflexivity|]. split; [eval_step | reflexivity].
Qed.

(** The data [M0 0 q10 10 20 0 T40 0]. *)
Lemma smooth_quadratic_mirrors_control_point_witness :
  exists s1 s2,
    Path.step Helpers.size Helpers.point Helpers.point_angle Helpers.rotate
              Helpers.quadratic_points Helpers.float_of_string Run.str_of_float
              (Samples.after_moveto "q 10 10 20 0 T 40 0") = Ok s1
    /\ Path.step Helpers.size Helpers.point Helpers.point_angle Helpers.rotate
                 Helpers.quadratic_points Helpers.float_of_string Run.str_of_float
                 s1 = Ok s2
    /\ Path.current_point s1 = (0 + 20, 0 + 0)
    /\ exists px py x y : R,
         Path.calls s1
         = (Path.calls (Samples.after_moveto "q 10 10 20 0 T 40 0")
            ++ [if String.eqb "q" "Q"
                then Trace.curve_of false
                       (Helpers.quadratic_points
                          (fst (Path.current_point
                                  (Samples.after_moveto "q 10 10 20 0 T 40 0")))
                          (snd (Path.current_point
                                  (Samples.after_moveto "q 10 10 20 0 T 40 0")))
                          px py
                          (fst (Path.current_point s1)) (snd (Path.current_point s1)))
                else Trace.curve_of true
                       (Helpers.quadratic_points 0 0
                          (px - fst (Path.current_point
                                       (Samples.after_moveto "q 10 10 20 0 T 40 0")))
                          (py - snd (Path.current_point
                                       (Samples.after_moveto "q 10 10 20 0 T 40 0")))
                          (fst (Path.current_point s1)
                           - fst (Path.current_point
                                    (Samples.after_moveto "q 10 10 20 0 T 40 0")))
                          (snd (Path.current_point s1)
                           - snd (Path.current_point
                                    (Samples.after_moveto "q 10 10 20 0 T 40 0"))))])%list
         /\ Path.calls s2
            = (Path.calls s1
               ++ [if String.eqb "T" "T"
                   then Trace.curve_of false
                          (Helpers.quadratic_points
                             (fst (Path.current_point s1)) (snd (Path.current_point s1))
                             (2 * fst (Path.current_point s1) - px)
                             (2 * snd (Path.current_point s1) - py)
                             x y)
                   else Trace.curve_of true
                          (Helpers.quadratic_points 0 0
                             (fst (Path.current_point s1) - px)
                             (snd (Path.current_point s1) - py)
                             x y)])%list.
Proof.
  destruct quadratic_then_smooth_runs
    as (sa & s1 & sb & s2 & Hr1 & H1 & Hr2 & H2 & Hcp).
  exists s1, s2. split; [exact H1|]. split; [exact H2|]. split; [exact Hcp|].
  exact (smooth_quadratic_mirrors_control_point
           Helpers.size Helpers.point Helpers.point_angle Helpers.rotate
           Helpers.quadratic_points Helpers.float_of_string Run.str_of_float
           (Samples.after_moveto "q 10 10 20 0 T 40 0") sa s1 sb s2
           "q" "T" Hr1 (or_intror eq_refl) H1 Hr2 (or_introl eq_refl) H2).
Defined.

Lemma arrow_is_fitted :
  Markers.markers Inputs.fragment Samples.arrow_at_end Markers.end_ <> ""
  /\ Samples.arrow_markers
       (Markers.markers Inputs.fragment Samples.arrow_at_end Markers.end_)
     = Some Samples.arrow
  /\ Markers.get Samples.arrow "orient" "0" = "auto"
  /\ Helpers.size "1" "xy" = Ok 1
  /\ Markers.fit Helpers.size Inputs.viewbox Inputs.preserve_ratio
                 Inputs.clip_marker_box Inputs.calculate_bounding_box Samples.arrow
     = Ok (Rmin (3 / 1) (3 / 1), Rmin (3 / 1) (3 / 1), - 0, - 0, None).
Proof.
  split; [run; discriminate|]. split; [reflexivity|]. split; [reflexivity|].
  split; [run; reflexivity|].
  repeat (progress (run; number_tests)). reflexivity.
Qed.

(** The stream of the data [M1 1], a single point, with an end marker
    that follows the direction of the path. *)
Lemma end_marker_without_direction_raises_witness :
  Markers.draw_markers Inputs.fragment Helpers.size Inputs.viewbox
    Inputs.preserve_ratio Inputs.clip_marker_box Inputs.calculate_bounding_box
    Helpers.float_of_string Samples.arrow_markers "1" Samples.arrow_at_end
    1 (Some [Some (1, 1)]) [move_to 0 0; move_to 1 1]
  = Some (Raise TypeError).
Proof.
  destruct arrow_is_fitted as (Hne & Hm & Ho & Hsc & Hf).
  exact (end_marker_without_direction_raises
           Inputs.fragment Helpers.size Inputs.viewbox Inputs.preserve_ratio
           Inputs.clip_marker_box Inputs.calculate_bounding_box
           Helpers.float_of_string Samples.arrow_markers "1" Samples.arrow_at_end
           0 (Some (1, 1)) [Some (1, 1)] [move_to 0 0; move_to 1 1]
           Samples.arrow 1 (Rmin (3 / 1) (3 / 1), Rmin (3 / 1) (3 / 1), - 0, - 0, None)
           (or_introl eq_refl) Hne Hm (or_introl Ho) Hsc Hf).
Defined.

(** ** Which markers are drawn, and where *)

Lemma drawn_app (a b : list call) :
  Trace.drawn (a ++ b) = (Trace.drawn a ++ Trace.drawn b)%list.
Proof. apply flat_map_app. Qed.

Section Placement.

Variable fragment : string -> string.
Variable size : string -> string -> result R.
Variable viewbox : Markers.marker_node -> result (option Markers.box).
Variable preserve_ratio : Markers.marker_node -> result (R * R * R * R).
Variable clip_marker_box : Markers.marker_node -> R -> R -> result (option Markers.box).
Variable calculate_bounding_box : Markers.marker_node -> result Markers.box.
Variable float_of_string : string -> result R.
Variable surface_markers : string -> option Markers.marker_node.
Variable stroke_width : string.
Variable node : string -> option string.

Local Abbreviation draw_marker :=
  (Markers.draw_marker size viewbox preserve_ratio clip_marker_box
                       calculate_bounding_box float_of_string surface_markers
                       stroke_width).
Local Abbreviation iteration :=
  (Markers.iteration fragment size viewbox preserve_ratio clip_marker_box
                     calculate_bounding_box float_of_string surface_markers
                     stroke_width node).
Local Abbreviation while_vertices :=
  (Markers.while_vertices fragment size viewbox preserve_ratio clip_marker_box
                          calculate_bounding_box float_of_string surface_markers
                          stroke_width node).
Local Abbreviation draw_markers :=
  (Markers.draw_markers fragment size viewbox preserve_ratio clip_marker_box
                        calculate_bounding_box float_of_string surface_markers
                        stroke_width node).

Local Abbreviation marker_children :=
  (Trace.marker_children fragment surface_markers node).

Lemma draw_child_drawn (m : Markers.marker_node) (point : vertex) (angle sc : R)
    (f : R * R * R * R * option Markers.box) (child : nat) (t t' : list call) :
  Markers.draw_child m point angle sc f child t = Ok t' ->
  Trace.drawn t' = (Trace.drawn t ++ [child])%list.
Proof.
  unfold Markers.draw_child, Markers.emit. intros H.
  destruct f as [[[[sx sy] tx] ty] clip_box].
  destruct point as [[px py]|]; [|discriminate].
  injection H as <-.
  destruct clip_box as [[[[bx by_] bw] bh]|];
    [destruct (_ || _)|]; rewrite !drawn_app; cbn; rewrite ?app_nil_r; reflexivity.
Qed.

Lemma draw_children_drawn (m : Markers.marker_node) (point : vertex) (angle sc : R)
    (f : R * R * R * R * option Markers.box) (cs : list nat) :
  forall t t' : list call,
    Markers.draw_children m point angle sc f cs t = Ok t' ->
    Trace.drawn t' = (Trace.drawn t ++ cs)%list.
Proof.
  induction cs as [|child cs IH]; intros t t' H; cbn [Markers.draw_children] in H.
  - injection H as <-. now rewrite app_nil_r.
  - destruct (Markers.draw_child m point angle sc f child t) as [t1|] eqn:E;
      cbn [bind] in H; [|discriminate].
    rewrite (IH _ _ H), (draw_child_drawn _ _ _ _ _ _ _ _ E), <- app_assoc.
    reflexivity.
Qed.

Lemma draw_marker_drawn (marker : string) (p : Markers.position)
    (point : vertex) (angle angle' : option R) (t t' : list call) :
  draw_marker marker p point angle t = Ok (angle', t') ->
  exists m,
    surface_markers marker = Some m
    /\ Trace.drawn t' = (Trace.drawn t ++ Markers.children m)%list.
Proof.
  unfold Markers.draw_marker, Markers.emit. intros H.
  destruct (surface_markers marker) as [m|]; [|discriminate].
  exists m. split; [reflexivity|].
  destruct (match Markers.attrs m "markerUnits" with
            | Some "userSpaceOnUse" => Ok 1
            | _ => size stroke_width "xy" end) as [sc|]; cbn [bind] in H; [|discriminate].
  destruct (Markers.fit _ _ _ _ _ m) as [f|]; cbn [bind] in H; [|discriminate].
  match type of H with
  | bind ?r _ = _ => destruct r as [a|]; cbn [bind] in H; [|discriminate]
  end.
  match type of H with
  | bind ?r _ = _ => destruct r as [t1|] eqn:E; cbn [bind] in H; [|discriminate]
  end.
  injection H as _ <-.
  rewrite drawn_app, (draw_children_drawn _ _ _ _ _ _ _ _ E), !drawn_app.
  cbn. now rewrite !app_nil_r.
Qed.

(** One iteration draws the children of the marker of the position of
    the point it reads. *)
Lemma iteration_drawn (s s' : Markers.state) :
  Markers.vertices s <> [] ->
  iteration s = Ok s' ->
  exists p rest,
    Trace.walk (Markers.pos s) (Markers.vertices s)
    = p :: Trace.walk (Markers.pos s') rest
    /\ Markers.vertices s' = rest
    /\ (List.length rest < List.length (Markers.vertices s))%nat
    /\ Trace.drawn (Markers.calls s')
       = (Trace.drawn (Markers.calls s) ++ marker_children p)%list.
Proof.
  unfold Markers.iteration. intros Hne H.
  destruct (Markers.vertices s) as [|pt vs]; [congruence|]. clear Hne.
  assert (Hgo : forall (q : Markers.position) (an : option R) (rest : list vertex)
                       (b1 b2 : option R) (q' : Markers.position),
             ('(angle, t) <-
                match Markers.markers fragment node q with
                | "" => Ok (an, Markers.calls s)
                | String _ _ =>
                    draw_marker (Markers.markers fragment node q) q pt an
                                (Markers.calls s)
                end ;;
              Ok (Markers.mkState rest q' b1 b2 angle pt t)) = Ok s' ->
             Markers.vertices s' = rest
             /\ Markers.pos s' = q'
             /\ Trace.drawn (Markers.calls s')
                = (Trace.drawn (Markers.calls s) ++ marker_children q)%list).
  { intros q an rest b1 b2 q' Hq. unfold Trace.marker_children.
    destruct (Markers.markers fragment node q) as [|c name] eqn:Em.
    - cbn [bind] in Hq. injection Hq as <-. cbn. now rewrite app_nil_r.
    - destruct (draw_marker (String c name) q pt an (Markers.calls s))
        as [[a t']|] eqn:E; cbn [bind] in Hq; [|discriminate].
      injection Hq as <-. cbn.
      destruct (draw_marker_drawn _ _ _ _ _ _ _ E) as (m & -> & Hd).
      repeat split. exact Hd. }
  destruct vs as [|[[g0 g1]|] vs'].
  - cbn [Markers.orientation bind] in H.
    destruct (Hgo _ _ _ _ _ _ H) as (Hv & Hp & Hd).
    exists Markers.end_, []. rewrite Hv. cbn. repeat split; [lia | exact Hd].
  - destruct (Markers.orientation (Markers.pos s) (Markers.angle1 s) (Markers.angle2 s)
                (Some (g0, g1))) as [[[[an q] b1] b2]|] eqn:Eo;
      cbn [bind] in H; [|discriminate].
    assert (Hq : q = Markers.pos s).
    { unfold Markers.orientation in Eo.
      match type of Eo with
      | bind ?r _ = _ => destruct r; cbn [bind] in Eo; [|discriminate]
      end.
      now injection Eo as _ <- _ _. }
    subst q.
    destruct (Hgo _ _ _ _ _ _ H) as (Hv & Hp & Hd).
    exists (Markers.pos s), vs'. rewrite Hv, Hp. cbn.
    repeat split; [lia | exact Hd].
  - cbn [Markers.orientation bind] in H.
    destruct (Hgo _ _ _ _ _ _ H) as (Hv & Hp & Hd).
    exists Markers.end_, vs'. rewrite Hv, Hp. cbn.
    repeat split; [lia | exact Hd].
Qed.

Lemma while_vertices_drawn (fuel : nat) :
  forall s s' : Markers.state,
    while_vertices fuel s = Some (Ok s') ->
    Trace.drawn (Markers.calls s')
    = (Trace.drawn (Markers.calls s)
         ++ flat_map marker_children
                     (Trace.walk (Markers.pos s) (Markers.vertices s)))%list.
Proof.
  induction fuel as [|fuel IH]; intros s s' H.
  - cbn in H. destruct (Markers.vertices s) eqn:E; [|discriminate].
    injection H as <-. cbn. now rewrite app_nil_r.
  - cbn in H. destruct (Markers.vertices s) as [|pt vs] eqn:E.
    + injection H as <-. cbn. now rewrite app_nil_r.
    + destruct (iteration s) as [s1|e] eqn:Ei; [|discriminate].
      destruct (iteration_drawn s s1) as (p & rest & Hw & Hv & _ & Hd);
        [rewrite E; discriminate | exact Ei |].
      rewrite E in Hw. rewrite (IH _ _ H), Hd, Hv, Hw. cbn [flat_map].
      now rewrite <- app_assoc.
Qed.

(** When [draw_markers] returns, the children it has drawn are, in the
    order of the stream, those of the marker of each point: the start
    marker for the first point of a subpath, the mid marker for a point
    between two segments, the end marker for a point after which the
    stream breaks or ends.  Every point gets its marker once, and every
    child of that marker is drawn once. *)
Theorem draw_markers_draws_marker_of_each_point
    (fuel : nat) (l : list vertex) (vs' : option (list vertex)) (t t' : list call) :
  draw_markers fuel (Some l) t = Some (Ok (vs', t')) ->
  Trace.drawn t'
  = (Trace.drawn t ++ flat_map marker_children (Trace.walk Markers.start l))%list.
Proof.
  unfold Markers.draw_markers. intros H.
  destruct l as [|pt l].
  - injection H as _ <-. cbn. now rewrite app_nil_r.
  - destruct (while_vertices fuel _) as [[s|e]|] eqn:E; try discriminate.
    injection H as _ <-. exact (while_vertices_drawn _ _ _ E).
Qed.

End Placement.

(** ** Relative and absolute forms of a command *)

Lemma Rgtb_shift (v a : R) : Rgtb (a + v) a = Rgtb v 0.
Proof.
  unfold Rgtb. destruct (Rgt_dec (a + v) a), (Rgt_dec v 0); try reflexivity; lra.
Qed.

Section RelativeAbsolute.

Variable size : string -> string -> result R.
Variable point : string -> result (R * R * string).
Variable point_angle : R -> R -> R -> R -> R.
Variable rotate : R -> R -> R -> R * R.
Variable quadratic_points : R -> R -> R -> R -> R -> R -> (R * R * R * R * R * R).
Variable float_of_string : string -> result R.
Variable str_of_float : R -> string.

(** The angle of a segment does not change when both its ends are moved
    by the same vector. *)
Hypothesis point_angle_shift :
  forall a b x y dx dy : R,
    point_angle (dx + a) (dy + b) (dx + x) (dy + y) = point_angle a b x y.

Local Abbreviation step :=
  (Path.step size point point_angle rotate quadratic_points float_of_string
             str_of_float).
Local Abbreviation dispatch :=
  (Path.dispatch size point point_angle rotate quadratic_points float_of_string
                 str_of_float).

(** The state in which a command that follows a completed command other
    than a closepath is dispatched. *)
Lemma dispatch_state (s sa : Path.state) (l : string) :
  in_tuple (Path.last_letter s) Path.NONE_Z = false ->
  Path.read_letter s = Ok (l, sa) ->
  Path.vertices (Path.update_first_path_point l sa) = Path.vertices s
  /\ Path.current_point (Path.update_first_path_point l sa) = Path.current_point s
  /\ Path.calls (Path.update_first_path_point l sa) = Path.calls s
  /\ Path.last_letter (Path.update_first_path_point l sa) = Path.last_letter s.
Proof.
  intros Hz Hread.
  destruct (read_letter_frame s sa l Hread (or_introl Hz)) as (Hv & Hcp & Hc & Hll & _).
  destruct (update_first_path_point_frame l sa) as (_ & Uv & Ucp & Uc & Ull & _).
  rewrite Uv, Ucp, Uc, Ull. repeat split; assumption.
Qed.

Lemma last_call (t : list call) (a b : call) :
  (t ++ [a])%list = (t ++ [b])%list -> a = b.
Proof. intros H. apply app_inv_head in H. now injection H. Qed.

(** A relative command and its absolute form that draw the same segment
    (the call of the second is the call of the first converted to absolute
    coordinates) leave the same vertex stream and the same current point;
    the cubic commands also leave the same points in [x2], [y2], [x3],
    [y3].  Both commands follow a completed command other than a
    closepath. *)
Theorem relative_and_absolute_commands_agree
    (s1 s2 sa1 sa2 u1 u2 : Path.state) (l1 l2 : string) (c : call) :
  in_tuple (Path.last_letter s1) Path.NONE_Z = false ->
  Path.last_letter s2 = Path.last_letter s1 ->
  Path.current_point s2 = Path.current_point s1 ->
  Path.vertices s2 = Path.vertices s1 ->
  Path.calls s2 = Path.calls s1 ->
  Path.read_letter s1 = Ok (l1, sa1) ->
  Path.read_letter s2 = Ok (l2, sa2) ->
  In (l1, l2) [("l", "L"); ("h", "H"); ("v", "V"); ("m", "M"); ("c", "C"); ("s", "S")] ->
  step s1 = Ok u1 ->
  step s2 = Ok u2 ->
  Path.calls u1 = (Path.calls s1 ++ [c])%list ->
  Path.calls u2 = (Path.calls s1 ++ [Trace.absolute (Path.current_point s1) c])%list ->
  Path.vertices u1 = Path.vertices u2
  /\ Path.current_point u1 = Path.current_point u2
  /\ (l1 = "c" \/ l1 = "s" ->
      Path.x2 u1 = Path.x2 u2 /\ Path.y2 u1 = Path.y2 u2
      /\ Path.x3 u1 = Path.x3 u2 /\ Path.y3 u1 = Path.y3 u2).
Proof.
  intros Hz Hll Hcp Hv Hc Hr1 Hr2 Hp H1 H2 Hc1 Hc2.
  assert (Hz2 : in_tuple (Path.last_letter s2) Path.NONE_Z = false) by now rewrite Hll.
  destruct (dispatch_state _ _ _ Hz Hr1) as (V1 & P1 & C1 & L1).
  destruct (dispatch_state _ _ _ Hz2 Hr2) as (V2 & P2 & C2 & L2).
  rewrite Hv in V2. rewrite Hcp in P2. rewrite Hc in C2. rewrite Hll in L2.
  unfold Path.step in H1, H2. rewrite Hr1 in H1. rewrite Hr2 in H2.
  cbn [bind] in H1, H2.
  set (v1 := Path.update_first_path_point l1 sa1) in *. clearbody v1.
  set (v2 := Path.update_first_path_point l2 sa2) in *. clearbody v2.
  destruct (Path.current_point s1) as [ox oy] eqn:Eo.
  cbn [In] in Hp.
  destruct Hp as [Hp | [Hp | [Hp | [Hp | [Hp | [Hp | []]]]]]]; injection Hp as <- <-.
  - (* l, L *)
    change (dispatch "l" v1)
      with (Path.l_branch point point_angle (Path.string_ v1) v1) in H1.
    change (dispatch "L" v2)
      with (Path.L_branch point point_angle (Path.string_ v2) v2) in H2.
    unfold Path.l_branch in H1. unfold Path.L_branch in H2.
    destruct (point (Path.string_ v1)) as [[[x y] r1]|]; cbn [bind] in H1; [|discriminate].
    destruct (point (Path.string_ v2)) as [[[X Y] r2]|]; cbn [bind] in H2; [|discriminate].
    cbn [Path.current_point Path.with_string] in H2. rewrite P2 in H2.
    injection H1 as <-. injection H2 as <-.
    cbn in Hc1, Hc2. rewrite C1 in Hc1. rewrite C2 in Hc2.
    apply last_call in Hc1. subst c. apply last_call in Hc2. cbn in Hc2.
    injection Hc2 as -> ->.
    cbn. rewrite V1, V2, P1. cbn.
    replace (point_angle ox oy (ox + x) (oy + y)) with (point_angle 0 0 x y).
    + split; [reflexivity|]. split; [reflexivity|].
      intros [E | E]; discriminate E.
    + rewrite <- (point_angle_shift 0 0 x y ox oy). f_equal; lra.
  - (* h, H *)
    change (dispatch "h" v1) with (Path.h_branch size (Path.string_ v1) v1) in H1.
    change (dispatch "H" v2) with (Path.H_branch size (Path.string_ v2) v2) in H2.
    unfold Path.h_branch in H1. unfold Path.H_branch in H2.
    destruct (Path.split_sp (Path.string_ v1)) as [xs r1].
    destruct (Path.split_sp (Path.string_ v2)) as [Xs r2].
    cbn [Path.current_point Path.with_string] in H2. rewrite P2 in H2.
    destruct (size xs "x") as [d|]; cbn [bind] in H1; [|discriminate].
    destruct (size Xs "x") as [D|]; cbn [bind] in H2; [|discriminate].
    injection H1 as <-. injection H2 as <-.
    cbn in Hc1, Hc2. rewrite C1 in Hc1. rewrite C2 in Hc2.
    apply last_call in Hc1. subst c. apply last_call in Hc2. cbn in Hc2.
    injection Hc2 as HD _. subst D.
    cbn. rewrite V1, V2, P1, P2. cbn. rewrite Rgtb_shift.
    split; [reflexivity|]. split; [reflexivity|].
    intros [E | E]; discriminate E.
  - (* v, V *)
    change (dispatch "v" v1) with (Path.v_branch size (Path.string_ v1) v1) in H1.
    change (dispatch "V" v2) with (Path.V_branch size (Path.string_ v2) v2) in H2.
    unfold Path.v_branch in H1. unfold Path.V_branch in H2.
    destruct (Path.split_sp (Path.string_ v1)) as [ys r1].
    destruct (Path.split_sp (Path.string_ v2)) as [Ys r2].
    cbn [Path.current_point Path.with_string] in H2. rewrite P2 in H2.
    destruct (size ys "y") as [d|]; cbn [bind] in H1; [|discriminate].
    destruct (size Ys "y") as [D|]; cbn [bind] in H2; [|discriminate].
    injection H1 as <-. injection H2 as <-.
    cbn in Hc1, Hc2. rewrite C1 in Hc1. rewrite C2 in Hc2.
    apply last_call in Hc1. subst c. apply last_call in Hc2. cbn in Hc2.
    injection Hc2 as _ HD. subst D.
    cbn. rewrite V1, V2, P1, P2. cbn.
    replace (oy + d - oy) with d by lra.
    split; [reflexivity|]. split; [reflexivity|].
    intros [E | E]; discriminate E.
  - (* m, M *)
    change (dispatch "m" v1) with (Path.m_branch point (Path.string_ v1) v1) in H1.
    change (dispatch "M" v2) with (Path.M_branch point (Path.string_ v2) v2) in H2.
    unfold Path.m_branch, Path.subpath_break in H1.
    unfold Path.M_branch, Path.subpath_break in H2.
    destruct (point (Path.string_ v1)) as [[[x y] r1]|]; cbn [bind] in H1; [|discriminate].
    destruct (point (Path.string_ v2)) as [[[X Y] r2]|]; cbn [bind] in H2; [|discriminate].
    cbn [Path.last_letter Path.with_string] in H1, H2. rewrite L1 in H1. rewrite L2 in H2.
    injection H1 as <-. injection H2 as <-.
    destruct (Path.needs_break (Path.last_letter s1));
      cbn in Hc1, Hc2; rewrite C1 in Hc1; rewrite C2 in Hc2;
      apply last_call in Hc1; subst c; apply last_call in Hc2; cbn in Hc2;
      injection Hc2 as -> ->;
      cbn; rewrite V1, V2, P1; cbn;
      (split; [reflexivity|]); (split; [reflexivity|]);
      intros [E | E]; discriminate E.
  - (* c, C *)
    change (dispatch "c" v1)
      with (Path.c_branch point point_angle (Path.string_ v1) v1) in H1.
    change (dispatch "C" v2)
      with (Path.C_branch point point_angle (Path.string_ v2) v2) in H2.
    unfold Path.c_branch in H1. unfold Path.C_branch in H2.
    rewrite P1 in H1.
    destruct (point (Path.string_ v1)) as [[[x1 y1] r1]|]; cbn [bind] in H1; [|discriminate].
    destruct (point r1) as [[[x2 y2] r1']|]; cbn [bind] in H1; [|discriminate].
    destruct (point r1') as [[[x3 y3] r1'']|]; cbn [bind] in H1; [|discriminate].
    destruct (point (Path.string_ v2)) as [[[X1 Y1] r2]|]; cbn [bind] in H2; [|discriminate].
    destruct (point r2) as [[[X2 Y2] r2']|]; cbn [bind] in H2; [|discriminate].
    destruct (point r2') as [[[X3 Y3] r2'']|]; cbn [bind] in H2; [|discriminate].
    injection H1 as <-. injection H2 as <-.
    cbn in Hc1, Hc2. rewrite C1 in Hc1. rewrite C2 in Hc2.
    apply last_call in Hc1. subst c. apply last_call in Hc2. cbn in Hc2.
    injection Hc2 as -> -> -> -> -> ->.
    cbn. rewrite V1, V2, P1. cbn. rewrite !point_angle_shift.
    split; [reflexivity|]. split; [reflexivity|].
    intros _. repeat split; lra.
  - (* s, S *)
    change (dispatch "s" v1)
      with (Path.s_branch point point_angle (Path.string_ v1) v1) in H1.
    change (dispatch "S" v2)
      with (Path.S_branch point point_angle (Path.string_ v2) v2) in H2.
    unfold Path.s_branch in H1. unfold Path.S_branch in H2.
    rewrite P1, L1 in H1. rewrite P2, L2 in H2.
    destruct (Path.py_in (Path.last_letter s1) "csCS") as [b|]; cbn [bind] in H1, H2;
      [|discriminate].
    destruct (point (Path.string_ v1)) as [[[x2 y2] r1]|]; cbn [bind] in H1; [|discriminate].
    destruct (point r1) as [[[x3 y3] r1']|]; cbn [bind] in H1; [|discriminate].
    destruct (point (Path.string_ v2)) as [[[X2 Y2] r2]|]; cbn [bind] in H2; [|discriminate].
    destruct (point r2) as [[[X3 Y3] r2']|]; cbn [bind] in H2; [|discriminate].
    injection H1 as <-. injection H2 as <-.
    cbn in Hc1, Hc2. rewrite C1 in Hc1. rewrite C2 in Hc2.
    apply last_call in Hc1. subst c. apply last_call in Hc2. cbn in Hc2.
    injection Hc2 as E1 E2 -> -> -> ->.
    cbn. rewrite V1, V2, P1, E1, E2. cbn. rewrite !point_angle_shift.
    split; [reflexivity|]. split; [reflexivity|].
    intros _. repeat split; lra.
Qed.

End RelativeAbsolute.

(** The children drawn for [M0 0 L10 0] with a start marker: those of
    the marker, once, at the first point. *)
Lemma draw_markers_draws_marker_of_each_point_witness :
  exists t',
    Markers.draw_markers Inputs.fragment Helpers.size Inputs.viewbox
      Inputs.preserve_ratio Inputs.clip_marker_box Inputs.calculate_bounding_box
      Helpers.float_of_string Samples.arrow_markers "1" Inputs.arrow_node
      3 (Some [Some (0, 0); Some (PI - 0, 0); Some (10, 0)]) []
    = Some (Ok (Some [], t'))
    /\ Trace.walk Markers.start [Some (0, 0); Some (PI - 0, 0); Some (10, 0)]
       = [Markers.start; Markers.end_]
    /\ Trace.drawn t'
       = (Trace.drawn []
            ++ flat_map (Trace.marker_children Inputs.fragment Samples.arrow_markers
                                               Inputs.arrow_node)
                        (Trace.walk Markers.start
                           [Some (0, 0); Some (PI - 0, 0); Some (10, 0)]))%list.
Proof.
  destruct arrow_marker_is_drawn as (t' & Hrun & _).
  exists t'. split; [exact Hrun|]. split; [reflexivity|].
  exact (draw_markers_draws_marker_of_each_point
           Inputs.fragment Helpers.size Inputs.viewbox Inputs.preserve_ratio
           Inputs.clip_marker_box Inputs.calculate_bounding_box
           Helpers.float_of_string Samples.arrow_markers "1" Inputs.arrow_node
           3 [Some (0, 0); Some (PI - 0, 0); Some (10, 0)] (Some []) [] t' Hrun).
Defined.

Lemma point_angle_translation (a b x y dx dy : R) :
  Helpers.point_angle (dx + a) (dy + b) (dx + x) (dy + y) = Helpers.point_angle a b x y.
Proof. unfold Helpers.point_angle. f_equal; lra. Qed.

Lemma cubic_both_ways :
  exists sa1 sa2 u1 u2,
    Path.read_letter (Samples.after_lineto "c 1 2 3 4 5 6") = Ok ("c", sa1)
    /\ Path.read_letter (Samples.after_lineto "C 11 2 13 4 15 6") = Ok ("C", sa2)
    /\ Path.step Helpers.size Helpers.point Helpers.point_angle Helpers.rotate
                 Helpers.quadratic_points Helpers.float_of_string Run.str_of_float
                 (Samples.after_lineto "c 1 2 3 4 5 6") = Ok u1
    /\ Path.step Helpers.size Helpers.point Helpers.point_angle Helpers.rotate
                 Helpers.quadratic_points Helpers.float_of_string Run.str_of_float
                 (Samples.after_lineto "C 11 2 13 4 15 6") = Ok u2
    /\ Path.calls u1
       = (Path.calls (Samples.after_lineto "c 1 2 3 4 5 6")
            ++ [rel_curve_to 1 2 3 4 5 6])%list
    /\ Path.calls u2
       = (Path.calls (Samples.after_lineto "c 1 2 3 4 5 6")
            ++ [Trace.absolute
                  (Path.current_point (Samples.after_lineto "c 1 2 3 4 5 6"))
                  (rel_curve_to 1 2 3 4 5 6)])%list.
Proof.
  eexists. eexists. eexists. eexists.
  split; [reflexivity|]. split; [reflexivity|].
  split; [eval_step|]. split; [eval_step|].
  split; [reflexivity|].
  cbn. repeat f_equal; lra.
Qed.

(** The curves [c 1 2 3 4 5 6] and [C 11 2 13 4 15 6] drawn from
    [(10, 0)]. *)
Lemma relative_and_absolute_commands_agree_witness :
  exists u1 u2,
    Path.step Helpers.size Helpers.point Helpers.point_angle Helpers.rotate
              Helpers.quadratic_points Helpers.float_of_string Run.str_of_float
              (Samples.after_lineto "c 1 2 3 4 5 6") = Ok u1
    /\ Path.step Helpers.size Helpers.point Helpers.point_angle Helpers.rotate
                 Helpers.quadratic_points Helpers.float_of_string Run.str_of_float
                 (Samples.after_lineto "C 11 2 13 4 15 6") = Ok u2
    /\ Path.vertices u1 = Path.vertices u2
    /\ Path.current_point u1 = Path.current_point u2
    /\ ("c" = "c" \/ "c" = "s" ->
        Path.x2 u1 = Path.x2 u2 /\ Path.y2 u1 = Path.y2 u2
        /\ Path.x3 u1 = Path.x3 u2 /\ Path.y3 u1 = Path.y3 u2).
Proof.
  destruct cubic_both_ways as (sa1 & sa2 & u1 & u2 & Hr1 & Hr2 & H1 & H2 & Hc1 & Hc2).
  exists u1, u2. split; [exact H1|]. split; [exact H2|].
  exact (relative_and_absolute_commands_agree
           Helpers.size Helpers.point Helpers.point_angle Helpers.rotate
           Helpers.quadratic_points Helpers.float_of_string Run.str_of_float
           point_angle_translation
           (Samples.after_lineto "c 1 2 3 4 5 6")
           (Samples.after_lineto "C 11 2 13 4 15 6") sa1 sa2 u1 u2 "c" "C"
           (rel_curve_to 1 2 3 4 5 6)
           eq_refl eq_refl eq_refl eq_refl eq_refl Hr1 Hr2
           (or_intror (or_intror (or_intror (or_intror (or_introl eq_refl)))))
           H1 H2 Hc1 Hc2).
Defined.

(** ** The straight-line commands *)

Section Linetos.

Variable size : string -> string -> result R.
Variable point : string -> result (R * R * string).
Variable point_angle : R -> R -> R -> R -> R.
Variable rotate : R -> R -> R -> R * R.
Variable quadratic_points : R -> R -> R -> R -> R -> R -> (R * R * R * R * R * R).
Variable float_of_string : string -> result R.
Variable str_of_float : R -> string.

Local Abbreviation step :=
  (Path.step size point point_angle rotate quadratic_points float_of_string
             str_of_float).
Local Abbreviation dispatch :=
  (Path.dispatch size point point_angle rotate quadratic_points float_of_string
                 str_of_float).

(** An iteration that executes [l], [L], [h] or [H] after a completed
    command other than a closepath makes one call, which draws the
    segment, and appends to the stream the tangent pair [(pi - a, a)] and
    the new current point, the end of the segment.  The angle [a] is the
    direction of the segment drawn: [point_angle] of the displacement for
    [l], [point_angle] from the old current point to the end point for
    [L]; for the horizontal commands it is [0] when the displacement [d]
    is positive ([h]), resp. when the new abscissa is greater than the old
    one ([H]), and [pi] otherwise. *)
Theorem lineto_records_direction (s s1 s' : Path.state) (l : string) :
  in_tuple (Path.last_letter s) Path.NONE_Z = false ->
  Path.read_letter s = Ok (l, s1) ->
  l = "l" \/ l = "L" \/ l = "h" \/ l = "H" ->
  step s = Ok s' ->
  exists (c : call) (a : R),
    Path.calls s' = (Path.calls s ++ [c])%list
    /\ Path.vertices s'
       = (Path.vertices s ++ [Some (PI - a, a); Some (Path.current_point s')])%list
    /\ Path.last_letter s' = Some l
    /\ (l = "l" ->
        exists x y : R,
          c = rel_line_to x y
          /\ a = point_angle 0 0 x y
          /\ Path.current_point s' = Path.padd (Path.current_point s) (x, y))
    /\ (l = "L" ->
        exists x y : R,
          c = line_to x y
          /\ a = point_angle (fst (Path.current_point s)) (snd (Path.current_point s)) x y
          /\ Path.current_point s' = (x, y))
    /\ (l = "h" ->
        exists d : R,
          c = rel_line_to d 0
          /\ a = (if Rgtb d 0 then 0 else PI)
          /\ Path.current_point s'
             = (fst (Path.current_point s) + d, snd (Path.current_point s)))
    /\ (l = "H" ->
        exists X : R,
          c = line_to X (snd (Path.current_point s))
          /\ a = (if Rgtb X (fst (Path.current_point s)) then 0 else PI)
          /\ Path.current_point s' = (X, snd (Path.current_point s))).
Proof.
  intros Hz Hread Hl H.
  destruct (dispatch_state _ _ _ Hz Hread) as (V & P & C & _).
  unfold Path.step in H. rewrite Hread in H. cbn [bind] in H.
  set (u := Path.update_first_path_point l s1) in *. clearbody u.
  destruct (Path.current_point s) as [ox oy] eqn:Eo.
  destruct Hl as [-> | [-> | [-> | ->]]].
  - change (dispatch "l" u) with (Path.l_branch point point_angle (Path.string_ u) u) in H.
    unfold Path.l_branch in H.
    destruct (point (Path.string_ u)) as [[[x y] r]|]; cbn [bind] in H; [|discriminate].
    injection H as <-.
    exists (rel_line_to x y), (point_angle 0 0 x y).
    cbn. rewrite V, P, C, <- app_assoc. cbn.
    split; [reflexivity|]. split; [reflexivity|]. split; [reflexivity|].
    split; [intros _; exists x, y; repeat split; reflexivity|].
    repeat split; intros E; discriminate E.
  - change (dispatch "L" u) with (Path.L_branch point point_angle (Path.string_ u) u) in H.
    unfold Path.L_branch in H.
    destruct (point (Path.string_ u)) as [[[x y] r]|]; cbn [bind] in H; [|discriminate].
    cbn [Path.current_point Path.with_string] in H. rewrite P in H.
    injection H as <-.
    exists (line_to x y), (point_angle ox oy x y).
    cbn. rewrite V, C, <- app_assoc. cbn.
    split; [reflexivity|]. split; [reflexivity|]. split; [reflexivity|].
    split; [intros E; discriminate E|].
    split; [intros _; exists x, y; repeat split; reflexivity|].
    repeat split; intros E; discriminate E.
  - change (dispatch "h" u) with (Path.h_branch size (Path.string_ u) u) in H.
    unfold Path.h_branch in H.
    destruct (Path.split_sp (Path.string_ u)) as [xs r].
    destruct (size xs "x") as [d|]; cbn [bind] in H; [|discriminate].
    injection H as <-.
    exists (rel_line_to d 0), (if Rgtb d 0 then 0 else PI).
    cbn. rewrite V, P, C, <- app_assoc. cbn.
    split; [reflexivity|]. split; [reflexivity|]. split; [reflexivity|].
    split; [intros E; discriminate E|]. split; [intros E; discriminate E|].
    split; [intros _; exists d; repeat split; reflexivity|].
    intros E; discriminate E.
  - change (dispatch "H" u) with (Path.H_branch size (Path.string_ u) u) in H.
    unfold Path.H_branch in H.
    destruct (Path.split_sp (Path.string_ u)) as [xs r].
    cbn [Path.current_point Path.with_string] in H. rewrite P in H.
    destruct (size xs "x") as [X|]; cbn [bind] in H; [|discriminate].
    injection H as <-.
    exists (line_to X oy), (if Rgtb X ox then 0 else PI).
    cbn. rewrite V, P, C, <- app_assoc. cbn.
    split; [reflexivity|]. split; [reflexivity|]. split; [reflexivity|].
    split; [intros E; discriminate E|]. split; [intros E; discriminate E|].
    split; [intros E; discriminate E|].
    intros _; exists X; repeat split; reflexivity.
Qed.

End Linetos.

Lemma horizontal_lineto_runs :
  exists s1 s',
    Path.read_letter (Samples.after_lineto "h -5 L 1 1") = Ok ("h", s1)
    /\ Path.step Helpers.size Helpers.point Helpers.point_angle Helpers.rotate
                 Helpers.quadratic_points Helpers.float_of_string Run.str_of_float
                 (Samples.after_lineto "h -5 L 1 1") = Ok s'
    /\ Path.current_point s' = (10 + -5, 0).
Proof.
  eexists. eexists. split; [reflexivity|]. split; [eval_step | reflexivity].
Qed.

(** The command [h -5] executed at [(10, 0)], after [M0 0 L10 0]. *)
Lemma lineto_records_direction_witness :
  exists s',
    Path.step Helpers.size Helpers.point Helpers.point_angle Helpers.rotate
              Helpers.quadratic_points Helpers.float_of_string Run.str_of_float
              (Samples.after_lineto "h -5 L 1 1") = Ok s'
    /\ Path.current_point s' = (10 + -5, 0)
    /\ exists (c : call) (a : R),
         Path.calls s' = (Path.calls (Samples.after_lineto "h -5 L 1 1") ++ [c])%list
         /\ Path.vertices s'
            = (Path.vertices (Samples.after_lineto "h -5 L 1 1")
                 ++ [Some (PI - a, a); Some (Path.current_point s')])%list
         /\ Path.last_letter s' = Some "h"
         /\ ("h" = "l" ->
             exists x y : R,
               c = rel_line_to x y
               /\ a = Helpers.point_angle 0 0 x y
               /\ Path.current_point s'
                  = Path.padd (Path.current_point (Samples.after_lineto "h -5 L 1 1"))
                              (x, y))
         /\ ("h" = "L" ->
             exists x y : R,
               c = line_to x y
               /\ a = Helpers.point_angle
                        (fst (Path.current_point (Samples.after_lineto "h -5 L 1 1")))
                        (snd (Path.current_point (Samples.after_lineto "h -5 L 1 1")))
                        x y
               /\ Path.current_point s' = (x, y))
         /\ ("h" = "h" ->
             exists d : R,
               c = rel_line_to d 0
               /\ a = (if Rgtb d 0 then 0 else PI)
               /\ Path.current_point s'
                  = (fst (Path.current_point (Samples.after_lineto "h -5 L 1 1")) + d,
                     snd (Path.current_point (Samples.after_lineto "h -5 L 1 1"))))
         /\ ("h" = "H" ->
             exists X : R,
               c = line_to X (snd (Path.current_point (Samples.after_lineto "h -5 L 1 1")))
               /\ a = (if Rgtb X
                            (fst (Path.current_point (Samples.after_lineto "h -5 L 1 1")))
                       then 0 else PI)
               /\ Path.current_point s'
                  = (X, snd (Path.current_point (Samples.after_lineto "h -5 L 1 1")))).
Proof.
  destruct horizontal_lineto_runs as (s1 & s' & Hread & Hstep & Hcp).
  exists s'. split; [exact Hstep|]. split; [exact Hcp|].
  exact (lineto_records_direction
           Helpers.size Helpers.point Helpers.point_angle Helpers.rotate
           Helpers.quadratic_points Helpers.float_of_string Run.str_of_float
           (Samples.after_lineto "h -5 L 1 1") s1 s' "h"
           eq_refl Hread (or_intror (or_intror (or_introl eq_refl))) Hstep).
Defined.
